(** * WordPress export to Shopify import: the row expansion of
    [optimized_wordpress_to_shopify_v2.py]

    A shallow embedding of the converter: the image string parser, the tag
    and category extractors, the option-value collector, the variant image
    resolver, the row assembler [create_variant_rows], the batch driver
    [convert_wordpress_to_shopify], the statistics [show_statistics] and
    the page that [main] leaves, followed by the properties of the
    specification that they decide.

    Conventions of the embedding.
    - Python [str] is [string] (one-byte characters; the case and blank
      tests are the ASCII ones).
    - A cell of a pandas frame is a [value]: [NaN], a string [Str] or a
      Python integer [Int].  Prices are only tested with [pd.isna] and
      copied, so a price cell may be any [value]; floating-point cells are
      outside the embedding.  This matters for an attribute column of
      numbers that pandas reads as floats (a blank cell in the column is
      enough): of such a cell [get_option_values] collects [str(int(x))],
      while the child matcher and [get_metafield_values] use [str(x)]; the
      statements about collected values and matched children speak of text
      and integer cells.  [EmptyList] is the [[]] that [extract_tags]
      returns for an absent taxonomy.
    - A record of the frame is a [series]: the eight columns that the
      converter reads unconditionally are fields (a frame without one of
      them fails with [KeyError] on its first product, which the type of
      [series] excludes), every other column is an entry of [cells].
    - A [dict] used as an output row is a [gmap string value]; the ordered
      dict [attribute_values] is an association list in insertion order;
      a Python [set] of strings is a [gset string].
    - A Python exception is the [Raise] branch of [result].  The calls to
      streamlit (progress bar, messages, tables) have no effect on the
      rows and are left out. *)

From Stdlib Require Import ZArith Ascii String DecimalString.
From Stdlib Require DecimalPos DecimalZ.
From stdpp Require Import gmap strings list sorting.

(** ** Python string primitives *)

Module PyStr.

(** [str.isspace] on one-byte characters. *)
Definition isspace (c : ascii) : bool :=
  let n := nat_of_ascii c in
  ((9 <=? n)%nat && (n <=? 13)%nat) || ((28 <=? n)%nat && (n <=? 32)%nat).

Definition isupper (c : ascii) : bool :=
  let n := nat_of_ascii c in (65 <=? n)%nat && (n <=? 90)%nat.

Definition islower (c : ascii) : bool :=
  let n := nat_of_ascii c in (97 <=? n)%nat && (n <=? 122)%nat.

Definition isalpha (c : ascii) : bool := isupper c || islower c.

Definition lower_char (c : ascii) : ascii :=
  if isupper c then ascii_of_nat (nat_of_ascii c + 32) else c.

Definition upper_char (c : ascii) : ascii :=
  if islower c then ascii_of_nat (nat_of_ascii c - 32) else c.

Fixpoint map_chars (f : ascii → ascii) (s : string) : string :=
  match s with
  | EmptyString => EmptyString
  | String c s' => String (f c) (map_chars f s')
  end.

(** [s.lower()] *)
Definition lower : string → string := map_chars lower_char.

(** [s.capitalize()] *)
Definition capitalize (s : string) : string :=
  match s with
  | EmptyString => EmptyString
  | String c s' => String (upper_char c) (lower s')
  end.

(** [s.title()]: a letter that follows a letter is lowered, any other
    letter is raised. *)
Fixpoint title_from (after_letter : bool) (s : string) : string :=
  match s with
  | EmptyString => EmptyString
  | String c s' =>
      String (if after_letter then lower_char c else upper_char c)
             (title_from (isalpha c) s')
  end.

Definition title : string → string := title_from false.

Fixpoint lstrip (s : string) : string :=
  match s with
  | EmptyString => EmptyString
  | String c s' => if isspace c then lstrip s' else s
  end.

Fixpoint rstrip (s : string) : string :=
  match s with
  | EmptyString => EmptyString
  | String c s' =>
      match rstrip s' with
      | EmptyString => if isspace c then EmptyString else String c EmptyString
      | r => String c r
      end
  end.

(** [s.strip()] *)
Definition strip (s : string) : string := rstrip (lstrip s).

(** [s.split(sep)] for a one-character separator: never an empty list. *)
Fixpoint split (sep : ascii) (s : string) : list string :=
  match s with
  | EmptyString => [EmptyString]
  | String c s' =>
      if decide (c = sep) then EmptyString :: split sep s'
      else match split sep s' with
           | piece :: pieces => String c piece :: pieces
           | [] => [String c EmptyString]
           end
  end.

(** [sub in s] *)
Fixpoint contains (sub s : string) : bool :=
  String.prefix sub s ||
  match s with
  | EmptyString => false
  | String _ s' => contains sub s'
  end.

(** [s.startswith(p)] *)
Definition startswith (p s : string) : bool := String.prefix p s.

(** [s.replace(old, '')] for a non-empty [old]: occurrences are removed
    left to right without overlap; [skip] counts the characters of an
    occurrence that are still to be dropped. *)
Fixpoint remove_from (old : string) (skip : nat) (s : string) : string :=
  match s with
  | EmptyString => EmptyString
  | String c s' =>
      match skip with
      | S k => remove_from old k s'
      | O => if String.prefix old s
             then remove_from old (String.length old - 1) s'
             else String c (remove_from old 0 s')
      end
  end.

Definition remove (old s : string) : string := remove_from old 0 s.

(** [s.replace(a, b)] for single characters. *)
Definition replace_char (a b : ascii) : string → string :=
  map_chars (λ c, if decide (c = a) then b else c).

(** [sep.join(l)] *)
Definition join (sep : string) (l : list string) : string := String.concat sep l.

(** [str(n)] for an integer. *)
Definition of_Z (n : Z) : string := NilZero.string_of_int (Z.to_int n).

(** [str(n)] for a natural number, as used in f-strings. *)
Definition of_nat (n : nat) : string := of_Z (Z.of_nat n).

(** truth value of a string *)
Definition nonempty (s : string) : bool :=
  match s with EmptyString => false | _ => true end.

(** [sorted(l)] on strings: code-point order. *)
Definition sorted (l : list string) : list string := merge_sort String.le l.

End PyStr.

(** ** Values, exceptions *)

Inductive value : Type :=
  | NaN
  | Str (s : string)
  | Int (z : Z)
  | EmptyList.

Global Instance value_eq_dec : EqDecision value.
Proof. solve_decision. Defined.

(** [pd.isna] *)
Definition isna (v : value) : bool :=
  match v with NaN => true | _ => false end.

(** [str(v)] *)
Definition str (v : value) : string :=
  match v with
  | NaN => "nan"
  | Str s => s
  | Int z => PyStr.of_Z z
  | EmptyList => "[]"
  end.

(** truth value of a Python object ([nan] is true) *)
Definition truthy (v : value) : bool :=
  match v with
  | NaN => true
  | Str s => PyStr.nonempty s
  | Int z => negb (z =? 0)%Z
  | EmptyList => false
  end.

(** [a == b] on cells: a [NaN] equals nothing. *)
Definition py_eq (a b : value) : bool :=
  match a, b with
  | NaN, _ | _, NaN => false
  | _, _ => bool_decide (a = b)
  end.

Inductive exn : Type :=
  | AttributeError
  | IndexError
  | KeyError.

Inductive result (A : Type) : Type :=
  | Ok (a : A)
  | Raise (e : exn).
Arguments Ok {A} a.
Arguments Raise {A} e.

Global Instance exn_eq_dec : EqDecision exn.
Proof. solve_decision. Defined.

Global Instance result_eq_dec `{EqDecision A} : EqDecision (result A).
Proof. solve_decision. Defined.

Global Instance result_ret : MRet result := λ A a, Ok a.
Global Instance result_bind : MBind result := λ A B k m,
  match m with
  | Ok a => k a
  | Raise e => Raise e
  end.

(** A dict used as an output row. *)
Abbreviation row := (gmap string value).

(** ** Image Descriptor Parser *)

Record image : Type := { url : string; alt : string }.

Global Instance image_eq_dec : EqDecision image.
Proof. solve_decision. Defined.

(** The inner loop of [parse_images]: the first piece that, once stripped,
    starts with the marker decides the alt text and ends the scan. *)
Fixpoint alt_text_of (parts : list string) : string :=
  match parts with
  | [] => ""
  | part :: rest =>
      if PyStr.startswith "alt :" (PyStr.strip part)
      then PyStr.strip (PyStr.remove "alt :" part)
      else alt_text_of rest
  end.

(** One pass of the outer loop body on [images]. *)
Definition parse_images_step (images : list image) (img : string) : list image :=
  let img := PyStr.strip img in
  if negb (PyStr.nonempty img) then images
  else
    let parts := PyStr.split "!" img in
    let url := PyStr.strip (hd "" parts) in
    let alt_text := alt_text_of (tl parts) in
    images ++ [ {| url := url; alt := alt_text |} ].

Definition parse_images (image_str : value) : result (list image) :=
  match image_str with
  | NaN => Ok []
  | Str s => Ok (fold_left parse_images_step (PyStr.split "|" s) [])
  | _ => Raise AttributeError
  end.

(** ** Frames *)

(** One record of the export (a pandas [Series]): the columns every frame
    must have, and [cells] for the others ([tax:product_cat] and the
    [meta:attribute_pa_*] columns), keyed by column name. *)
Record series : Type := {
  ID : value;
  post_parent : value;
  post_title : value;
  post_excerpt : value;
  post_status : value;
  images : value;
  regular_price : value;
  sale_price : value;
  cells : gmap string value
}.

Record DataFrame : Type := {
  columns : list string;      (* names of the columns held in [cells] *)
  iterrows : list series
}.

(** [df.empty] *)
Definition empty_frame (df : DataFrame) : bool :=
  match iterrows df with [] => true | _ => false end.

(** [row[col]] for one of the frame's columns *)
Definition getitem (r : series) (col : string) : value :=
  default NaN (cells r !! col).

(** [row.get(col, dflt)] *)
Definition series_get (r : series) (col : string) (dflt : value) : value :=
  default dflt (cells r !! col).

(** [d[k]] on a dict *)
Definition dict_getitem (d : row) (k : string) : result value :=
  match d !! k with
  | Some v => Ok v
  | None => Raise KeyError
  end.

(** [d.get(k, dflt)] on a dict *)
Definition dict_get (d : row) (k : string) (dflt : value) : value :=
  default dflt (d !! k).

(** [l[0]] *)
Definition getitem0 {A} (l : list A) : result A :=
  match l with
  | x :: _ => Ok x
  | [] => Raise IndexError
  end.

(** [d[k] = v] on the insertion-ordered dict [attribute_values] *)
Fixpoint dict_set {V} (k : string) (v : V) (d : list (string * V)) : list (string * V) :=
  match d with
  | [] => [(k, v)]
  | (k', v') :: d' =>
      if decide (k = k') then (k, v) :: d' else (k', v') :: dict_set k v d'
  end.

(** ** Category/Tag Extractor *)

Definition extract_tags_step (single_tag_mode : bool) (tags : list string)
    (category : string) : list string :=
  let parts := PyStr.strip <$> PyStr.split ">" category in
  if single_tag_mode then
    if (2 <=? length parts)%nat then
      let tag := PyStr.strip (nth 1 parts "") in
      if PyStr.nonempty tag then tags ++ [tag] else tags
    else tags
  else
    match parts with
    | [] => tags
    | _ =>
        let tag := PyStr.strip (List.last parts "") in
        if PyStr.nonempty tag then tags ++ [tag] else tags
    end.

Definition extract_tags (category_str : value) (single_tag_mode : bool) : result value :=
  match category_str with
  | NaN => Ok EmptyList
  | Str s =>
      let tags := fold_left (extract_tags_step single_tag_mode) (PyStr.split "|" s) [] in
      Ok (Str (PyStr.join ", " (PyStr.sorted (elements (list_to_set tags : gset string)))))
  | _ => Raise AttributeError
  end.

Record category_info : Type := { category : string; subcategory : string }.

Definition extract_category_info_step (categories : list category_info)
    (path : string) : list category_info :=
  let parts := PyStr.strip <$> PyStr.split ">" path in
  if (3 <=? length parts)%nat then
    categories ++ [ {| category := PyStr.strip (nth 1 parts "");
                       subcategory := PyStr.strip (nth 2 parts "") |} ]
  else categories.

Definition extract_category_info (category_str : value) : result category_info :=
  match category_str with
  | NaN => Ok {| category := ""; subcategory := "" |}
  | Str s =>
      match fold_left extract_category_info_step (PyStr.split "|" s) [] with
      | c :: _ => Ok c
      | [] => Ok {| category := ""; subcategory := "" |}
      end
  | _ => Raise AttributeError
  end.

(** ** Attribute Catalog Builder *)

(** the stripped, non-empty pieces of a pipe-separated string *)
Definition pipe_pieces (s : string) : list string :=
  filter (λ v, PyStr.nonempty v) (PyStr.strip <$> PyStr.split "|" s).

Definition get_metafield_values_step (attr_name : string) (values : gset string)
    (r : series) : gset string :=
  let cell := getitem r attr_name in
  if isna cell then values
  else
    match cell with
    | Str s =>
        if PyStr.contains "|" s then values ∪ list_to_set (pipe_pieces s)
        else
          let val := PyStr.strip s in
          if PyStr.nonempty val then values ∪ {[ val ]} else values
    | _ =>
        let val := PyStr.strip (str cell) in
        if PyStr.nonempty val then values ∪ {[ val ]} else values
    end.

Definition get_metafield_values (children_df : DataFrame) (attr_name : string) : list string :=
  let values :=
    if negb (empty_frame children_df) && bool_decide (attr_name ∈ columns children_df)
    then fold_left (get_metafield_values_step attr_name) (iterrows children_df) ∅
    else ∅ in
  PyStr.sorted (elements values).

Record metafield_attr : Type := {
  original : string;
  formatted : string;
  field_name : string
}.

(** the attributes that become options rather than metafields *)
Definition variant_attr_names : list string := ["size"; "sizes"; "color"].

Definition meta_cols (df : DataFrame) : list string :=
  filter (λ col, PyStr.startswith "meta:attribute_pa_" col) (columns df).

Definition get_metafield_attributes_step (metafield_attrs : list metafield_attr)
    (col : string) : list metafield_attr :=
  let attr_name := PyStr.remove "meta:attribute_pa_" col in
  if bool_decide (PyStr.lower attr_name ∈ variant_attr_names) then metafield_attrs
  else
    let formatted_name := PyStr.title (PyStr.replace_char "_" " " attr_name) in
    metafield_attrs ++
      [ {| original := col;
           formatted := formatted_name;
           field_name := formatted_name +:+ " (product.metafields.custom." +:+ attr_name +:+ ")" |} ].

Definition get_metafield_attributes (df : DataFrame) : list metafield_attr :=
  fold_left get_metafield_attributes_step (meta_cols df) [].

Definition get_variant_attributes_step (df : DataFrame) (valid_attrs : list string)
    (col : string) : list string :=
  let attr_name := PyStr.remove "meta:attribute_pa_" col in
  if bool_decide (PyStr.lower attr_name ∈ variant_attr_names) then
    let children := filter (λ r, negb (isna (post_parent r))) (iterrows df) in
    if existsb (λ r, negb (isna (getitem r col))) children
    then valid_attrs ++ [attr_name]
    else valid_attrs
  else valid_attrs.

Definition get_variant_attributes (df : DataFrame) : list string :=
  PyStr.sorted (fold_left (get_variant_attributes_step df) (meta_cols df) []).

(** One child of [get_option_values]; no operation in the [try] block can
    fail on a [value], so the [except] branch has no counterpart here. *)
Definition get_option_values_step (col_name : string) (values : gset string)
    (r : series) : gset string :=
  match cells r !! col_name with
  | Some cell =>
      if isna cell then values
      else
        match cell with
        | Int z => values ∪ {[ PyStr.of_Z z ]}
        | _ => values ∪ list_to_set (pipe_pieces (str cell))
        end
  | None => values
  end.

(** the set built by [get_option_values], before it is sorted *)
Definition option_value_set (children_df : DataFrame) (option_name : string) : gset string :=
  fold_left (get_option_values_step ("meta:attribute_pa_" +:+ option_name))
            (iterrows children_df) ∅.

Definition get_option_values (children_df : DataFrame) (option_name : string) : list string :=
  PyStr.sorted (elements (option_value_set children_df option_name)).

(** ** Cascading Fallback Resolver *)

(** the dict [previous_variant_data], whose three keys never change *)
Record previous_variant_data : Type := {
  Variant_Price : value;
  Variant_Compare_At_Price : value;
  Variant_Image : value
}.

(** does some value of the combination occur in the image URL, both lowered *)
Definition url_mentions (attribute_values : list string) (img : image) : bool :=
  existsb (λ attr_val, PyStr.contains (PyStr.lower attr_val) (PyStr.lower (url img)))
          attribute_values.

Definition get_variant_image (variant_row : series) (parent_images : list image)
    (attribute_values : list string) (previous_image : value) : result value :=
  own ← (if negb (isna (images variant_row))
         then variant_images ← parse_images (images variant_row); Ok (head variant_images)
         else Ok None);
  match own with
  | Some img => Ok (Str (url img))
  | None =>
      match List.find (url_mentions attribute_values) parent_images with
      | Some img => Ok (Str (url img))
      | None => Ok (if truthy previous_image then previous_image else Str "")
      end
  end.

(** ** Variant Matrix Generator *)

(** [itertools.product] of the lists: the last list varies fastest. *)
Fixpoint product {A} (lists : list (list A)) : list (list A) :=
  match lists with
  | [] => [[]]
  | l :: rest => x ← l; (x ::.) <$> product rest
  end.

(** ** Child Row Matcher *)

(** the test of one (attribute, value) pair against one child *)
Definition cell_matches (child : series) (attr_name value : string) : bool :=
  let col_name := "meta:attribute_pa_" +:+ attr_name in
  match cells child !! col_name with
  | Some cell =>
      if isna cell then true
      else
        let child_value := str cell in
        let child_values :=
          if PyStr.contains "|" child_value
          then PyStr.strip <$> PyStr.split "|" child_value
          else [child_value] in
        bool_decide (value ∈ child_values)
  | None => true
  end.

Definition child_matches (attr_names variant_values : list string) (child : series) : bool :=
  forallb (λ '(attr_name, value), cell_matches child attr_name value)
          (zip attr_names variant_values).

Definition find_matching_child (children_df : DataFrame)
    (attr_names variant_values : list string) : option series :=
  List.find (child_matches attr_names variant_values) (iterrows children_df).

(** ** Row Assembler *)

(** the price a child contributes, or the carried one *)
Definition resolve_price (child : series) (previous : previous_variant_data) : value :=
  if negb (isna (sale_price child)) then sale_price child
  else if negb (isna (regular_price child)) then regular_price child
  else Variant_Price previous.

Definition resolve_compare_price (child : series) (previous : previous_variant_data) : value :=
  if negb (isna (regular_price child)) then regular_price child
  else Variant_Compare_At_Price previous.

(** [previous_variant_data.update({...})] from a row *)
Definition carried_from (r : row) : previous_variant_data :=
  {| Variant_Price := dict_get r "Variant Price" (Str "");
     Variant_Compare_At_Price := dict_get r "Variant Compare At Price" (Str "");
     Variant_Image := dict_get r "Variant Image" (Str "") |}.

Definition option_name_key (idx : nat) : string := "Option" +:+ PyStr.of_nat idx +:+ " Name".
Definition option_value_key (idx : nat) : string := "Option" +:+ PyStr.of_nat idx +:+ " Value".

(** the display name of an attribute: "sizes" is shown as "Size" *)
Definition display_name (attr_name : string) : string :=
  if decide (PyStr.lower attr_name = "sizes") then "Size" else attr_name.

(** The metafield loop on [base_row]. *)
Definition add_metafield (parent_row : series) (children_df : DataFrame)
    (base_row : row) (attr : metafield_attr) : row :=
  let values := get_metafield_values children_df (original attr) in
  match values with
  | _ :: _ => <[field_name attr := Str (PyStr.join (String "010" "") values)]> base_row
  | [] =>
      let parent_value := series_get parent_row (original attr) (Str "") in
      if negb (isna parent_value) then
        match parent_value with
        | Str s =>
            if PyStr.contains "|" s
            then <[field_name attr :=
                     Str (PyStr.join (String "010" "") (PyStr.sorted (pipe_pieces s)))]> base_row
            else <[field_name attr := Str s]> base_row
        | _ => <[field_name attr := Str (str parent_value)]> base_row
        end
      else <[field_name attr := Str ""]> base_row
  end.

Definition category_key : string := "Category (product.metafields.custom.category)".
Definition sub_category_key : string := "Sub Category (product.metafields.custom.sub_category)".

Definition make_base_row (parent_row : series) (children_df : DataFrame)
    (metafield_attrs : list metafield_attr) (category_info : category_info)
    : result row :=
  tags ← extract_tags (series_get parent_row "tax:product_cat" (Str "")) false;
  let base_row : row :=
    <[sub_category_key := Str (subcategory category_info)]>
    (<[category_key := Str (category category_info)]>
    (<["Tags" := tags]>
    (<["Published" := Str (if py_eq (post_status parent_row) (Str "publish")
                           then "true" else "false")]>
    (<["Body (HTML)" := if negb (isna (post_excerpt parent_row))
                        then post_excerpt parent_row else Str ""]>
    (<["Title" := post_title parent_row]>
    (<["Handle" := post_title parent_row]> ∅)))))) in
  Ok (fold_left (add_metafield parent_row children_df) metafield_attrs base_row).

(** the dict [attribute_values]: only attributes with values get a key *)
Definition collect_attribute_values_step (children_df : DataFrame)
    (attribute_values : list (string * list string)) (attr : string)
    : list (string * list string) :=
  let values := get_option_values children_df attr in
  match values with
  | _ :: _ => dict_set attr values attribute_values
  | [] => attribute_values
  end.

Definition collect_attribute_values (children_df : DataFrame)
    (variant_attrs : list string) : list (string * list string) :=
  fold_left (collect_attribute_values_step children_df) variant_attrs [].

(** The option loop of the first row, [idx] counting from 1.  [values[0]]
    is read once: a failure at either of its two uses ends the call in the
    same way. *)
Fixpoint first_row_options (idx : nat) (items : list (string * list string))
    (first_row : row) : result row :=
  match items with
  | [] => Ok first_row
  | (attr_name, values) :: items' =>
      let attr_name := display_name attr_name in
      v0 ← getitem0 values;
      let first_row :=
        if decide (PyStr.lower attr_name = "color")
        then <["Image Alt Text" := Str v0]> first_row else first_row in
      first_row_options (S idx) items'
        (<[option_value_key idx := Str v0]>
           (<[option_name_key idx := Str (PyStr.capitalize attr_name)]> first_row))
  end.

(** The option loop of a variant row. *)
Fixpoint variant_row_options (idx : nat) (pairs : list (string * string))
    (variant_row : row) : row :=
  match pairs with
  | [] => variant_row
  | (name, value) :: pairs' =>
      let name := display_name name in
      variant_row_options (S idx) pairs'
        (<[option_value_key idx := Str value]>
           (<[option_name_key idx := Str (PyStr.capitalize name)]> variant_row))
  end.

(** [img_row[f] = base_row[f]] for every metafield *)
Fixpoint copy_metafields (base_row : row) (metafield_attrs : list metafield_attr)
    (img_row : row) : result row :=
  match metafield_attrs with
  | [] => Ok img_row
  | attr :: attrs =>
      v ← dict_getitem base_row (field_name attr);
      copy_metafields base_row attrs (<[field_name attr := v]> img_row)
  end.

(** One row of the loop over the remaining parent images. *)
Definition image_row (parent_row : series) (base_row : row) (category_info : category_info)
    (metafield_attrs : list metafield_attr) (idx : nat) (img : image) : result row :=
  tags ← dict_getitem base_row "Tags";
  let img_row : row :=
    <["Tags" := tags]>
    (<["Image Position" := Int (Z.of_nat idx)]>
    (<["Image Alt Text" := Str (alt img)]>
    (<["Image Src" := Str (url img)]>
    (<["Handle" := post_title parent_row]> ∅)))) in
  img_row ← copy_metafields base_row metafield_attrs img_row;
  Ok (<[sub_category_key := Str (subcategory category_info)]>
        (<[category_key := Str (category category_info)]> img_row)).

(** the loop itself, [idx] counting from 2 *)
Fixpoint image_rows (parent_row : series) (base_row : row) (category_info : category_info)
    (metafield_attrs : list metafield_attr) (idx : nat) (imgs : list image)
    (rows : list row) : result (list row) :=
  match imgs with
  | [] => Ok rows
  | img :: imgs' =>
      img_row ← image_row parent_row base_row category_info metafield_attrs idx img;
      image_rows parent_row base_row category_info metafield_attrs (S idx) imgs'
                 (rows ++ [img_row])
  end.

(** The body of the combination loop after the primary test: match a child,
    resolve the three carried fields, update the carried state, add the
    options. *)
Definition variant_step (base_row : row) (children_df : DataFrame)
    (parent_images : list image) (attr_names : list string)
    (previous : previous_variant_data) (variant_values : list string)
    : result (row * previous_variant_data) :=
  let variant_row := base_row in
  let matching_child := find_matching_child children_df attr_names variant_values in
  variant_row ←
    match matching_child with
    | Some child =>
        let variant_row :=
          <["Variant Compare At Price" := resolve_compare_price child previous]>
            (<["Variant Price" := resolve_price child previous]> variant_row) in
        variant_image ← get_variant_image child parent_images variant_values
                                          (Variant_Image previous);
        Ok (if truthy variant_image
            then <["Variant Image" := variant_image]> variant_row
            else variant_row)
    | None =>
        Ok (<["Variant Image" := Variant_Image previous]>
              (<["Variant Compare At Price" := Variant_Compare_At_Price previous]>
                 (<["Variant Price" := Variant_Price previous]> variant_row)))
    end;
  let previous := carried_from variant_row in
  Ok (variant_row_options 1 (zip attr_names variant_values) variant_row, previous).

(** [tuple(v[0] for v in attr_values)] *)
Definition first_values (attr_values : list (list string)) : result (list string) :=
  mapM getitem0 attr_values.

(** The combination loop: the tuple of first values is skipped. *)
Fixpoint variant_loop (base_row : row) (children_df : DataFrame)
    (parent_images : list image) (attr_names : list string)
    (attr_values : list (list string)) (combinations : list (list string))
    (previous : previous_variant_data) (rows : list row) : result (list row) :=
  match combinations with
  | [] => Ok rows
  | variant_values :: rest =>
      primary ← first_values attr_values;
      if decide (variant_values = primary)
      then variant_loop base_row children_df parent_images attr_names attr_values
                        rest previous rows
      else
        stepped ← variant_step base_row children_df parent_images attr_names
                               previous variant_values;
        variant_loop base_row children_df parent_images attr_names attr_values
                     rest stepped.2 (rows ++ [stepped.1])
  end.

(** The first row, with the carried state it leaves behind. *)
Definition make_first_row (base_row : row) (children_df : DataFrame)
    (parent_images : list image) (attribute_values : list (string * list string))
    (previous : previous_variant_data) : result (row * previous_variant_data) :=
  let first_row := base_row in
  let first_row :=
    match parent_images with
    | img :: _ =>
        <["Image Position" := Int 1]>
          (<["Image Alt Text" := Str (alt img)]>
             (<["Image Src" := Str (url img)]> first_row))
    | [] => first_row
    end in
  match iterrows children_df with
  | first_variant :: _ =>
      let first_row :=
        <["Variant Compare At Price" := resolve_compare_price first_variant previous]>
          (<["Variant Price" := resolve_price first_variant previous]> first_row) in
      variant_image ← get_variant_image first_variant parent_images [] (Str "");
      let first_row :=
        if truthy variant_image
        then <["Variant Image" := variant_image]> first_row else first_row in
      let previous := carried_from first_row in
      first_row ← first_row_options 1 attribute_values first_row;
      Ok (first_row, previous)
  | [] =>
      Ok (<["Variant Compare At Price" := Variant_Compare_At_Price previous]>
            (<["Variant Price" := Variant_Price previous]> first_row),
          previous)
  end.

(** [previous_variant_data] as the parent row initialises it *)
Definition initial_previous (parent_row : series) : previous_variant_data :=
  {| Variant_Price := if negb (isna (regular_price parent_row))
                      then regular_price parent_row else Str "";
     Variant_Compare_At_Price := if negb (isna (sale_price parent_row))
                                 then sale_price parent_row else Str "";
     Variant_Image := Str "" |}.

Definition create_variant_rows (parent_row : series) (children_df : DataFrame)
    (variant_attrs : list string) (metafield_attrs : list metafield_attr)
    : result (list row) :=
  category_info ← extract_category_info (series_get parent_row "tax:product_cat" (Str ""));
  base_row ← make_base_row parent_row children_df metafield_attrs category_info;
  parent_images ← parse_images (images parent_row);
  let rows : list row := [] in
  let previous := initial_previous parent_row in
  let attribute_values := collect_attribute_values children_df variant_attrs in
  first ← make_first_row base_row children_df parent_images attribute_values previous;
  let rows := rows ++ [first.1] in
  let previous := first.2 in
  rows ← image_rows parent_row base_row category_info metafield_attrs 2
                    (tail parent_images) rows;
  match attribute_values, iterrows children_df with
  | _ :: _, _ :: _ =>
      let attr_names := attribute_values.*1 in
      let attr_values := attribute_values.*2 in
      variant_loop base_row children_df parent_images attr_names attr_values
                   (product attr_values) previous rows
  | _, _ => Ok rows
  end.

(** ** The batch driver *)

(** [df[df['post_parent'] == parent_row['ID']]] *)
Definition children_of (df : DataFrame) (parent_row : series) : DataFrame :=
  {| columns := columns df;
     iterrows := filter (λ r, py_eq (post_parent r) (ID parent_row)) (iterrows df) |}.

(** [df[pd.isna(df['post_parent'])]] *)
Definition parent_products (df : DataFrame) : list series :=
  filter (λ r, isna (post_parent r)) (iterrows df).

(** the loop of [convert_wordpress_to_shopify] over the parent products *)
Fixpoint convert_loop (df : DataFrame) (variant_attrs : list string)
    (metafield_attrs : list metafield_attr) (parent_products : list series)
    (output_rows : list row) : result (list row) :=
  match parent_products with
  | [] => Ok output_rows
  | parent_row :: rest =>
      let children := children_of df parent_row in
      product_rows ← create_variant_rows parent_row children variant_attrs metafield_attrs;
      convert_loop df variant_attrs metafield_attrs rest (output_rows ++ product_rows)
  end.

Definition convert_wordpress_to_shopify (df : DataFrame) : result (list row) :=
  let parent_products := parent_products df in
  let variant_attrs := get_variant_attributes df in
  let metafield_attrs := get_metafield_attributes df in
  convert_loop df variant_attrs metafield_attrs parent_products [].

(** ** Conversion statistics *)

(** The frame [pd.DataFrame(output_rows)] has a column for every key of
    some row; a row without the key holds NaN there. *)
Definition frame_has (output_df : list row) (col : string) : bool :=
  existsb (λ r, bool_decide (is_Some (r !! col))) output_df.

Definition frame_cell (r : row) (col : string) : value := default NaN (r !! col).

(** [output_df[col]] *)
Definition frame_column (output_df : list row) (col : string) : result (list value) :=
  if frame_has output_df col then Ok ((λ r, frame_cell r col) <$> output_df)
  else Raise KeyError.

(** [Series.unique()]: the values in the order of their first occurrence,
    NaN counting as one value *)
Fixpoint unique (l : list value) : list value :=
  match l with
  | [] => []
  | v :: l' => v :: filter (λ w, w ≠ v) (unique l')
  end.

(** one entry of [product_breakdown] *)
Record breakdown : Type := {
  Handle : value;
  Title : value;
  Variants : nat;
  Images : nat;
  Total_Rows : nat;
  Tags : value;
  Category : value;
  Sub_Category : value
}.

(** [product_rows[product_rows[col].notna()].shape[0]]; the rows of one
    product keep the columns of the whole frame *)
Definition count_notna (output_df product_rows : list row) (col : string) : result nat :=
  if frame_has output_df col
  then Ok (length (filter (λ r, negb (isna (frame_cell r col))) product_rows))
  else Raise KeyError.

(** [product_rows[col].iloc[0] if col in product_rows else dflt] *)
Definition first_cell (output_df product_rows : list row) (col : string) (dflt : value)
    : result value :=
  if frame_has output_df col then
    match product_rows with
    | r :: _ => Ok (frame_cell r col)
    | [] => Raise IndexError
    end
  else Ok dflt.

(** the rows of [output_df[output_df['Handle'] == handle]] *)
Definition rows_of_handle (output_df : list row) (handle : value) : list row :=
  filter (λ r, py_eq (frame_cell r "Handle") handle) output_df.

(** the body of the loop over the handles *)
Definition product_breakdown (output_df : list row) (handle : value) : result breakdown :=
  let product_rows := rows_of_handle output_df handle in
  variant_rows ← count_notna output_df product_rows "Variant Price";
  image_rows ← count_notna output_df product_rows "Image Position";
  title ← first_cell output_df product_rows "Title" (Str "N/A");
  tags ← first_cell output_df product_rows "Tags" (Str "");
  category ← first_cell output_df product_rows category_key (Str "");
  sub_category ← first_cell output_df product_rows sub_category_key (Str "");
  Ok {| Handle := handle; Title := title; Variants := variant_rows; Images := image_rows;
        Total_Rows := length product_rows; Tags := tags; Category := category;
        Sub_Category := sub_category |}.

(** [show_statistics]: the number shown as Total Unique Products and the
    table of the detailed breakdown. *)
Definition show_statistics (output_df : list row) : result (nat * list breakdown) :=
  handles ← frame_column output_df "Handle";
  let unique_products := length (unique handles) in
  entries ← mapM (product_breakdown output_df) (unique handles);
  Ok (unique_products, entries).

(** What [main] leaves on the page once the frame is read and the button
    pressed.  The conversion and the statistics run inside one [try] block:
    the converted table is shown when both succeed, and the message of the
    caught exception otherwise. *)
Inductive page : Type :=
  | Converted (output_df : list row)
  | ErrorShown (e : exn).

Definition main (df : DataFrame) : page :=
  match convert_wordpress_to_shopify df with
  | Ok output_df =>
      match show_statistics output_df with
      | Ok _ => Converted output_df
      | Raise e => ErrorShown e
      end
  | Raise e => ErrorShown e
  end.

(** ** Notions used by the statements *)

(** a cell that [parse_images] and the tag extractors accept *)
Definition text_cell (v : value) : Prop :=
  match v with NaN | Str _ => True | _ => False end.

Global Instance text_cell_dec v : Decision (text_cell v).
Proof. destruct v; simpl; apply _. Defined.

(** The combinations for which the body of the combination loop runs. *)
Definition non_primary_combinations (attr_values : list (list string)) : list (list string) :=
  filter (λ variant_values, Ok variant_values ≠ first_values attr_values)
         (product attr_values).

(** the combinations that get a variant row of their own *)
Definition variant_combinations (children_df : DataFrame) (variant_attrs : list string)
    : list (list string) :=
  match collect_attribute_values children_df variant_attrs, iterrows children_df with
  | (_ :: _) as attribute_values, _ :: _ => non_primary_combinations attribute_values.*2
  | _, _ => []
  end.

(** [resolved step previous combinations rows]: running [step] along the
    combinations, threading the carried state from [previous], yields
    [rows], one per combination. *)
Inductive resolved
    (step : previous_variant_data → list string → result (row * previous_variant_data))
    : previous_variant_data → list (list string) → list row → Prop :=
  | resolved_nil previous :
      resolved step previous [] []
  | resolved_cons previous variant_values variant_row previous' rest rows :
      step previous variant_values = Ok (variant_row, previous') →
      resolved step previous' rest rows →
      resolved step previous (variant_values :: rest) (variant_row :: rows).

(** a metafield descriptor as [get_metafield_attributes] builds it *)
Definition metafield_attr_wf (attr : metafield_attr) : Prop :=
  ∃ attr_name, field_name attr =
    formatted attr +:+ " (product.metafields.custom." +:+ attr_name +:+ ")".

(** the last character of a string *)
Fixpoint last_char (s : string) : option ascii :=
  match s with
  | EmptyString => None
  | String c EmptyString => Some c
  | String _ s' => last_char s'
  end.

(** a column name that no metafield can have *)
Definition plain_key (k : string) : Prop := last_char k ≠ Some ")"%char.

(** a column name that is no option column *)
Definition not_option_key (k : string) : Prop := String.prefix "Option" k = false.

(** the fixed columns of the base row and of an image row *)
Definition base_keys : list string :=
  ["Handle"; "Title"; "Body (HTML)"; "Published"; "Tags"].
Definition image_keys : list string :=
  ["Handle"; "Image Src"; "Image Alt Text"; "Image Position"; "Tags"].



(** the variant attributes of a group and the sizes of their value sets *)
Definition variant_attributes (children_df : DataFrame) (variant_attrs : list string)
    : list string :=
  (collect_attribute_values children_df variant_attrs).*1.

Definition value_set_sizes (children_df : DataFrame) (variant_attrs : list string)
    : list nat :=
  (λ attr, size (option_value_set children_df attr))
    <$> variant_attributes children_df variant_attrs.

(** ** The parser and the matcher as the specification words them *)

Record image_entry : Type := {
  entry_url : string;
  entry_alt : string;
  entry_position : nat
}.

(** one surviving segment, at 0-based rank [i] *)
Definition spec_image_entry (i : nat) (segment : string) : image_entry :=
  let pieces := PyStr.split "!" segment in
  {| entry_url := PyStr.strip (hd "" pieces);
     entry_alt :=
       match List.find (λ piece, PyStr.startswith "alt :" (PyStr.strip piece)) (tl pieces) with
       | Some piece => PyStr.strip (PyStr.remove "alt :" piece)
       | None => ""
       end;
     entry_position := S i |}.

(** split on the bar, trim, drop the empty segments, number from 1 *)
Definition spec_parse_images (s : string) : list image_entry :=
  imap spec_image_entry
       (filter (λ segment, segment ≠ "") (PyStr.strip <$> PyStr.split "|" s)).

(** what the loop body of [parse_images] appends for a stripped segment *)
Definition image_of_segment (img : string) : image :=
  {| url := PyStr.strip (hd "" (PyStr.split "!" img));
     alt := alt_text_of (tl (PyStr.split "!" img)) |}.

(** the entries of [parse_images] with the position the row assembler gives them *)
Definition positioned (imgs : list image) : list image_entry :=
  imap (λ i img, {| entry_url := url img; entry_alt := alt img; entry_position := S i |}) imgs.

(** a present, non-empty cell contains the value if the value is the whole
    trimmed cell or one of its trimmed pieces *)
Definition spec_cell_matches (child : series) (attr_name value : string) : bool :=
  match cells child !! ("meta:attribute_pa_" +:+ attr_name) with
  | Some cell =>
      if isna cell || negb (PyStr.nonempty (str cell)) then true
      else bool_decide (value = PyStr.strip (str cell)) ||
           bool_decide (value ∈ PyStr.strip <$> PyStr.split "|" (str cell))
  | None => true
  end.

Definition spec_find_matching_child (children_df : DataFrame)
    (attr_names variant_values : list string) : option series :=
  List.find (λ child, forallb (λ '(attr_name, value), spec_cell_matches child attr_name value)
                              (zip attr_names variant_values))
            (iterrows children_df).

(** ** Sample frames *)

Module Sample.

Definition record (id : Z) (parent image_str regular sale : value)
    (attributes : gmap string value) : series :=
  {| ID := Int id; post_parent := parent; post_title := Str "Tee";
     post_excerpt := NaN; post_status := Str "publish"; images := image_str;
     regular_price := regular; sale_price := sale; cells := attributes |}.

(** A tee in two colours and two sizes; only the first child is priced. *)
Definition tee : series :=
  record 1 NaN (Str "http://x/a.jpg!alt :front|http://x/red.jpg") (Str "50") NaN
    {[ "tax:product_cat" := Str "All > Shoes > Running|All > Shoes > Trail";
       "meta:attribute_pa_color" := NaN;
       "meta:attribute_pa_size" := NaN;
       "meta:attribute_pa_material" := Str "cotton|wool" ]}.

Definition tee_blue : series :=
  record 2 (Int 1) NaN (Str "19.99") NaN
    {[ "tax:product_cat" := NaN;
       "meta:attribute_pa_color" := Str "Blue";
       "meta:attribute_pa_size" := Str "M|S";
       "meta:attribute_pa_material" := NaN ]}.

Definition tee_red : series :=
  record 3 (Int 1) NaN NaN NaN
    {[ "tax:product_cat" := NaN;
       "meta:attribute_pa_color" := Str "Red";
       "meta:attribute_pa_size" := Str "S";
       "meta:attribute_pa_material" := NaN ]}.

Definition tee_columns : list string :=
  ["tax:product_cat"; "meta:attribute_pa_color"; "meta:attribute_pa_size";
   "meta:attribute_pa_material"].

Definition tee_frame : DataFrame :=
  {| columns := tee_columns; iterrows := [tee; tee_blue; tee_red] |}.

Definition tee_children : DataFrame := children_of tee_frame tee.

(** A product without children: two images, a price of its own. *)
Definition poster : series :=
  record 7 NaN (Str "http://x/p1.jpg|http://x/p2.jpg") (Str "10") NaN ∅.

(** The same without images. *)
Definition plain_poster : series := record 8 NaN NaN (Str "10") NaN ∅.

Definition no_children : DataFrame := {| columns := []; iterrows := [] |}.

(** A frame whose image column holds attachment numbers: the first product
    has none, the second has one. *)
Definition numbered_frame : DataFrame :=
  {| columns := [];
     iterrows := [ record 1 NaN NaN (Str "10") NaN ∅;
                   record 2 NaN (Int 5) (Str "12") NaN ∅ ] |}.

(** Two colour columns that differ in case only. *)
Definition two_colours : DataFrame :=
  {| columns := ["meta:attribute_pa_Color"; "meta:attribute_pa_color"];
     iterrows :=
       [ record 2 (Int 1) NaN (Str "5") NaN
           {[ "meta:attribute_pa_Color" := Str "Azure";
              "meta:attribute_pa_color" := Str "Blue" ]} ] |}.

Definition framed : series :=
  record 1 NaN (Str "http://x/a.jpg!alt :front") NaN NaN ∅.

(** A child whose own image segment has an empty URL piece. *)
Definition blue_with_image : series :=
  record 2 (Int 1) (Str "http://x/blue.jpg") (Str "5") NaN
    {[ "meta:attribute_pa_color" := Str "Blue" ]}.



(** The same group with a red child that has no image of its own. *)
Definition red_plain : series :=
  record 3 (Int 1) NaN (Str "6") NaN
    {[ "meta:attribute_pa_color" := Str "Red" ]}.

Definition sound_image : DataFrame :=
  {| columns := ["meta:attribute_pa_color"];
     iterrows := [blue_with_image; red_plain] |}.

(** A child whose colour cell ends in a blank. *)
Definition blue_child : series :=
  record 2 (Int 1) NaN (Str "10") NaN {[ "meta:attribute_pa_color" := Str "Blue" ]}.

Definition red_child_padded : series :=
  record 3 (Int 1) NaN (Str "20") NaN {[ "meta:attribute_pa_color" := Str "Red " ]}.

Definition padded : DataFrame :=
  {| columns := ["meta:attribute_pa_color"];
     iterrows := [blue_child; red_child_padded] |}.

End Sample.


(** ** Further notions used by the statements *)

(** does the character occur in the string *)
Fixpoint has_char (c : ascii) (s : string) : bool :=
  match s with
  | EmptyString => false
  | String a s' => bool_decide (a = c) || has_char c s'
  end.

(** a string without a blank at either end *)
Definition trimmed (s : string) : Prop := PyStr.strip s = s.

(** a string that is empty or starts with a character that is no blank *)
Definition starts_clean (s : string) : Prop :=
  match s with
  | EmptyString => True
  | String c _ => PyStr.isspace c = false
  end.

(** a URL or alt text as the parser delivers it *)
Definition clean_field (s : string) : Prop :=
  trimmed s ∧ has_char "|" s = false ∧ has_char "!" s = false.

(** the values one cell contributes to an option value set *)
Definition option_cell_values (cell : value) : list string :=
  match cell with
  | NaN => []
  | Int z => [PyStr.of_Z z]
  | _ => pipe_pieces (str cell)
  end.

(** a string without any blank *)
Fixpoint no_blank (s : string) : bool :=
  match s with
  | EmptyString => true
  | String c s' => negb (PyStr.isspace c) && no_blank s'
  end.

(** a column that the first row and the variant rows take over from the
    base row: no image, variant or option column *)
Definition carried_key (k : string) : Prop :=
  (k ∉ ["Image Src"; "Image Alt Text"; "Image Position";
        "Variant Price"; "Variant Compare At Price"; "Variant Image"]) ∧
  ∀ idx, option_name_key idx ≠ k ∧ option_value_key idx ≠ k.

(** ** Further sample frames *)

Module Shelf.

(** A mug without children: two images, a taxonomy path, and an attribute
    of its own that is named category. *)
Definition mug : series :=
  {| ID := Int 1; post_parent := NaN; post_title := Str "Mug"; post_excerpt := NaN;
     post_status := Str "publish"; images := Str "http://x/m1.jpg|http://x/m2.jpg";
     regular_price := Str "8"; sale_price := NaN;
     cells := {[ "tax:product_cat" := Str "All > Kitchen > Mugs";
                 "meta:attribute_pa_category" := Str "Gift" ]} |}.

Definition mug_frame : DataFrame :=
  {| columns := ["tax:product_cat"; "meta:attribute_pa_category"]; iterrows := [mug] |}.

End Shelf.

(** a carried state whose two prices are no NaN *)
Definition priced (previous : previous_variant_data) : Prop :=
  isna (Variant_Price previous) = false ∧
  isna (Variant_Compare_At_Price previous) = false.

(** a row whose price columns, where present, are no NaN *)
Definition row_priced (r : row) : Prop :=
  ∀ v, r !! "Variant Price" = Some v ∨ r !! "Variant Compare At Price" = Some v →
       isna v = false.

(** the columns Option1 Value .. Option<n> Value and Option1 Name ..
    Option<n> Name of a row *)
Definition option_values (n : nat) (r : row) : list (option value) :=
  (λ idx, r !! option_value_key idx) <$> seq 1 n.

Definition option_names (n : nat) (r : row) : list (option value) :=
  (λ idx, r !! option_name_key idx) <$> seq 1 n.

(** the tag that one category path stands for: its second level in single
    tag mode, its last level otherwise *)
Definition path_tag (single_tag_mode : bool) (path : string) : string :=
  let levels := PyStr.split ">" path in
  if single_tag_mode then PyStr.strip (nth 1 levels "")
  else PyStr.strip (List.last levels "").

Module Counter.

(** A poster without images and without children, alone in its frame. *)
Definition plain_frame : DataFrame :=
  {| columns := []; iterrows := [Sample.plain_poster] |}.

(** The rows of a conversion, reduced to the columns that the statistics
    read: a product of two rows and a product of one. *)
Definition converted : list row :=
  [ {[ "Handle" := Str "Tee"; "Variant Price" := Str "5"; "Image Position" := Int 1 ]};
    {[ "Handle" := Str "Tee"; "Image Position" := Int 2 ]};
    {[ "Handle" := Str "Mug"; "Variant Price" := Str "8" ]} ].

End Counter.

Module Untitled.

(** A product with an image and a product whose title is missing. *)
Definition titled : series := Sample.poster.

Definition untitled : series :=
  {| ID := Int 9; post_parent := NaN; post_title := NaN; post_excerpt := NaN;
     post_status := Str "publish"; images := NaN;
     regular_price := Str "3"; sale_price := NaN; cells := ∅ |}.

Definition frame : DataFrame := {| columns := []; iterrows := [titled; untitled] |}.

(** The poster alone. *)
Definition poster_frame : DataFrame := {| columns := []; iterrows := [titled] |}.

End Untitled.

(** * Properties *)

#[local] Set Warnings "-clear-no-such-hyp".

(** ** The result monad *)

Lemma bind_Ok {A B} (m : result A) (k : A → result B) (b : B) :
  m ≫= k = Ok b ↔ ∃ a, m = Ok a ∧ k a = Ok b.
Proof.
  destruct m as [a|e]; simpl; split.
  - eauto.
  - by intros (a' & [= ->] & ?).
  - done.
  - by intros (a' & ? & ?).
Qed.

Ltac inv_result :=
  repeat match goal with
  | H : _ ≫= _ = Ok _ |- _ => apply bind_Ok in H as (? & ? & H)
  | H : Ok _ = Ok _ |- _ => injection H as H
  | H : Raise _ = Ok _ |- _ => discriminate H
  end.

(** ** The cartesian product *)

Section product.
Context {A : Type} `{EqDecision A}.
Implicit Types (l : list A) (ls : list (list A)).

Lemma product_cons l ls :
  product (l :: ls) = l ≫= λ x, (x ::.) <$> product ls.
Proof. done. Qed.

Lemma length_product ls : length (product ls) = foldr Nat.mul 1 (length <$> ls).
Proof.
  induction ls as [|l ls IH]; [done|].
  rewrite product_cons, fmap_cons. cbn [foldr]. rewrite <-IH. clear IH.
  induction l as [|x l IHl]; [done|].
  rewrite bind_cons, length_app, length_fmap, IHl. simpl. lia.
Qed.

Lemma elem_of_product ls t :
  t ∈ product ls ↔ Forall2 (λ x l, x ∈ l) t ls.
Proof.
  revert t. induction ls as [|l ls IH]; intros t.
  - simpl. rewrite list_elem_of_singleton. split.
    + intros ->. constructor.
    + by inversion 1.
  - rewrite product_cons, list_elem_of_bind. split.
    + intros (x & Ht & Hx). apply list_elem_of_fmap in Ht as (t' & -> & Ht').
      constructor; [done|]. by apply IH.
    + inversion 1 as [|x ? t' ? Hx Ht']; simplify_eq.
      exists x. split; [|done]. apply list_elem_of_fmap. exists t'.
      split; [done|]. by apply IH.
Qed.

Lemma NoDup_product ls : Forall NoDup ls → NoDup (product ls).
Proof.
  induction 1 as [|l ls Hl _ IH]; [apply NoDup_singleton|].
  rewrite product_cons. apply NoDup_bind.
  - intros x1 x2 t _ _ (t1 & -> & _)%list_elem_of_fmap (t2 & [= -> _] & _)%list_elem_of_fmap.
    done.
  - intros x _. by apply (NoDup_fmap_2 _).
  - done.
Qed.

(** dropping one element of a duplicate-free list *)
Lemma length_filter_ne (t : list A) (ts : list (list A)) :
  NoDup ts → t ∈ ts → length (filter (λ u, u ≠ t) ts) = length ts - 1.
Proof.
  induction 1 as [|u ts Hu Hts IH]; [by intros ?%not_elem_of_nil|].
  intros [->|Ht]%elem_of_cons.
  - rewrite filter_cons_False by (by intros ?).
    assert (filter (λ v, v ≠ u) ts = ts) as ->; [|simpl; lia].
    clear IH Hts. induction ts as [|v ts IH]; [done|].
    rewrite not_elem_of_cons in Hu. destruct Hu as [? ?].
    rewrite filter_cons_True by done. f_equal. auto.
  - assert (u ≠ t) by (intros ->; done).
    rewrite filter_cons_True by done. simpl. rewrite IH by done.
    assert (0 < length ts) by (destruct ts; [by apply not_elem_of_nil in Ht|simpl; lia]).
    lia.
Qed.
End product.

(** ** Sorting and the option value sets *)

Lemma sorted_Permutation l : PyStr.sorted l ≡ₚ l.
Proof. apply merge_sort_Permutation. Qed.

Lemma sorted_head_least v vs l : PyStr.sorted l = v :: vs → Forall (String.le v) vs.
Proof.
  intros Hl. pose proof (StronglySorted_merge_sort String.le l) as Hs.
  unfold PyStr.sorted in Hl. rewrite Hl in Hs. by inversion Hs.
Qed.

Lemma get_option_values_NoDup children_df a : NoDup (get_option_values children_df a).
Proof.
  unfold get_option_values. rewrite sorted_Permutation. apply NoDup_elements.
Qed.

Lemma get_option_values_length children_df a :
  length (get_option_values children_df a) = size (option_value_set children_df a).
Proof. unfold get_option_values. by rewrite sorted_Permutation. Qed.

Lemma elem_of_get_option_values children_df a v :
  v ∈ get_option_values children_df a ↔ v ∈ option_value_set children_df a.
Proof. unfold get_option_values. by rewrite sorted_Permutation, elem_of_elements. Qed.

Lemma of_Z_nonempty z : PyStr.of_Z z ≠ "".
Proof.
  unfold PyStr.of_Z. destruct (Z.to_int z) as [d|d]; simpl; [|done].
  destruct d; done.
Qed.

Lemma elem_of_pipe_pieces v s : v ∈ pipe_pieces s → v ≠ "".
Proof.
  unfold pipe_pieces. intros [Hv _]%list_elem_of_filter. by destruct v.
Qed.

Lemma option_value_set_nonempty_strings children_df a v :
  v ∈ option_value_set children_df a → v ≠ "".
Proof.
  unfold option_value_set.
  generalize ("meta:attribute_pa_" +:+ a) as col.
  intros col. cut (∀ rs (X : gset string), (∀ x, x ∈ X → x ≠ "") →
    v ∈ fold_left (get_option_values_step col) rs X → v ≠ "").
  { intros H. apply H. set_solver. }
  induction rs as [|r rs IH]; intros X HX; simpl; [by auto|].
  apply IH. intros x. unfold get_option_values_step.
  destruct (cells r !! col) as [cell|]; [|by auto].
  destruct cell; simpl; rewrite ?elem_of_union, ?elem_of_singleton, ?elem_of_list_to_set;
    intros; destruct_or?; subst; eauto using of_Z_nonempty, elem_of_pipe_pieces.
Qed.

(** ** The dict [attribute_values] *)

Lemma elem_of_dict_set {V} k (v : V) d kv :
  kv ∈ dict_set k v d → kv = (k, v) ∨ kv ∈ d.
Proof.
  induction d as [|[k' v'] d IH]; simpl.
  - rewrite list_elem_of_singleton. auto.
  - destruct (decide (k = k')) as [->|]; rewrite !elem_of_cons; intros [?|?]; auto.
    destruct IH as [?|?]; auto.
Qed.

Lemma dict_set_keys {V} k (v : V) d :
  (dict_set k v d).*1 = if decide (k ∈ d.*1) then d.*1 else d.*1 ++ [k].
Proof.
  induction d as [|[k' v'] d IH]; csimpl; [done|].
  destruct (decide (k = k')) as [->|]; csimpl.
  - rewrite decide_True; [done|]. apply elem_of_cons. by left.
  - rewrite IH. destruct (decide (k ∈ d.*1)).
    + rewrite decide_True; [done|]. apply elem_of_cons. by right.
    + rewrite decide_False; [done|]. rewrite elem_of_cons. by intros [?|?].
Qed.

Section collect.
Context (children_df : DataFrame).
Implicit Types (d : list (string * list string)).

Lemma collect_step_elem d b a vs :
  (a, vs) ∈ collect_attribute_values_step children_df d b →
  (a, vs) ∈ d ∨ (a = b ∧ vs = get_option_values children_df a ∧ vs ≠ []).
Proof.
  unfold collect_attribute_values_step.
  destruct (get_option_values children_df b) as [|w ws] eqn:Hb; [by left|].
  intros [[= -> ->]|?]%elem_of_dict_set; [|by left].
  right. by rewrite Hb.
Qed.

Lemma collect_step_keys d b :
  (collect_attribute_values_step children_df d b).*1 =
    if decide (get_option_values children_df b ≠ [] ∧ b ∉ d.*1)
    then d.*1 ++ [b] else d.*1.
Proof.
  unfold collect_attribute_values_step.
  destruct (get_option_values children_df b) as [|w ws] eqn:Hb.
  - by rewrite decide_False by (by intros [? _]).
  - rewrite dict_set_keys. destruct (decide (b ∈ d.*1)).
    + by rewrite decide_False by (by intros [_ ?]).
    + by rewrite decide_True.
Qed.

Lemma collect_fold_elem variant_attrs d a vs :
  (a, vs) ∈ fold_left (collect_attribute_values_step children_df) variant_attrs d →
  (a, vs) ∈ d ∨
  (a ∈ variant_attrs ∧ vs = get_option_values children_df a ∧ vs ≠ []).
Proof.
  revert d. induction variant_attrs as [|b bs IH]; intros d; simpl; [by left|].
  intros [[?|(-> & ? & ?)]%collect_step_elem|(? & ? & ?)]%IH.
  - by left.
  - right. split; [apply elem_of_cons; by left|done].
  - right. split; [apply elem_of_cons; by right|done].
Qed.

Lemma collect_attribute_values_elem variant_attrs a vs :
  (a, vs) ∈ collect_attribute_values children_df variant_attrs →
  a ∈ variant_attrs ∧ vs = get_option_values children_df a ∧ vs ≠ [].
Proof.
  intros [?%not_elem_of_nil|?]%collect_fold_elem; done.
Qed.

Lemma collect_fold_keys variant_attrs d :
  NoDup d.*1 →
  NoDup (fold_left (collect_attribute_values_step children_df) variant_attrs d).*1 ∧
  ∀ a, a ∈ (fold_left (collect_attribute_values_step children_df) variant_attrs d).*1 ↔
       a ∈ d.*1 ∨ (a ∈ variant_attrs ∧ get_option_values children_df a ≠ []).
Proof.
  revert d. induction variant_attrs as [|b bs IH]; intros d Hd; simpl.
  { split; [done|]. intros a. rewrite elem_of_nil. tauto. }
  destruct (IH (collect_attribute_values_step children_df d b)) as [Hnd Hk].
  { rewrite collect_step_keys. case_decide as Hc; [|done].
    apply NoDup_app. split_and!; [done| |apply NoDup_singleton].
    intros x ? ->%list_elem_of_singleton. by destruct Hc. }
  split; [done|]. intros a. rewrite Hk, collect_step_keys, elem_of_cons.
  case_decide as Hc.
  - rewrite elem_of_app, list_elem_of_singleton. split.
    + intros [[?| ->]|[? ?]]; [by left|right; split; [by left|by destruct Hc]|].
      right. split; [by right|done].
    + intros [?|[[->|?] ?]]; [left; by left|left; by right|by right].
  - split.
    + intros [?|[? ?]]; [by left|]. right. split; [by right|done].
    + intros [?|[[->|?] ?]]; [by left| |by right].
      left. destruct (decide (b ∈ d.*1)); [done|]. by destruct Hc.
Qed.

Lemma collect_attribute_values_keys variant_attrs :
  NoDup (collect_attribute_values children_df variant_attrs).*1 ∧
  ∀ a, a ∈ (collect_attribute_values children_df variant_attrs).*1 ↔
       a ∈ variant_attrs ∧ get_option_values children_df a ≠ [].
Proof.
  destruct (collect_fold_keys variant_attrs []) as [? Hk]; [constructor|].
  split; [done|]. intros a. unfold collect_attribute_values. rewrite Hk.
  simpl. rewrite elem_of_nil. tauto.
Qed.

Lemma collect_attribute_values_Forall variant_attrs :
  Forall (λ vs, NoDup vs ∧ vs ≠ [] ∧ Forall (λ v, v ≠ "") vs)
         (collect_attribute_values children_df variant_attrs).*2.
Proof.
  apply Forall_forall. intros vs ([a vs'] & -> & Hin)%list_elem_of_fmap. simpl.
  apply collect_attribute_values_elem in Hin as (_ & -> & ?).
  split_and!; [apply get_option_values_NoDup|done|].
  apply Forall_forall. intros v ?%elem_of_get_option_values.
  by eapply option_value_set_nonempty_strings.
Qed.
End collect.

(** ** The combination loop *)

Lemma first_values_cons vs vss :
  first_values (vs :: vss) =
    v ← getitem0 vs; primary ← first_values vss; Ok (v :: primary).
Proof. done. Qed.

Lemma first_values_Ok attr_values :
  Forall (λ vs, vs ≠ []) attr_values →
  ∃ primary, first_values attr_values = Ok primary ∧
             Forall2 (λ v vs, head vs = Some v) primary attr_values.
Proof.
  unfold first_values. induction 1 as [|vs vss Hvs _ (primary & IH & Hp)]; simpl.
  - by exists [].
  - destruct vs as [|v vs]; [done|]. simpl. rewrite IH. simpl.
    exists (v :: primary). split; [done|]. by constructor.
Qed.

Lemma first_values_elem_of_product attr_values primary :
  first_values attr_values = Ok primary → primary ∈ product attr_values.
Proof.
  revert primary. induction attr_values as [|vs vss IH]; intros primary.
  - intros [= <-]. by apply list_elem_of_singleton.
  - rewrite first_values_cons. destruct vs as [|v vs]; [done|].
    cbn [getitem0 mbind result_bind]. intros H. inv_result. subst primary.
    apply elem_of_product.
    constructor; [apply elem_of_cons; by left|]. apply elem_of_product. auto.
Qed.

Lemma length_non_primary_combinations attr_values :
  Forall (λ vs, NoDup vs ∧ vs ≠ []) attr_values →
  length (non_primary_combinations attr_values) =
    foldr Nat.mul 1 (length <$> attr_values) - 1.
Proof.
  intros Hall. unfold non_primary_combinations.
  destruct (first_values_Ok attr_values) as (primary & Hp & _).
  { eapply Forall_impl; [done|]. by intros ? [??]. }
  rewrite Hp, <-length_product.
  rewrite <-(length_filter_ne primary).
  - f_equal. apply list_filter_iff. intros t. split; [intros ? ->; done|congruence].
  - apply NoDup_product. eapply Forall_impl; [done|]. by intros ? [??].
  - by apply first_values_elem_of_product.
Qed.

Section variant_loop.
Context (base_row : row) (children_df : DataFrame) (parent_images : list image)
        (attr_names : list string) (attr_values : list (list string)).

Local Abbreviation step :=
  (variant_step base_row children_df parent_images attr_names).
Local Abbreviation loop :=
  (variant_loop base_row children_df parent_images attr_names attr_values).

Lemma variant_loop_resolved combinations previous rows out :
  Forall (λ vs, vs ≠ []) attr_values →
  loop combinations previous rows = Ok out ↔
  ∃ variant_rows,
    out = rows ++ variant_rows ∧
    resolved step previous
      (filter (λ t, Ok t ≠ first_values attr_values) combinations) variant_rows.
Proof.
  intros Hne.
  destruct (first_values_Ok _ Hne) as (primary & Hp & _).
  revert previous rows out.
  induction combinations as [|t ts IH]; intros previous rows out; simpl.
  - split.
    + intros [= <-]. exists []. rewrite app_nil_r. split; [done|constructor].
    + intros (vrs & -> & Hr). inversion Hr. by rewrite app_nil_r.
  - rewrite Hp. simpl. rewrite filter_cons. destruct (decide (t = primary)) as [->|Ht].
    + rewrite decide_False by (intros ?; done). rewrite Hp in IH. apply IH.
    + rewrite decide_True by congruence. rewrite Hp in IH. split.
      * intros H. destruct (variant_step _ _ _ _ _ _) as [[r p']|] eqn:Hs; [|done].
        simpl in H. apply IH in H as (vrs & -> & Hr).
        exists (r :: vrs). split; [by rewrite <-app_assoc|].
        econstructor; [apply Hs|done].
      * intros (vrs & -> & Hr). inversion Hr as [|? ? r p' ? vrs' Hs Hr']; simplify_eq.
        rewrite Hs. simpl. apply IH. exists vrs'.
        split; [by rewrite <-app_assoc|done].
Qed.
End variant_loop.

(** ** Column names *)

Lemma last_char_app s t : t ≠ "" → last_char (s +:+ t) = last_char t.
Proof.
  intros Ht. induction s as [|c s IH]; [done|].
  change (String c s +:+ t) with (String c (s +:+ t)). simpl. rewrite IH.
  destruct (s +:+ t) eqn:Hst; [|done].
  destruct s, t; done.
Qed.

Lemma app_nonempty_r s t : t ≠ "" → s +:+ t ≠ "".
Proof. intros Ht. destruct s; [done|]. discriminate. Qed.

Lemma metafield_attr_wf_last attr :
  metafield_attr_wf attr → last_char (field_name attr) = Some ")"%char.
Proof.
  intros [a ->]. by rewrite !last_char_app by auto using app_nonempty_r.
Qed.

Lemma option_name_key_last idx : last_char (option_name_key idx) = Some "e"%char.
Proof.
  unfold option_name_key. by rewrite !last_char_app by auto using app_nonempty_r.
Qed.

Lemma option_value_key_last idx : last_char (option_value_key idx) = Some "e"%char.
Proof.
  unfold option_value_key. by rewrite !last_char_app by auto using app_nonempty_r.
Qed.

Lemma get_metafield_attributes_wf df :
  Forall metafield_attr_wf (get_metafield_attributes df).
Proof.
  unfold get_metafield_attributes.
  cut (∀ cols acc, Forall metafield_attr_wf acc →
         Forall metafield_attr_wf (fold_left get_metafield_attributes_step cols acc)).
  { intros H. apply H. constructor. }
  induction cols as [|col cols IH]; intros acc Hacc; simpl; [done|].
  apply IH. unfold get_metafield_attributes_step. case_bool_decide; [done|].
  apply Forall_app. split; [done|]. constructor; [|done]. by eexists.
Qed.

Lemma plain_key_ne attr k : metafield_attr_wf attr → plain_key k → field_name attr ≠ k.
Proof. intros Hwf Hk <-. by apply Hk, metafield_attr_wf_last. Qed.

(** ** The base row *)

Section base_row.
Context (parent_row : series) (children_df : DataFrame).

Lemma add_metafield_lookup base_row attr k :
  field_name attr ≠ k →
  add_metafield parent_row children_df base_row attr !! k = base_row !! k.
Proof.
  intros Hk. unfold add_metafield.
  repeat case_match; by rewrite lookup_insert_ne.
Qed.

Lemma add_metafield_lookup_self base_row attr :
  is_Some (add_metafield parent_row children_df base_row attr !! field_name attr).
Proof.
  unfold add_metafield. repeat case_match; rewrite lookup_insert_eq; eauto.
Qed.

Lemma add_metafield_is_Some base_row attr k :
  is_Some (base_row !! k) →
  is_Some (add_metafield parent_row children_df base_row attr !! k).
Proof.
  intros Hk. destruct (decide (field_name attr = k)) as [<-|].
  - apply add_metafield_lookup_self.
  - by rewrite add_metafield_lookup.
Qed.

Lemma fold_add_metafield_lookup metafield_attrs base_row k :
  Forall (λ attr, field_name attr ≠ k) metafield_attrs →
  fold_left (add_metafield parent_row children_df) metafield_attrs base_row !! k
  = base_row !! k.
Proof.
  intros H. revert base_row. induction H as [|attr attrs ? _ IH]; intros base_row; simpl.
  - done.
  - by rewrite IH, add_metafield_lookup.
Qed.

Lemma fold_add_metafield_is_Some metafield_attrs base_row k :
  is_Some (base_row !! k) ∨ k ∈ field_name <$> metafield_attrs →
  is_Some (fold_left (add_metafield parent_row children_df) metafield_attrs base_row !! k).
Proof.
  revert base_row. induction metafield_attrs as [|attr attrs IH]; intros base_row; csimpl.
  - intros [?|?%elem_of_nil]; done.
  - rewrite elem_of_cons. intros [?|[->|?]]; apply IH; auto.
    + left. by apply add_metafield_is_Some.
    + left. apply add_metafield_lookup_self.
Qed.

Lemma make_base_row_lookup metafield_attrs category_info base_row k :
  make_base_row parent_row children_df metafield_attrs category_info = Ok base_row →
  Forall metafield_attr_wf metafield_attrs →
  plain_key k → k ∉ base_keys → base_row !! k = None.
Proof.
  unfold make_base_row. intros H Hwf Hk Hbase. inv_result. subst base_row.
  rewrite fold_add_metafield_lookup.
  - unfold base_keys in Hbase. rewrite !not_elem_of_cons in Hbase.
    destruct Hbase as (? & ? & ? & ? & ? & _).
    rewrite !lookup_insert_ne; [done|try done..].
    + intros <-. by apply Hk.
    + intros <-. by apply Hk.
  - eapply Forall_impl; [done|]. intros attr ?. by apply plain_key_ne.
Qed.

Lemma make_base_row_is_Some metafield_attrs category_info base_row k :
  make_base_row parent_row children_df metafield_attrs category_info = Ok base_row →
  k = "Tags" ∨ k ∈ field_name <$> metafield_attrs → is_Some (base_row !! k).
Proof.
  unfold make_base_row. intros H Hk. inv_result. subst base_row.
  apply fold_add_metafield_is_Some. destruct Hk as [->|?]; [left|by right].
  rewrite !lookup_insert_ne by done. rewrite lookup_insert_eq. eauto.
Qed.

Lemma make_base_row_total metafield_attrs :
  text_cell (series_get parent_row "tax:product_cat" (Str "")) →
  ∃ category_info base_row,
    extract_category_info (series_get parent_row "tax:product_cat" (Str ""))
      = Ok category_info ∧
    make_base_row parent_row children_df metafield_attrs category_info = Ok base_row.
Proof.
  unfold make_base_row. intros Ht.
  destruct (series_get _ _ _) as [|s| |]; try done; simpl.
  - eauto.
  - destruct (fold_left extract_category_info_step _ _); simpl; eauto.
Qed.
End base_row.

(** ** Option columns *)

Lemma option_name_key_prefix idx : String.prefix "Option" (option_name_key idx) = true.
Proof. unfold option_name_key. by destruct (PyStr.of_nat idx +:+ " Name"). Qed.

Lemma option_value_key_prefix idx : String.prefix "Option" (option_value_key idx) = true.
Proof. unfold option_value_key. by destruct (PyStr.of_nat idx +:+ " Value"). Qed.

Lemma not_option_key_ne k idx :
  not_option_key k → option_name_key idx ≠ k ∧ option_value_key idx ≠ k.
Proof.
  unfold not_option_key. intros Hk.
  split; intros <-; [rewrite option_name_key_prefix in Hk|rewrite option_value_key_prefix in Hk];
    done.
Qed.

Lemma variant_row_options_lookup idx pairs variant_row k :
  not_option_key k → variant_row_options idx pairs variant_row !! k = variant_row !! k.
Proof.
  intros Hk. revert idx variant_row.
  induction pairs as [|[name value] pairs IH]; intros idx variant_row; simpl; [done|].
  destruct (not_option_key_ne k idx Hk). by rewrite IH, !lookup_insert_ne.
Qed.

Lemma display_name_color a :
  PyStr.lower (display_name a) = "color" ↔ PyStr.lower a = "color".
Proof.
  unfold display_name. case_decide as Ha; [|done].
  rewrite Ha. split; intros; done.
Qed.

Lemma first_row_options_lookup idx items first_row first_row' k :
  first_row_options idx items first_row = Ok first_row' →
  not_option_key k → k ≠ "Image Alt Text" → first_row' !! k = first_row !! k.
Proof.
  intros H Hk Halt. revert idx first_row H.
  induction items as [|[a vs] items IH]; intros idx first_row; simpl.
  - by intros [= ->].
  - intros H. inv_result. apply IH in H as ->.
    destruct (not_option_key_ne k idx Hk).
    rewrite !lookup_insert_ne by done. case_decide; [|done]. by rewrite lookup_insert_ne.
Qed.

Lemma first_row_options_total idx items first_row :
  Forall (λ vs, vs ≠ []) items.*2 →
  ∃ first_row', first_row_options idx items first_row = Ok first_row'.
Proof.
  intros H. revert idx first_row.
  induction items as [|[a vs] items IH]; intros idx first_row; simpl; [by eauto|].
  apply Forall_cons in H as [Hvs H]. destruct vs as [|v vs]; [done|]. simpl. by apply IH.
Qed.

(** With no colour attribute the alt text is left alone. *)
Lemma first_row_options_alt_kept idx items first_row first_row' :
  first_row_options idx items first_row = Ok first_row' →
  Forall (λ a, PyStr.lower a ≠ "color") items.*1 →
  first_row' !! "Image Alt Text" = first_row !! "Image Alt Text".
Proof.
  intros H Hc. revert idx first_row H.
  induction items as [|[a vs] items IH]; intros idx first_row; simpl.
  - by intros [= ->].
  - apply Forall_cons in Hc as [Ha Hc]. intros H. inv_result. apply IH in H as ->; [|done].
    destruct (not_option_key_ne "Image Alt Text" idx eq_refl).
    rewrite !lookup_insert_ne by done.
    rewrite decide_False; [done|]. by rewrite display_name_color.
Qed.

(** The last colour attribute decides the alt text. *)
Lemma first_row_options_alt idx before a v vs after first_row first_row' :
  first_row_options idx (before ++ (a, v :: vs) :: after) first_row = Ok first_row' →
  PyStr.lower a = "color" →
  Forall (λ b, PyStr.lower b ≠ "color") after.*1 →
  first_row' !! "Image Alt Text" = Some (Str v).
Proof.
  intros H Ha Hafter. revert idx first_row H.
  induction before as [|[b ws] before IH]; intros idx first_row; simpl.
  - intros H. rewrite decide_True in H by (by apply display_name_color).
    eapply first_row_options_alt_kept in H as ->; [|done].
    destruct (not_option_key_ne "Image Alt Text" idx eq_refl).
    rewrite !lookup_insert_ne by done. by rewrite lookup_insert_eq.
  - intros H. inv_result. by eapply IH.
Qed.

(** ** Image rows *)

Section image_rows.
Context (parent_row : series) (base_row : row) (category_info : category_info)
        (metafield_attrs : list metafield_attr).

Lemma copy_metafields_lookup attrs img_row img_row' k :
  copy_metafields base_row attrs img_row = Ok img_row' →
  Forall (λ attr, field_name attr ≠ k) attrs →
  img_row' !! k = img_row !! k.
Proof.
  intros Hc Hk. revert img_row Hc.
  induction Hk as [|attr attrs Hne _ IH]; intros img_row; simpl.
  - by intros [= ->].
  - intros Hc. inv_result. apply IH in Hc as ->. by rewrite lookup_insert_ne.
Qed.

Lemma copy_metafields_total attrs img_row :
  Forall (λ attr, is_Some (base_row !! field_name attr)) attrs →
  ∃ img_row', copy_metafields base_row attrs img_row = Ok img_row'.
Proof.
  intros H. revert img_row.
  induction H as [|attr attrs [v Hv] _ IH]; intros img_row; simpl; [by eauto|].
  unfold dict_getitem. rewrite Hv. simpl. apply IH.
Qed.

Lemma image_row_lookup idx img r :
  image_row parent_row base_row category_info metafield_attrs idx img = Ok r →
  Forall metafield_attr_wf metafield_attrs →
  r !! "Image Src" = Some (Str (url img)) ∧
  r !! "Image Alt Text" = Some (Str (alt img)) ∧
  r !! "Image Position" = Some (Int (Z.of_nat idx)) ∧
  ∀ k, plain_key k → k ∉ image_keys → r !! k = None.
Proof.
  unfold image_row. intros H Hwf. inv_result. subst r.
  assert (∀ k, plain_key k → Forall (λ attr, field_name attr ≠ k) metafield_attrs) as Hne.
  { intros k Hk. eapply Forall_impl; [done|]. intros attr ?. by apply plain_key_ne. }
  assert (∀ k, plain_key k → category_key ≠ k ∧ sub_category_key ≠ k) as Hcat.
  { intros k Hk. split; intros <-; by apply Hk. }
  split_and!.
  - rewrite !lookup_insert_ne by done.
    erewrite copy_metafields_lookup; [|done|by apply Hne]. by simplify_map_eq.
  - rewrite !lookup_insert_ne by done.
    erewrite copy_metafields_lookup; [|done|by apply Hne]. by simplify_map_eq.
  - rewrite !lookup_insert_ne by done.
    erewrite copy_metafields_lookup; [|done|by apply Hne]. by simplify_map_eq.
  - intros k Hk Hki. destruct (Hcat k Hk).
    rewrite !lookup_insert_ne by done.
    erewrite copy_metafields_lookup; [|done|by apply Hne].
    unfold image_keys in Hki. rewrite !not_elem_of_cons in Hki.
    destruct Hki as (? & ? & ? & ? & ? & _). by rewrite !lookup_insert_ne.
Qed.

Lemma image_row_total idx img :
  is_Some (base_row !! "Tags") →
  Forall (λ attr, is_Some (base_row !! field_name attr)) metafield_attrs →
  ∃ r, image_row parent_row base_row category_info metafield_attrs idx img = Ok r.
Proof.
  intros [tags Ht] Hall. unfold image_row, dict_getitem. rewrite Ht. simpl.
  edestruct copy_metafields_total as [r' ->]; [done|]. simpl. eauto.
Qed.

Lemma image_rows_inv idx imgs rows out :
  image_rows parent_row base_row category_info metafield_attrs idx imgs rows = Ok out →
  ∃ irs, out = rows ++ irs ∧ length irs = length imgs ∧
    ∀ i img, imgs !! i = Some img →
      ∃ r, irs !! i = Some r ∧
           image_row parent_row base_row category_info metafield_attrs (idx + i) img = Ok r.
Proof.
  revert idx rows out. induction imgs as [|img imgs IH]; intros idx rows out; simpl.
  - intros [= <-]. exists []. rewrite app_nil_r. split_and!; [done..|].
    intros i img. by rewrite lookup_nil.
  - intros H. inv_result. apply IH in H as (irs & -> & Hlen & Hirs).
    exists (x :: irs). split_and!; [by rewrite <-app_assoc|simpl; lia|].
    intros [|i] img'; simpl.
    + intros [= <-]. exists x. by rewrite Nat.add_0_r.
    + intros Hi. apply Hirs in Hi as (r & ? & Hr). exists r. split; [done|].
      by replace (idx + S i) with (S idx + i) by lia.
Qed.

Lemma image_rows_total idx imgs rows :
  is_Some (base_row !! "Tags") →
  Forall (λ attr, is_Some (base_row !! field_name attr)) metafield_attrs →
  ∃ out, image_rows parent_row base_row category_info metafield_attrs idx imgs rows = Ok out.
Proof.
  intros Ht Hall. revert idx rows.
  induction imgs as [|img imgs IH]; intros idx rows; simpl; [by eauto|].
  destruct (image_row_total idx img Ht Hall) as [r ->]. simpl. apply IH.
Qed.
End image_rows.

(** ** The variant image *)



Lemma parse_images_total v : text_cell v → ∃ imgs, parse_images v = Ok imgs.
Proof. destruct v; simpl; try done; eauto. Qed.

Section get_variant_image.
Context (variant_row : series) (parent_images : list image)
        (attribute_values : list string) (previous_image : value).

Lemma get_variant_image_total :
  text_cell (images variant_row) →
  ∃ v, get_variant_image variant_row parent_images attribute_values previous_image = Ok v.
Proof.
  unfold get_variant_image. intros Ht.
  destruct (images variant_row); try done; simpl.
  - destruct (List.find _ _); eauto.
  - destruct (head _); [eauto|]. destruct (List.find _ _); eauto.
Qed.

End get_variant_image.

(** ** One step of the combination loop *)

Section variant_step.
Context (base_row : row) (children_df : DataFrame) (parent_images : list image)
        (attr_names : list string).

Local Abbreviation step :=
  (variant_step base_row children_df parent_images attr_names).

(** the row before its option columns are added *)
Lemma variant_step_inv previous variant_values r previous' :
  step previous variant_values = Ok (r, previous') →
  ∃ variant_row,
    r = variant_row_options 1 (zip attr_names variant_values) variant_row ∧
    previous' = carried_from variant_row ∧
    match find_matching_child children_df attr_names variant_values with
    | Some child =>
        ∃ variant_image,
          get_variant_image child parent_images variant_values
                            (Variant_Image previous) = Ok variant_image ∧
          variant_row =
            let priced :=
              <["Variant Compare At Price" := resolve_compare_price child previous]>
                (<["Variant Price" := resolve_price child previous]> base_row) in
            if truthy variant_image then <["Variant Image" := variant_image]> priced
            else priced
    | None =>
        variant_row =
          <["Variant Image" := Variant_Image previous]>
            (<["Variant Compare At Price" := Variant_Compare_At_Price previous]>
               (<["Variant Price" := Variant_Price previous]> base_row))
    end.
Proof.
  unfold variant_step. intros H. inv_result. exists x.
  split_and!; [done..|].
  destruct (find_matching_child _ _ _) as [child|]; inv_result; eauto.
Qed.

Lemma variant_step_carried previous variant_values r previous' :
  step previous variant_values = Ok (r, previous') → previous' = carried_from r.
Proof.
  intros (variant_row & -> & -> & _)%variant_step_inv.
  unfold carried_from, dict_get. by rewrite !variant_row_options_lookup.
Qed.

Lemma variant_step_lookup previous variant_values r previous' k :
  step previous variant_values = Ok (r, previous') →
  not_option_key k →
  k ∉ ["Variant Price"; "Variant Compare At Price"; "Variant Image"] →
  r !! k = base_row !! k.
Proof.
  intros (variant_row & -> & _ & H)%variant_step_inv Hk Hks.
  rewrite variant_row_options_lookup by done.
  rewrite !not_elem_of_cons in Hks. destruct Hks as (? & ? & ? & _).
  destruct (find_matching_child _ _ _).
  - destruct H as (vi & _ & ->). simpl. case_match; by rewrite !lookup_insert_ne.
  - subst. by rewrite !lookup_insert_ne.
Qed.

Lemma variant_step_price previous variant_values r previous' :
  step previous variant_values = Ok (r, previous') →
  r !! "Variant Price" =
    Some match find_matching_child children_df attr_names variant_values with
         | Some child => resolve_price child previous
         | None => Variant_Price previous
         end.
Proof.
  intros (variant_row & -> & _ & H)%variant_step_inv.
  rewrite variant_row_options_lookup by done.
  destruct (find_matching_child _ _ _).
  - destruct H as (vi & _ & ->). simpl. case_match; by simplify_map_eq.
  - subst. by simplify_map_eq.
Qed.


Lemma variant_step_total previous variant_values :
  Forall (λ child, text_cell (images child)) (iterrows children_df) →
  ∃ r previous', step previous variant_values = Ok (r, previous').
Proof.
  intros Hall. unfold variant_step.
  destruct (find_matching_child _ _ _) as [child|] eqn:Hfind; simpl; [|by eauto].
  unfold find_matching_child in Hfind. apply find_some in Hfind as [Hin _].
  rewrite Forall_forall in Hall. apply list_elem_of_In, Hall in Hin.
  edestruct get_variant_image_total as [v ->]; [done|]. simpl. eauto.
Qed.

Lemma resolved_total previous combinations :
  Forall (λ child, text_cell (images child)) (iterrows children_df) →
  ∃ rows, resolved step previous combinations rows.
Proof.
  intros Hall. revert previous.
  induction combinations as [|t ts IH]; intros previous.
  - exists []. constructor.
  - destruct (variant_step_total previous t Hall) as (r & p' & Hs).
    destruct (IH p') as [rows Hr]. exists (r :: rows). by econstructor.
Qed.

Lemma resolved_length previous combinations rows :
  resolved step previous combinations rows → length rows = length combinations.
Proof. induction 1; simpl; congruence. Qed.

(** Each row comes from one step; the state of the step is the initial
    one for the first row and the one carried from the row before for the
    others. *)
Lemma resolved_lookup previous combinations rows j variant_values :
  resolved step previous combinations rows →
  combinations !! j = Some variant_values →
  ∃ r before after,
    rows !! j = Some r ∧
    step before variant_values = Ok (r, after) ∧
    match j with
    | O => before = previous
    | S j' => ∃ r', rows !! j' = Some r' ∧ before = carried_from r'
    end.
Proof.
  intros Hr. revert j. induction Hr as [|p t r p' ts rs Hs Hr IH]; intros j.
  - by rewrite lookup_nil.
  - destruct j as [|j]; simpl.
    + intros [= <-]. exists r, p, p'. eauto.
    + intros Hj. destruct (IH j Hj) as (r1 & b & a & ? & ? & Hb).
      exists r1, b, a. split_and!; [done..|].
      destruct j as [|j]; simpl.
      * subst b. exists r. split; [done|]. by eapply variant_step_carried.
      * done.
Qed.
End variant_step.

(** ** The first row *)

Section first_row.
Context (base_row : row) (children_df : DataFrame) (parent_images : list image)
        (attribute_values : list (string * list string))
        (previous : previous_variant_data).

(** the state in which the option loop of the first row starts *)
Lemma make_first_row_inv first_row previous' :
  make_first_row base_row children_df parent_images attribute_values previous
    = Ok (first_row, previous') →
  let imaged : row :=
    match parent_images with
    | img :: _ =>
        <["Image Position" := Int 1]>
          (<["Image Alt Text" := Str (alt img)]>
             (<["Image Src" := Str (url img)]> base_row))
    | [] => base_row
    end in
  match iterrows children_df with
  | first_variant :: _ =>
      ∃ variant_image,
        get_variant_image first_variant parent_images [] (Str "") = Ok variant_image ∧
        let priced :=
          <["Variant Compare At Price" := resolve_compare_price first_variant previous]>
            (<["Variant Price" := resolve_price first_variant previous]> imaged) in
        let pictured :=
          if truthy variant_image then <["Variant Image" := variant_image]> priced
          else priced in
        previous' = carried_from pictured ∧
        first_row_options 1 attribute_values pictured = Ok first_row
  | [] =>
      previous' = previous ∧
      first_row =
        <["Variant Compare At Price" := Variant_Compare_At_Price previous]>
          (<["Variant Price" := Variant_Price previous]> imaged)
  end.
Proof.
  unfold make_first_row. intros H. simpl.
  destruct (iterrows children_df) as [|first_variant ?].
  - by injection H as <- <-.
  - inv_result. destruct x0. simplify_eq/=. eauto.
Qed.


Lemma make_first_row_total :
  Forall (λ child, text_cell (images child)) (iterrows children_df) →
  Forall (λ vs, vs ≠ []) attribute_values.*2 →
  ∃ first_row previous',
    make_first_row base_row children_df parent_images attribute_values previous
      = Ok (first_row, previous').
Proof.
  intros Hall Hvs. unfold make_first_row.
  destruct (iterrows children_df) as [|first_variant ?]; [by eauto|].
  apply Forall_cons in Hall as [Ht _].
  edestruct get_variant_image_total as [v ->]; [done|]. simpl.
  edestruct first_row_options_total as [r ->]; [done|]. simpl. eauto.
Qed.
End first_row.

(** ** The row assembler as a whole *)

Section create_variant_rows.
Context (parent_row : series) (children_df : DataFrame)
        (variant_attrs : list string) (metafield_attrs : list metafield_attr).

Local Abbreviation attribute_values :=
  (collect_attribute_values children_df variant_attrs).

Lemma attribute_values_nonempty :
  Forall (λ vs, vs ≠ []) attribute_values.*2.
Proof.
  eapply Forall_impl; [apply collect_attribute_values_Forall|]. by intros ? (_ & ? & _).
Qed.

(** The rows are the first row, the rows of the further images and the
    rows of the non-primary combinations, in this order. *)
Lemma create_variant_rows_inv rows :
  create_variant_rows parent_row children_df variant_attrs metafield_attrs = Ok rows →
  ∃ category_info base_row parent_images first_row previous image_part variant_part,
    make_base_row parent_row children_df metafield_attrs category_info = Ok base_row ∧
    parse_images (images parent_row) = Ok parent_images ∧
    make_first_row base_row children_df parent_images attribute_values
                   (initial_previous parent_row) = Ok (first_row, previous) ∧
    length image_part = length parent_images - 1 ∧
    (∀ i img, parent_images !! S i = Some img →
       ∃ r, image_part !! i = Some r ∧
            image_row parent_row base_row category_info metafield_attrs (2 + i) img = Ok r) ∧
    resolved (variant_step base_row children_df parent_images attribute_values.*1)
             previous (variant_combinations children_df variant_attrs) variant_part ∧
    rows = first_row :: image_part ++ variant_part.
Proof.
  unfold create_variant_rows. intros H.
  apply bind_Ok in H as (category_info & _ & H).
  apply bind_Ok in H as (base_row & Hbase & H).
  apply bind_Ok in H as (parent_images & Hparse & H).
  apply bind_Ok in H as ([first_row previous] & Hfirst & H).
  apply bind_Ok in H as (rows' & Hrows & H).
  apply image_rows_inv in Hrows as (image_part & -> & Hlen & Himg).
  exists category_info, base_row, parent_images, first_row, previous, image_part.
  assert (length image_part = length parent_images - 1) as Hlen'.
  { rewrite Hlen. destruct parent_images; simpl; lia. }
  assert (∀ i img, parent_images !! S i = Some img → ∃ r, image_part !! i = Some r ∧
            image_row parent_row base_row category_info metafield_attrs (2 + i) img = Ok r)
    as Himg'.
  { intros i img Hi. apply Himg. by destruct parent_images. }
  unfold variant_combinations. simpl in H.
  destruct attribute_values as [|av avs] eqn:Hav.
  { injection H as <-. exists []. rewrite app_nil_r. split_and!; try done. constructor. }
  destruct (iterrows children_df) as [|child children] eqn:Hch.
  { injection H as <-. exists []. rewrite app_nil_r. split_and!; try done. constructor. }
  apply variant_loop_resolved in H as (variant_part & -> & Hr).
  - exists variant_part. split_and!; try done.
  - rewrite <-Hav. apply attribute_values_nonempty.
Qed.

Lemma create_variant_rows_total :
  text_cell (series_get parent_row "tax:product_cat" (Str "")) →
  text_cell (images parent_row) →
  Forall (λ child, text_cell (images child)) (iterrows children_df) →
  ∃ rows, create_variant_rows parent_row children_df variant_attrs metafield_attrs = Ok rows.
Proof.
  intros Htax Himg Hch. unfold create_variant_rows.
  destruct (make_base_row_total parent_row children_df metafield_attrs Htax)
    as (category_info & base_row & -> & Hbase).
  simpl. rewrite Hbase. simpl.
  destruct (parse_images_total _ Himg) as [imgs ->]. simpl.
  edestruct make_first_row_total as (first_row & previous & ->);
    [done|apply attribute_values_nonempty|]. simpl.
  edestruct image_rows_total as [out Hout]; last rewrite Hout.
  { eapply make_base_row_is_Some; [done|by left]. }
  { apply Forall_forall. intros attr Hattr.
    eapply make_base_row_is_Some; [done|]. right. by apply list_elem_of_fmap_2. }
  simpl. destruct attribute_values as [|av avs] eqn:Hav; [by eauto|].
  destruct (iterrows children_df) as [|child children] eqn:Hch'; [by eauto|].
  rewrite <-Hch' in Hch.
  edestruct (resolved_total base_row children_df imgs (av :: avs).*1 previous) as [vrs Hr];
    [done|].
  eexists. apply variant_loop_resolved; [|eauto].
  rewrite <-Hav. apply attribute_values_nonempty.
Qed.
End create_variant_rows.

(** ** The image parser against its description *)

Lemma alt_text_of_find parts :
  alt_text_of parts =
    match List.find (λ piece, PyStr.startswith "alt :" (PyStr.strip piece)) parts with
    | Some piece => PyStr.strip (PyStr.remove "alt :" piece)
    | None => ""
    end.
Proof.
  induction parts as [|part parts IH]; simpl; [done|].
  by destruct (PyStr.startswith _ _).
Qed.

(** the entry that one surviving segment contributes *)
Lemma parse_images_step_spec images segment :
  parse_images_step images segment =
    images ++ (image_of_segment <$> filter (λ x, x ≠ "") [PyStr.strip segment]).
Proof.
  unfold parse_images_step. destruct (PyStr.strip segment) as [|c s] eqn:Hs.
  - rewrite filter_cons_False by (by intros ?). by rewrite app_nil_r.
  - by rewrite filter_cons_True.
Qed.

Lemma parse_images_fold segments images :
  fold_left parse_images_step segments images =
    images ++ (image_of_segment <$> filter (λ x, x ≠ "") (PyStr.strip <$> segments)).
Proof.
  revert images. induction segments as [|segment segments IH]; intros images; csimpl.
  - by rewrite app_nil_r.
  - by rewrite IH, parse_images_step_spec, <-app_assoc, <-fmap_app, <-filter_app.
Qed.

(** C7. [parse_images] on the string of the specification yields the two
    entries it names, in order and at positions 1 and 2; and on every
    string it yields, with 1-based positions in surviving order, what the
    description says: split on the bar, trim, drop the empty segments, take
    the first bang-piece as URL and the alt text from the first later piece
    that starts with the marker (empty without one). *)
Theorem parse_images_entries :
  parse_images (Str "http://a.jpg!alt :Red|http://b.jpg")
    = Ok [ {| url := "http://a.jpg"; alt := "Red" |};
           {| url := "http://b.jpg"; alt := "" |} ] ∧
  positioned [ {| url := "http://a.jpg"; alt := "Red" |};
               {| url := "http://b.jpg"; alt := "" |} ]
    = [ {| entry_url := "http://a.jpg"; entry_alt := "Red"; entry_position := 1 |};
        {| entry_url := "http://b.jpg"; entry_alt := ""; entry_position := 2 |} ] ∧
  ∀ s, ∃ imgs, parse_images (Str s) = Ok imgs ∧ positioned imgs = spec_parse_images s.
Proof.
  split_and!; [done..|].
  intros s. eexists. split; [done|].
  rewrite parse_images_fold. simpl. unfold positioned, spec_parse_images.
  rewrite imap_fmap. apply imap_ext. intros i segment _. simpl.
  unfold spec_image_entry, image_of_segment. simpl. by rewrite alt_text_of_find.
Qed.

(** ** The number of rows *)

Lemma value_set_sizes_lengths children_df variant_attrs :
  value_set_sizes children_df variant_attrs =
    length <$> (collect_attribute_values children_df variant_attrs).*2.
Proof.
  unfold value_set_sizes, variant_attributes.
  pose proof (collect_attribute_values_elem children_df variant_attrs) as Helem.
  induction (collect_attribute_values children_df variant_attrs) as [|[a vs] d IH];
    csimpl; [done|].
  destruct (Helem a vs) as (_ & -> & _); [apply elem_of_cons; by left|].
  rewrite get_option_values_length. f_equal. apply IH.
  intros b ws Hin. apply Helem, elem_of_cons. by right.
Qed.

Lemma variant_combinations_length children_df variant_attrs :
  length (variant_combinations children_df variant_attrs) =
    match value_set_sizes children_df variant_attrs with
    | [] => 0
    | sizes => foldr Nat.mul 1 sizes - 1
    end.
Proof.
  rewrite value_set_sizes_lengths. unfold variant_combinations.
  pose proof (collect_attribute_values_Forall children_df variant_attrs) as Hall.
  destruct (collect_attribute_values children_df variant_attrs) as [|av avs] eqn:Hav; [done|].
  destruct (iterrows children_df) as [|child children] eqn:Hch.
  - exfalso. assert (av ∈ collect_attribute_values children_df variant_attrs) as Hin.
    { rewrite Hav. apply elem_of_cons. by left. }
    destruct av as [a vs]. apply collect_attribute_values_elem in Hin as (_ & -> & Hne).
    apply Hne. unfold get_option_values, option_value_set. by rewrite Hch.
  - rewrite length_non_primary_combinations; [done|].
    eapply Forall_impl; [done|]. by intros ? (? & ? & _).
Qed.

Lemma create_variant_rows_length parent_row children_df variant_attrs metafield_attrs rows :
  create_variant_rows parent_row children_df variant_attrs metafield_attrs = Ok rows →
  ∃ parent_images,
    parse_images (images parent_row) = Ok parent_images ∧
    length rows = Nat.max 1 (length parent_images)
                  + length (variant_combinations children_df variant_attrs).
Proof.
  intros (cat & base & imgs & first & prev & irs & vrs & _ & Hparse & _ & Hlen & _ & Hr & ->)
    %create_variant_rows_inv.
  exists imgs. split; [done|]. simpl. rewrite length_app, Hlen.
  apply resolved_length in Hr. rewrite Hr. lia.
Qed.

(** C1. The row assembler emits 1 + max(0, k-1) + (c1 * ... * cn - 1) rows
    for a group with k parsed parent images and variant-attribute value sets
    of sizes c1..cn, n >= 1, and 1 + max(0, k-1) rows when n = 0; and it does
    emit rows whenever the taxonomy and image cells it parses are text or
    absent. *)
Theorem create_variant_rows_count parent_row children_df variant_attrs metafield_attrs :
  (text_cell (series_get parent_row "tax:product_cat" (Str "")) →
   text_cell (images parent_row) →
   Forall (λ child, text_cell (images child)) (iterrows children_df) →
   ∃ rows, create_variant_rows parent_row children_df variant_attrs metafield_attrs = Ok rows) ∧
  ∀ rows,
    create_variant_rows parent_row children_df variant_attrs metafield_attrs = Ok rows →
    ∃ parent_images,
      parse_images (images parent_row) = Ok parent_images ∧
      let k := length parent_images in
      length rows =
        match value_set_sizes children_df variant_attrs with
        | [] => 1 + Nat.max 0 (k - 1)
        | sizes => 1 + Nat.max 0 (k - 1) + (foldr Nat.mul 1 sizes - 1)
        end.
Proof.
  split; [apply create_variant_rows_total|].
  intros rows (imgs & Hparse & Hlen)%create_variant_rows_length.
  exists imgs. split; [done|]. simpl. rewrite Hlen, variant_combinations_length.
  destruct (value_set_sizes children_df variant_attrs); simpl; lia.
Qed.

(** The variant attributes of a group are the listed attributes whose value
    set is not empty, each once; their sizes are the [c1..cn] above. *)
Lemma variant_attributes_spec children_df variant_attrs :
  NoDup (variant_attributes children_df variant_attrs) ∧
  ∀ attr, attr ∈ variant_attributes children_df variant_attrs ↔
          attr ∈ variant_attrs ∧ option_value_set children_df attr ≠ ∅.
Proof.
  destruct (collect_attribute_values_keys children_df variant_attrs) as [Hnd Hk].
  split; [done|]. intros attr. unfold variant_attributes. rewrite Hk.
  assert (get_option_values children_df attr ≠ [] ↔ option_value_set children_df attr ≠ ∅)
    as ->; [|done].
  rewrite <-(leibniz_equiv_iff (option_value_set children_df attr) ∅).
  rewrite <-size_non_empty_iff, <-get_option_values_length.
  by destruct (get_option_values children_df attr).
Qed.

Lemma create_variant_rows_count_witness :
  ∃ rows, create_variant_rows Sample.tee Sample.tee_children ["color"; "size"]
            (get_metafield_attributes Sample.tee_frame) = Ok rows ∧
          value_set_sizes Sample.tee_children ["color"; "size"] = [2; 2] ∧
          length rows = 5.
Proof.
  destruct (create_variant_rows_count Sample.tee Sample.tee_children ["color"; "size"]
              (get_metafield_attributes Sample.tee_frame)) as [Htotal Hcount].
  destruct Htotal as [rows Hrows].
  - done.
  - done.
  - repeat constructor.
  - exists rows. split; [done|].
    destruct (Hcount rows Hrows) as (imgs & Hparse & Hlen).
    assert (value_set_sizes Sample.tee_children ["color"; "size"] = [2; 2]) as Hsizes
      by (by vm_compute).
    split; [done|]. rewrite Hsizes in Hlen.
    injection Hparse as <-. exact Hlen.
Defined.

(** ** The order of the combinations *)

Lemma collect_attribute_values_children children_df variant_attrs :
  collect_attribute_values children_df variant_attrs ≠ [] → iterrows children_df ≠ [].
Proof.
  intros Hne Hch. apply Hne.
  destruct (collect_attribute_values children_df variant_attrs) as [|[a vs] d] eqn:Hav; [done|].
  assert ((a, vs) ∈ collect_attribute_values children_df variant_attrs) as Hin.
  { rewrite Hav. apply elem_of_cons. by left. }
  apply collect_attribute_values_elem in Hin as (_ & -> & Hvs).
  exfalso. apply Hvs. unfold get_option_values, option_value_set. by rewrite Hch.
Qed.

(** the rows of the non-primary combinations are those after the first row
    and the rows of the further images *)
Lemma create_variant_rows_variant_part parent_row children_df variant_attrs metafield_attrs rows :
  create_variant_rows parent_row children_df variant_attrs metafield_attrs = Ok rows →
  ∃ category_info base_row parent_images first_row previous,
    make_base_row parent_row children_df metafield_attrs category_info = Ok base_row ∧
    parse_images (images parent_row) = Ok parent_images ∧
    make_first_row base_row children_df parent_images
      (collect_attribute_values children_df variant_attrs)
      (initial_previous parent_row) = Ok (first_row, previous) ∧
    rows !! 0 = Some first_row ∧
    resolved (variant_step base_row children_df parent_images
                (variant_attributes children_df variant_attrs))
             previous (variant_combinations children_df variant_attrs)
             (drop (Nat.max 1 (length parent_images)) rows).
Proof.
  intros (cat & base & imgs & first & prev & irs & vrs & Hbase & Hparse & Hfirst & Hlen & _
          & Hr & ->)%create_variant_rows_inv.
  exists cat, base, imgs, first, prev. split_and!; [done..|].
  replace (Nat.max 1 (length imgs)) with (S (length irs)) by lia.
  simpl. by rewrite drop_app_length.
Qed.

(** C2, amended. For a product whose variant attributes are color with the
    sorted values Blue, Red and size with the sorted values M, S, the primary
    combination is (Blue, M); the generator runs through (Blue,M), (Blue,S),
    (Red,M), (Red,S), the first attribute varying slowest and the last
    fastest, skips the primary one and emits (Blue,S), (Red,M), (Red,S) in
    this order, which is also the order of the variant rows. *)
Theorem variant_matrix_order children_df variant_attrs :
  collect_attribute_values children_df variant_attrs
    = [("color", ["Blue"; "Red"]); ("size", ["M"; "S"])] →
  first_values [["Blue"; "Red"]; ["M"; "S"]] = Ok ["Blue"; "M"] ∧
  product [["Blue"; "Red"]; ["M"; "S"]]
    = [["Blue"; "M"]; ["Blue"; "S"]; ["Red"; "M"]; ["Red"; "S"]] ∧
  variant_combinations children_df variant_attrs
    = [["Blue"; "S"]; ["Red"; "M"]; ["Red"; "S"]] ∧
  ∀ parent_row metafield_attrs rows,
    create_variant_rows parent_row children_df variant_attrs metafield_attrs = Ok rows →
    ∃ parent_images,
      parse_images (images parent_row) = Ok parent_images ∧
      (λ r : row, (r !! "Option1 Value", r !! "Option2 Value"))
        <$> drop (Nat.max 1 (length parent_images)) rows
      = [ (Some (Str "Blue"), Some (Str "S"));
          (Some (Str "Red"), Some (Str "M"));
          (Some (Str "Red"), Some (Str "S")) ].
Proof.
  intros Hav.
  assert (variant_combinations children_df variant_attrs
          = [["Blue"; "S"]; ["Red"; "M"]; ["Red"; "S"]]) as Hcomb.
  { unfold variant_combinations.
    pose proof (collect_attribute_values_children children_df variant_attrs) as Hch.
    rewrite Hav in *. destruct (iterrows children_df); [by destruct Hch|]. by vm_compute. }
  split_and!; [done..|].
  intros parent_row metafield_attrs rows
    (cat & base & imgs & first & prev & _ & Hparse & _ & _ & Hr)%create_variant_rows_variant_part.
  exists imgs. split; [done|].
  unfold variant_attributes in Hr. rewrite Hcomb, Hav in Hr.
  inversion Hr as [|? ? r1 p1 ? ? Hs1 Hr1]; subst.
  inversion Hr1 as [|? ? r2 p2 ? ? Hs2 Hr2]; subst.
  inversion Hr2 as [|? ? r3 p3 ? ? Hs3 Hr3]; subst.
  inversion Hr3; subst.
  apply variant_step_inv in Hs1 as (? & -> & _ & _).
  apply variant_step_inv in Hs2 as (? & -> & _ & _).
  apply variant_step_inv in Hs3 as (? & -> & _ & _).
  csimpl. repeat f_equal; by simplify_map_eq.
Qed.

Lemma variant_matrix_order_witness :
  variant_combinations Sample.tee_children ["color"; "size"]
    = [["Blue"; "S"]; ["Red"; "M"]; ["Red"; "S"]].
Proof.
  apply (variant_matrix_order Sample.tee_children ["color"; "size"]). by vm_compute.
Defined.

(** C2 as stated fails: the primary combination of these attributes is not
    (Blue, S) and the emitted order is not (Blue,M), (Blue,S), (Red,S). *)
Lemma variant_matrix_order_counterexample :
  collect_attribute_values Sample.tee_children ["color"; "size"]
    = [("color", ["Blue"; "Red"]); ("size", ["M"; "S"])] ∧
  first_values [["Blue"; "Red"]; ["M"; "S"]] ≠ Ok ["Blue"; "S"] ∧
  variant_combinations Sample.tee_children ["color"; "size"]
    ≠ [["Blue"; "M"]; ["Blue"; "S"]; ["Red"; "S"]].
Proof. split_and!; by vm_compute. Qed.

(** ** The carried price *)



(** That carried price is the 19.99 of the blue child, not the 50 of the
    parent. *)
Example carried_price_tee :
  regular_price Sample.tee = Str "50" ∧
  match create_variant_rows Sample.tee Sample.tee_children ["color"; "size"]
          (get_metafield_attributes Sample.tee_frame) with
  | Ok rows => Ok (map (λ r : row, r !! "Variant Price") rows)
  | Raise e => Raise e
  end
  = Ok [Some (Str "19.99"); None; Some (Str "19.99"); Some (Str "19.99");
        Some (Str "19.99")].
Proof. split; [reflexivity|]. vm_compute. reflexivity. Qed.

(** ** Which columns each kind of row carries *)

Section resolved_rows.
Context (base_row : row) (children_df : DataFrame) (parent_images : list image)
        (attr_names : list string).

Local Abbreviation step :=
  (variant_step base_row children_df parent_images attr_names).

(** every row of the chain comes out of one step *)
Lemma resolved_row previous combinations rows j r :
  resolved step previous combinations rows →
  rows !! j = Some r →
  ∃ variant_values before after,
    combinations !! j = Some variant_values ∧
    step before variant_values = Ok (r, after).
Proof.
  intros Hr Hj. pose proof (resolved_length _ _ _ _ _ _ _ Hr) as Hlen.
  destruct (combinations !! j) as [variant_values|] eqn:Hc.
  - destruct (resolved_lookup _ _ _ _ _ _ _ j variant_values Hr Hc)
      as (r' & before & after & Hr' & Hstep & _).
    rewrite Hj in Hr'. injection Hr' as <-. eauto.
  - apply lookup_ge_None in Hc. apply lookup_lt_Some in Hj. lia.
Qed.


End resolved_rows.



(** C8. In every product group a secondary image row (the rows at positions
    2..k) carries no Variant Price, no Variant Compare At Price and no option
    name or value column, and a variant row (every row after them) carries no
    Image Position. *)
Theorem image_and_variant_columns df parent_row children_df variant_attrs rows :
  create_variant_rows parent_row children_df variant_attrs
                      (get_metafield_attributes df) = Ok rows →
  ∃ parent_images,
    parse_images (images parent_row) = Ok parent_images ∧
    (∀ i r, 1 ≤ i < length parent_images → rows !! i = Some r →
       r !! "Image Position" = Some (Int (Z.of_nat (S i))) ∧
       r !! "Variant Price" = None ∧
       r !! "Variant Compare At Price" = None ∧
       ∀ idx, r !! option_name_key idx = None ∧ r !! option_value_key idx = None) ∧
    (∀ i r, Nat.max 1 (length parent_images) ≤ i → rows !! i = Some r →
       is_Some (r !! "Variant Price") ∧ r !! "Image Position" = None).
Proof.
  intros (cat & base & imgs & first & prev & irs & vrs & Hbase & Hparse & _ & Hlen & Himg
          & Hr & ->)%create_variant_rows_inv.
  pose proof (get_metafield_attributes_wf df) as Hwf.
  exists imgs. split; [done|]. split.
  - intros i r [Hi1 Hik] Hrow. destruct i as [|i]; [lia|]. simpl in Hrow.
    rewrite lookup_app_l in Hrow by lia.
    destruct (lookup_lt_is_Some_2 imgs (S i) Hik) as [img Himg'].
    destruct (Himg i img Himg') as (r' & Hr' & Hrow').
    rewrite Hrow in Hr'. injection Hr' as <-.
    destruct (image_row_lookup _ _ _ _ _ _ _ Hrow' Hwf) as (_ & _ & Hpos & Hother).
    split_and!.
    + exact Hpos.
    + by apply Hother; [|set_solver].
    + by apply Hother; [|set_solver].
    + intros idx. split; apply Hother.
      * unfold plain_key. by rewrite option_name_key_last.
      * unfold image_keys. rewrite !not_elem_of_cons.
        split_and!; [..|apply not_elem_of_nil]; by apply not_option_key_ne.
      * unfold plain_key. by rewrite option_value_key_last.
      * unfold image_keys. rewrite !not_elem_of_cons.
        split_and!; [..|apply not_elem_of_nil]; by apply not_option_key_ne.
  - intros i r Hi Hrow. destruct i as [|i]; [lia|]. simpl in Hrow.
    rewrite lookup_app_r in Hrow by lia.
    destruct (resolved_row _ _ _ _ _ _ _ _ _ Hr Hrow) as (t & before & after & _ & Hstep).
    split.
    + rewrite (variant_step_price _ _ _ _ _ _ _ _ Hstep). eauto.
    + rewrite (variant_step_lookup _ _ _ _ _ _ _ _ _ Hstep); [|done|set_solver].
      by eapply make_base_row_lookup; [done..|set_solver].
Qed.

Lemma image_and_variant_columns_witness :
  ∃ rows r,
    create_variant_rows Sample.tee Sample.tee_children ["color"; "size"]
      (get_metafield_attributes Sample.tee_frame) = Ok rows ∧
    rows !! 1 = Some r ∧ r !! "Variant Price" = None.
Proof.
  destruct (create_variant_rows_total Sample.tee Sample.tee_children ["color"; "size"]
              (get_metafield_attributes Sample.tee_frame)) as [rows Hrows].
  { exact I. }
  { exact I. }
  { repeat constructor. }
  destruct (image_and_variant_columns _ _ _ _ _ Hrows) as (imgs & Hparse & Himage & _).
  vm_compute in Hparse. injection Hparse as <-.
  destruct (rows !! 1) as [r|] eqn:Hr.
  - exists rows, r. split_and!; [done..|].
    apply (Himage 1 r); [simpl; lia|done].
  - exfalso. destruct (create_variant_rows_length _ _ _ _ _ Hrows) as (imgs & Hparse & Hlen).
    vm_compute in Hparse. injection Hparse as <-.
    apply lookup_ge_None in Hr. simpl in Hlen. lia.
Defined.

(** ** A product without children *)

(** C5, amended. For a product group with zero children the assembler emits
    the primary row and one row per further parent image, and no variant
    row; the primary row carries the parent-level price fields (the empty
    string where the parent has none) and no option column.  With zero
    children and zero images the output is exactly that one row. *)
Theorem childless_rows df parent_row children_df variant_attrs rows :
  iterrows children_df = [] →
  create_variant_rows parent_row children_df variant_attrs
                      (get_metafield_attributes df) = Ok rows →
  ∃ parent_images first_row,
    parse_images (images parent_row) = Ok parent_images ∧
    length rows = 1 + Nat.max 0 (length parent_images - 1) ∧
    rows !! 0 = Some first_row ∧
    first_row !! "Variant Price"
      = Some (if isna (regular_price parent_row) then Str "" else regular_price parent_row) ∧
    first_row !! "Variant Compare At Price"
      = Some (if isna (sale_price parent_row) then Str "" else sale_price parent_row) ∧
    (∀ idx, first_row !! option_name_key idx = None ∧
            first_row !! option_value_key idx = None) ∧
    (∀ i r, 1 ≤ i → rows !! i = Some r →
       r !! "Image Position" = Some (Int (Z.of_nat (S i)))) ∧
    (parent_images = [] → rows = [first_row]).
Proof.
  intros Hch Hrows. pose proof (get_metafield_attributes_wf df) as Hwf.
  destruct (create_variant_rows_length _ _ _ _ _ Hrows) as (imgs' & Hparse' & Hlength).
  apply create_variant_rows_inv in Hrows
    as (cat & base & imgs & first & prev & irs & vrs & Hbase & Hparse & Hfirst & Hlen & Himg
        & Hr & ->).
  rewrite Hparse in Hparse'. injection Hparse' as <-.
  assert (variant_combinations children_df variant_attrs = []) as Hnone.
  { unfold variant_combinations. rewrite Hch. by destruct (collect_attribute_values _ _). }
  rewrite Hnone in Hr, Hlength. inversion Hr; subst. rewrite app_nil_r in *.
  apply make_first_row_inv in Hfirst. simpl in Hfirst. rewrite Hch in Hfirst.
  destruct Hfirst as [_ Hfirst].
  assert (∀ k, k ≠ "Variant Price" → k ≠ "Variant Compare At Price" →
               k ≠ "Image Position" → k ≠ "Image Alt Text" → k ≠ "Image Src" →
               first !! k = base !! k) as Hother.
  { intros k ? ? ? ? ?. rewrite Hfirst, !lookup_insert_ne by done.
    destruct imgs; by rewrite ?lookup_insert_ne by done. }
  exists imgs, first. split_and!.
  - done.
  - rewrite Hlength. simpl. lia.
  - done.
  - rewrite Hfirst. simplify_map_eq. simpl. by destruct (isna (regular_price parent_row)).
  - rewrite Hfirst. simplify_map_eq. simpl. by destruct (isna (sale_price parent_row)).
  - intros idx. split.
    + rewrite Hother by (by apply not_option_key_ne).
      eapply make_base_row_lookup; [done..| |].
      * unfold plain_key. by rewrite option_name_key_last.
      * unfold base_keys. rewrite !not_elem_of_cons.
        split_and!; [..|apply not_elem_of_nil]; by apply not_option_key_ne.
    + rewrite Hother by (by apply not_option_key_ne).
      eapply make_base_row_lookup; [done..| |].
      * unfold plain_key. by rewrite option_value_key_last.
      * unfold base_keys. rewrite !not_elem_of_cons.
        split_and!; [..|apply not_elem_of_nil]; by apply not_option_key_ne.
  - intros i r Hi Hrow. destruct i as [|i]; [lia|]. simpl in Hrow.
    assert (S i < length imgs) as Hik by (apply lookup_lt_Some in Hrow; lia).
    destruct (lookup_lt_is_Some_2 imgs (S i) Hik) as [img Himg'].
    destruct (Himg i img Himg') as (r' & Hr' & Hrow').
    rewrite Hrow in Hr'. injection Hr' as <-.
    by destruct (image_row_lookup _ _ _ _ _ _ _ Hrow' Hwf) as (_ & _ & Hpos & _).
  - intros ->. simpl in Hlen. by destruct irs.
Qed.

Lemma childless_rows_witness :
  ∃ rows first_row,
    create_variant_rows Sample.plain_poster Sample.no_children []
                        (get_metafield_attributes Sample.no_children) = Ok rows ∧
    rows = [first_row] ∧ first_row !! "Variant Price" = Some (Str "10").
Proof.
  destruct (create_variant_rows_total Sample.plain_poster Sample.no_children []
              (get_metafield_attributes Sample.no_children)) as [rows Hrows].
  { exact I. }
  { exact I. }
  { constructor. }
  destruct (childless_rows Sample.no_children Sample.plain_poster Sample.no_children []
              rows eq_refl Hrows)
    as (imgs & first_row & Hparse & _ & _ & Hprice & _ & _ & _ & Hone).
  vm_compute in Hparse. injection Hparse as <-.
  exists rows, first_row. split_and!; [done|by apply Hone|exact Hprice].
Defined.

(** C5 as stated fails: a childless product with two images gets two rows,
    and a childless product without images whose parent has a price gets a
    row whose price field is not empty. *)
Lemma childless_rows_counterexample :
  iterrows Sample.no_children = [] ∧
  match create_variant_rows Sample.poster Sample.no_children [] [] with
  | Ok rows => length rows
  | Raise _ => 0
  end = 2 ∧
  match create_variant_rows Sample.plain_poster Sample.no_children [] [] with
  | Ok rows => map (λ r : row, r !! "Variant Price") rows
  | Raise _ => []
  end = [Some (Str "10")].
Proof. split_and!; vm_compute; reflexivity. Qed.

(** ** The alt text of the first row *)

(** When one attribute only is named color, it is the last such attribute:
    the premises of the next theorem hold for it. *)
Lemma single_colour_is_last children_df variant_attrs a :
  a ∈ variant_attrs →
  PyStr.lower a = "color" →
  get_option_values children_df a ≠ [] →
  (∀ b, b ∈ variant_attrs → PyStr.lower b = "color" → b = a) →
  ∃ before after,
    collect_attribute_values children_df variant_attrs
      = before ++ (a, get_option_values children_df a) :: after ∧
    Forall (λ b, PyStr.lower b ≠ "color") after.*1.
Proof.
  intros Hin Ha Hvals Honly.
  destruct (collect_attribute_values_keys children_df variant_attrs) as [Hnd Hkeys].
  assert (a ∈ (collect_attribute_values children_df variant_attrs).*1) as Hkey
    by (by apply Hkeys).
  apply list_elem_of_fmap in Hkey as ([a' vs] & Heq & Hpair). simpl in Heq. subst a'.
  pose proof (collect_attribute_values_elem _ _ _ _ Hpair) as (_ & -> & _).
  apply list_elem_of_split in Hpair as (before & after & Hsplit).
  exists before, after. split; [done|].
  rewrite Hsplit, fmap_app, fmap_cons in Hnd, Hkeys. simpl in *.
  apply NoDup_app in Hnd as (_ & _ & Hnd). apply NoDup_cons in Hnd as [Hnotin _].
  apply Forall_forall. intros b Hb Hcolour.
  assert (b = a) as ->; [|done].
  apply Honly; [|done]. apply Hkeys, elem_of_app. right. apply elem_of_cons. by right.
Qed.

(** C9, amended. In a product group with a parent image and a variant
    attribute named color (in any case) whose value set is not empty, hence
    with a child, the Image Alt Text of the primary row is the first, that
    is the smallest, value of the last such attribute in attribute order
    (of the only one, when a single attribute is named color); it replaces
    the alt text parsed from the first image.  The rows of the further
    images keep their parsed alt text. *)
Theorem colour_alt_text df parent_row children_df variant_attrs rows
    img imgs before a v vs after :
  create_variant_rows parent_row children_df variant_attrs
                      (get_metafield_attributes df) = Ok rows →
  parse_images (images parent_row) = Ok (img :: imgs) →
  collect_attribute_values children_df variant_attrs = before ++ (a, v :: vs) :: after →
  PyStr.lower a = "color" →
  Forall (λ b, PyStr.lower b ≠ "color") after.*1 →
  (∃ first_row, rows !! 0 = Some first_row ∧
                first_row !! "Image Alt Text" = Some (Str v)) ∧
  a ∈ variant_attrs ∧
  get_option_values children_df a = v :: vs ∧
  Forall (String.le v) vs ∧
  ∀ i img', imgs !! i = Some img' →
    ∃ r, rows !! S i = Some r ∧ r !! "Image Alt Text" = Some (Str (alt img')).
Proof.
  intros Hrows Hparse Hav Ha Hafter. pose proof (get_metafield_attributes_wf df) as Hwf.
  apply create_variant_rows_inv in Hrows
    as (cat & base & imgs' & first & prev & irs & vrs & Hbase & Hparse' & Hfirst & Hlen & Himg
        & Hr & ->).
  rewrite Hparse in Hparse'. injection Hparse' as <-.
  assert ((a, v :: vs) ∈ collect_attribute_values children_df variant_attrs) as Hin.
  { rewrite Hav. apply elem_of_app. right. apply elem_of_cons. by left. }
  pose proof (collect_attribute_values_children children_df variant_attrs) as Hch.
  apply collect_attribute_values_elem in Hin as (Hin & Hvals & _).
  split_and!.
  - exists first. split; [done|].
    apply make_first_row_inv in Hfirst. simpl in Hfirst.
    destruct (iterrows children_df) as [|first_variant children].
    { exfalso. apply Hch; [|done]. rewrite Hav. by destruct before. }
    destruct Hfirst as (vi & _ & _ & Hopt). rewrite Hav in Hopt.
    by eapply first_row_options_alt.
  - done.
  - done.
  - eapply sorted_head_least. rewrite Hvals. reflexivity.
  - intros i img' Hi. destruct (Himg i img' Hi) as (r & Hr' & Hrow).
    exists r. split.
    + simpl. rewrite lookup_app_l; [done|]. by eapply lookup_lt_Some.
    + by destruct (image_row_lookup _ _ _ _ _ _ _ Hrow Hwf) as (_ & ? & _).
Qed.

Lemma colour_alt_text_witness :
  ∃ rows first_row,
    create_variant_rows Sample.tee Sample.tee_children ["color"; "size"]
                        (get_metafield_attributes Sample.tee_frame) = Ok rows ∧
    rows !! 0 = Some first_row ∧
    first_row !! "Image Alt Text" = Some (Str "Blue").
Proof.
  destruct (create_variant_rows_total Sample.tee Sample.tee_children ["color"; "size"]
              (get_metafield_attributes Sample.tee_frame)) as [rows Hrows].
  { exact I. }
  { exact I. }
  { repeat constructor. }
  destruct (colour_alt_text Sample.tee_frame Sample.tee Sample.tee_children
              ["color"; "size"] rows
              {| url := "http://x/a.jpg"; alt := "front" |}
              [ {| url := "http://x/red.jpg"; alt := "" |} ]
              [] "color" "Blue" ["Red"] [("size", ["M"; "S"])] Hrows)
    as ((first_row & H0 & Halt) & _).
  - vm_compute. reflexivity.
  - vm_compute. reflexivity.
  - reflexivity.
  - repeat constructor. vm_compute. discriminate.
  - exists rows, first_row. exact (conj Hrows (conj H0 Halt)).
Defined.

(** C9 as stated fails when two attributes are named color up to case: the
    attribute Color has the value set {Azure}, yet the alt text of the
    primary row is Blue, the first value of the attribute color that comes
    after it. *)
Lemma colour_alt_text_counterexample :
  "Color" ∈ ["Color"; "color"] ∧
  PyStr.lower "Color" = "color" ∧
  get_option_values Sample.two_colours "Color" = ["Azure"] ∧
  iterrows Sample.two_colours ≠ [] ∧
  parse_images (images Sample.framed) = Ok [ {| url := "http://x/a.jpg"; alt := "front" |} ] ∧
  match create_variant_rows Sample.framed Sample.two_colours ["Color"; "color"] [] with
  | Ok rows => map (λ r : row, r !! "Image Alt Text") rows
  | Raise _ => []
  end = [Some (Str "Blue")].
Proof.
  split_and!; [apply elem_of_cons; by left|..]; vm_compute; (reflexivity || discriminate).
Qed.

(** ** The carried image *)






(** ** The batch driver *)

Section convert.
Context (df : DataFrame).

Local Abbreviation assemble := (λ parent_row,
  create_variant_rows parent_row (children_of df parent_row)
                      (get_variant_attributes df) (get_metafield_attributes df)).

Lemma convert_loop_Ok parents output_rows output :
  convert_loop df (get_variant_attributes df) (get_metafield_attributes df)
               parents output_rows = Ok output ↔
  ∃ groups, Forall2 (λ parent_row rows, assemble parent_row = Ok rows) parents groups ∧
            output = output_rows ++ concat groups.
Proof.
  revert output_rows. induction parents as [|parent_row parents IH]; intros output_rows; simpl.
  - split.
    + intros [= <-]. exists []. split; [constructor|]. by rewrite app_nil_r.
    + intros (groups & Hg & ->). inversion Hg. by rewrite app_nil_r.
  - split.
    + intros H. apply bind_Ok in H as (rows & Hrows & H).
      apply IH in H as (groups & Hg & ->). exists (rows :: groups).
      split; [by constructor|]. simpl. by rewrite app_assoc.
    + intros (groups & Hg & ->). inversion Hg as [|? rows ? groups' Hrows Hg']; subst.
      rewrite Hrows. simpl. apply IH. exists groups'. split; [done|].
      simpl. by rewrite app_assoc.
Qed.

Lemma convert_loop_Raise parents output_rows parent_row e :
  parent_row ∈ parents → assemble parent_row = Raise e →
  ∃ e', convert_loop df (get_variant_attributes df) (get_metafield_attributes df)
                     parents output_rows = Raise e'.
Proof.
  intros Hin Hfail. revert output_rows.
  induction parents as [|p parents IH]; intros output_rows; [by apply elem_of_nil in Hin|].
  simpl. destruct (assemble p) as [rows|e0] eqn:Hp; simpl; [|by eauto].
  apply elem_of_cons in Hin as [->|Hin]; [congruence|]. by apply IH.
Qed.
End convert.

(** C6, amended. The conversion is all or nothing: if the assembler fails
    on one product group, the whole conversion fails with an exception, no
    row of any product group is returned and the page shows that one error;
    rows are returned only when every product group is assembled, and they
    are then the rows of the groups in the order of the parent records.  The
    page shows them when the statistics computed from them succeed as well,
    and the error of the statistics otherwise. *)
Theorem conversion_all_or_nothing df :
  (∀ parent_row e,
     parent_row ∈ parent_products df →
     create_variant_rows parent_row (children_of df parent_row)
       (get_variant_attributes df) (get_metafield_attributes df) = Raise e →
     ∃ e', convert_wordpress_to_shopify df = Raise e' ∧ main df = ErrorShown e') ∧
  (∀ output,
     convert_wordpress_to_shopify df = Ok output →
     (∃ groups,
        Forall2 (λ parent_row rows,
                   create_variant_rows parent_row (children_of df parent_row)
                     (get_variant_attributes df) (get_metafield_attributes df) = Ok rows)
                (parent_products df) groups ∧
        output = concat groups) ∧
     main df = match show_statistics output with
               | Ok _ => Converted output
               | Raise e => ErrorShown e
               end) ∧
  (∀ output,
     main df = Converted output →
     convert_wordpress_to_shopify df = Ok output ∧
     ∃ groups,
       Forall2 (λ parent_row rows,
                  create_variant_rows parent_row (children_of df parent_row)
                    (get_variant_attributes df) (get_metafield_attributes df) = Ok rows)
               (parent_products df) groups ∧
       output = concat groups).
Proof.
  assert (∀ output,
            convert_wordpress_to_shopify df = Ok output →
            ∃ groups,
              Forall2 (λ parent_row rows,
                         create_variant_rows parent_row (children_of df parent_row)
                           (get_variant_attributes df) (get_metafield_attributes df)
                         = Ok rows)
                      (parent_products df) groups ∧
              output = concat groups) as Hgroups.
  { intros output Hout. unfold convert_wordpress_to_shopify in Hout.
    by apply convert_loop_Ok in Hout as (groups & Hg & ->); eauto. }
  split_and!.
  - intros parent_row e Hin Hfail.
    destruct (convert_loop_Raise df (parent_products df) [] parent_row e Hin Hfail)
      as [e' He'].
    exists e'. unfold main, convert_wordpress_to_shopify. by rewrite He'.
  - intros output Hout. split; [by apply Hgroups|]. unfold main. by rewrite Hout.
  - intros output Hmain. unfold main in Hmain.
    destruct (convert_wordpress_to_shopify df) as [output_df|e] eqn:Hout; [|done].
    destruct (show_statistics output_df); [|done].
    injection Hmain as ->. split; [done|]. by apply Hgroups.
Qed.

Lemma numbered_frame_second_fails :
  create_variant_rows (Sample.record 2 NaN (Int 5) (Str "12") NaN ∅)
    (children_of Sample.numbered_frame (Sample.record 2 NaN (Int 5) (Str "12") NaN ∅))
    (get_variant_attributes Sample.numbered_frame)
    (get_metafield_attributes Sample.numbered_frame) = Raise AttributeError.
Proof. vm_compute. reflexivity. Qed.

Lemma conversion_all_or_nothing_witness :
  ∃ e, convert_wordpress_to_shopify Sample.numbered_frame = Raise e ∧
       main Sample.numbered_frame = ErrorShown e.
Proof.
  destruct (conversion_all_or_nothing Sample.numbered_frame) as [Hfail _].
  apply (Hfail (Sample.record 2 NaN (Int 5) (Str "12") NaN ∅) AttributeError).
  - apply elem_of_cons. right. apply elem_of_cons. left. reflexivity.
  - exact numbered_frame_second_fails.
Defined.

(** C6 as stated fails: the first product of this frame is assembled into
    one row, the second fails on its numeric image cell, and the conversion
    returns no row at all; the page shows the error only. *)
Lemma conversion_all_or_nothing_counterexample :
  match create_variant_rows (Sample.record 1 NaN NaN (Str "10") NaN ∅)
          (children_of Sample.numbered_frame (Sample.record 1 NaN NaN (Str "10") NaN ∅))
          (get_variant_attributes Sample.numbered_frame)
          (get_metafield_attributes Sample.numbered_frame) with
  | Ok rows => length rows
  | Raise _ => 0
  end = 1 ∧
  convert_wordpress_to_shopify Sample.numbered_frame = Raise AttributeError ∧
  main Sample.numbered_frame = ErrorShown AttributeError.
Proof. split_and!; vm_compute; reflexivity. Qed.

(** ** The child matcher *)

Lemma contains_cons sub c s :
  PyStr.contains sub (String c s) = String.prefix sub (String c s) || PyStr.contains sub s.
Proof. done. Qed.

Lemma split_cons sep c s :
  PyStr.split sep (String c s) =
    if decide (c = sep) then EmptyString :: PyStr.split sep s
    else match PyStr.split sep s with
         | piece :: pieces => String c piece :: pieces
         | [] => [String c EmptyString]
         end.
Proof. done. Qed.

Lemma prefix_char a c s :
  String.prefix (String a EmptyString) (String c s) = bool_decide (a = c).
Proof.
  cbn [String.prefix]. destruct (ascii_dec a c) as [->|Hne].
  - rewrite bool_decide_eq_true_2 by done. by destruct s.
  - by rewrite bool_decide_eq_false_2.
Qed.

Lemma split_without_separator s :
  PyStr.contains "|" s = false → PyStr.split "|" s = [s].
Proof.
  induction s as [|c s IH]; [done|].
  rewrite contains_cons, split_cons, prefix_char.
  intros [Hc Hs]%orb_false_elim. apply bool_decide_eq_false in Hc.
  rewrite decide_False by congruence. by rewrite IH.
Qed.

(** Where the cells at hand are trimmed and not empty and the value holds no
    bar, the matcher of the code and the matcher of the specification agree
    on a cell. *)
Lemma cell_matches_agree child attr_name value :
  (∀ cell, cells child !! ("meta:attribute_pa_" +:+ attr_name) = Some cell →
           isna cell = false →
           str cell ≠ "" ∧ PyStr.strip (str cell) = str cell) →
  PyStr.contains "|" value = false →
  cell_matches child attr_name value = spec_cell_matches child attr_name value.
Proof.
  intros Hcell Hvalue. unfold cell_matches, spec_cell_matches.
  destruct (cells child !! _) as [cell|]; [|done].
  destruct (isna cell) eqn:Hna; [done|]. simpl.
  destruct (Hcell cell eq_refl Hna) as [Hne Htrim].
  assert (PyStr.nonempty (str cell) = true) as -> by (by destruct (str cell)).
  simpl. rewrite Htrim.
  destruct (PyStr.contains "|" (str cell)) eqn:Hbar.
  - rewrite (bool_decide_eq_false_2 (value = str cell)); [done|].
    intros ->. congruence.
  - rewrite split_without_separator by done. simpl. rewrite Htrim.
    destruct (decide (value = str cell)) as [->|Hv].
    + rewrite (bool_decide_eq_true_2 (str cell = str cell)) by done.
      rewrite !bool_decide_eq_true_2; [done|apply elem_of_cons; by left].
    + rewrite (bool_decide_eq_false_2 (value = str cell)) by done.
      rewrite !bool_decide_eq_false_2; [done|].
      by intros ->%list_elem_of_singleton.
Qed.

(** C4: the code departs from the claim on a cell with a blank at an end.
    The colour cell "Red " of the second child puts Red into the value set,
    but the combination (Red) matches no child, where the matcher of the
    specification returns that child; the row of the combination then takes
    the carried price 10 and not the 20 of the child. *)
Theorem padded_cell_not_matched :
  get_option_values Sample.padded "color" = ["Blue"; "Red"] ∧
  variant_combinations Sample.padded ["color"] = [["Red"]] ∧
  find_matching_child Sample.padded ["color"] ["Red"] = None ∧
  spec_find_matching_child Sample.padded ["color"] ["Red"] = Some Sample.red_child_padded ∧
  match create_variant_rows Sample.framed Sample.padded ["color"] [] with
  | Ok rows => map (λ r : row, r !! "Variant Price") rows
  | Raise _ => []
  end = [Some (Str "10"); Some (Str "10")].
Proof. split_and!; vm_compute; reflexivity. Qed.

(** * Further properties of the converter *)


(** * Further properties *)

(** ** Splitting and trimming *)

Lemma split_not_nil sep s : PyStr.split sep s ≠ [].
Proof.
  destruct s as [|c s]; [done|]. rewrite split_cons.
  case_decide; [done|]. by destruct (PyStr.split sep s).
Qed.

Lemma split_app sep s1 s2 :
  PyStr.split sep (s1 +:+ String sep s2) = PyStr.split sep s1 ++ PyStr.split sep s2.
Proof.
  induction s1 as [|c s1 IH].
  - change ("" +:+ String sep s2) with (String sep s2).
    rewrite split_cons. by rewrite decide_True.
  - change (String c s1 +:+ String sep s2) with (String c (s1 +:+ String sep s2)).
    rewrite !split_cons, IH. case_decide; [done|].
    pose proof (split_not_nil sep s1). by destruct (PyStr.split sep s1).
Qed.

Lemma has_char_split_piece sep s piece :
  piece ∈ PyStr.split sep s → has_char sep piece = false.
Proof.
  revert piece. induction s as [|c s IH]; intros piece.
  - intros ->%list_elem_of_singleton. done.
  - rewrite split_cons. case_decide as Hc.
    + intros [->|Hin]%elem_of_cons; [done|]. by apply IH.
    + pose proof (split_not_nil sep s) as Hne.
      destruct (PyStr.split sep s) as [|p ps]; [done|].
      intros [->|Hin]%elem_of_cons.
      * simpl. rewrite bool_decide_eq_false_2 by done. apply IH, elem_of_cons. by left.
      * apply IH, elem_of_cons. by right.
Qed.

Lemma has_char_split_other sep c s piece :
  has_char c s = false → piece ∈ PyStr.split sep s → has_char c piece = false.
Proof.
  revert piece. induction s as [|a s IH]; intros piece Hs.
  - intros ->%list_elem_of_singleton. done.
  - simpl in Hs. apply orb_false_elim in Hs as [Ha Hs].
    rewrite split_cons. destruct (decide (a = sep)) as [Hc|Hc].
    + intros [->|Hin]%elem_of_cons; [done|]. by apply IH.
    + pose proof (split_not_nil sep s) as Hne.
      destruct (PyStr.split sep s) as [|p ps]; [done|].
      intros [->|Hin]%elem_of_cons.
      * simpl. rewrite Ha. apply IH; [done|]. apply elem_of_cons. by left.
      * apply IH; [done|]. apply elem_of_cons. by right.
Qed.

Lemma has_char_lstrip c s : has_char c s = false → has_char c (PyStr.lstrip s) = false.
Proof.
  induction s as [|a s IH]; [done|]. intros Hs. simpl.
  destruct (PyStr.isspace a); [|done].
  simpl in Hs. apply orb_false_elim in Hs as [_ Hs]. auto.
Qed.

Lemma has_char_rstrip c s : has_char c s = false → has_char c (PyStr.rstrip s) = false.
Proof.
  induction s as [|a s IH]; [done|]. intros Hs.
  simpl in Hs. apply orb_false_elim in Hs as [Ha Hs]. specialize (IH Hs). simpl.
  destruct (PyStr.rstrip s) as [|b r].
  - destruct (PyStr.isspace a); [done|]. simpl. by rewrite Ha.
  - change (has_char c (String a (String b r)))
      with (bool_decide (a = c) || has_char c (String b r)).
    by rewrite Ha, IH.
Qed.

Lemma has_char_strip c s : has_char c s = false → has_char c (PyStr.strip s) = false.
Proof. intros. by apply has_char_rstrip, has_char_lstrip. Qed.

Lemma has_char_remove_from c old skip s :
  has_char c s = false → has_char c (PyStr.remove_from old skip s) = false.
Proof.
  revert skip. induction s as [|a s IH]; intros skip Hs; [done|].
  simpl in Hs. apply orb_false_elim in Hs as [Ha Hs].
  destruct skip as [|k].
  - change (PyStr.remove_from old 0 (String a s))
      with (if String.prefix old (String a s)
            then PyStr.remove_from old (String.length old - 1) s
            else String a (PyStr.remove_from old 0 s)).
    destruct (String.prefix old (String a s)); [by apply IH|].
    simpl. rewrite Ha. by apply IH.
  - by apply IH.
Qed.

Lemma lstrip_starts_clean s : starts_clean (PyStr.lstrip s).
Proof.
  induction s as [|c s IH]; [done|]. simpl.
  by destruct (PyStr.isspace c) eqn:Hc.
Qed.

Lemma lstrip_clean s : starts_clean s → PyStr.lstrip s = s.
Proof. destruct s as [|c s]; [done|]. simpl. by intros ->. Qed.

Lemma rstrip_starts_clean s : starts_clean s → starts_clean (PyStr.rstrip s).
Proof.
  destruct s as [|c s]; [done|]. simpl. intros Hc.
  destruct (PyStr.rstrip s); [by rewrite Hc|done].
Qed.

Lemma rstrip_idemp s : PyStr.rstrip (PyStr.rstrip s) = PyStr.rstrip s.
Proof.
  induction s as [|c s IH]; [done|]. simpl.
  destruct (PyStr.rstrip s) as [|b r] eqn:Hr.
  - destruct (PyStr.isspace c) eqn:Hc; [done|]. simpl. by rewrite Hc.
  - change (PyStr.rstrip (String c (String b r)))
      with (match PyStr.rstrip (String b r) with
            | EmptyString => if PyStr.isspace c then EmptyString else String c EmptyString
            | r' => String c r'
            end).
    by rewrite IH.
Qed.

Lemma strip_trimmed s : trimmed (PyStr.strip s).
Proof.
  unfold trimmed, PyStr.strip.
  rewrite (lstrip_clean (PyStr.rstrip _)); [apply rstrip_idemp|].
  apply rstrip_starts_clean, lstrip_starts_clean.
Qed.


(** ** More on the image parser *)

(** X1. Image strings compose: parsing two strings joined by a bar gives
    the entries of the first followed by the entries of the second. *)
Theorem parse_images_app s1 s2 :
  ∃ imgs1 imgs2,
    parse_images (Str s1) = Ok imgs1 ∧
    parse_images (Str s2) = Ok imgs2 ∧
    parse_images (Str (s1 +:+ "|" +:+ s2)) = Ok (imgs1 ++ imgs2).
Proof.
  exists (fold_left parse_images_step (PyStr.split "|" s1) []),
         (fold_left parse_images_step (PyStr.split "|" s2) []).
  split_and!; [done..|]. unfold parse_images. f_equal.
  change ("|" +:+ s2) with (String "|" s2).
  rewrite split_app, fold_left_app.
  rewrite (parse_images_fold (PyStr.split "|" s2) (fold_left _ _ _)).
  by rewrite (parse_images_fold (PyStr.split "|" s2) []).
Qed.

Lemma hd_split_elem sep s : hd "" (PyStr.split sep s) ∈ PyStr.split sep s.
Proof.
  pose proof (split_not_nil sep s). destruct (PyStr.split sep s); [done|].
  apply elem_of_cons. by left.
Qed.

Lemma alt_text_of_clean c parts :
  Forall (λ part, has_char c part = false) parts →
  trimmed (alt_text_of parts) ∧ has_char c (alt_text_of parts) = false.
Proof.
  induction 1 as [|part parts Hpart _ IH]; simpl; [done|].
  destruct (PyStr.startswith _ _); [|done].
  split; [apply strip_trimmed|]. by apply has_char_strip, has_char_remove_from.
Qed.

(** X2. Every URL and every alt text that [parse_images] returns is trimmed
    and holds neither a bar nor a bang. *)
Theorem parse_images_clean image_str imgs :
  parse_images image_str = Ok imgs →
  Forall (λ img, clean_field (url img) ∧ clean_field (alt img)) imgs.
Proof.
  destruct image_str as [|s| |]; simpl; intros [= <-]; [constructor|].
  rewrite parse_images_fold. simpl.
  apply Forall_forall. intros img (segment & -> & Hseg)%list_elem_of_fmap.
  apply list_elem_of_filter in Hseg as [_ (piece & -> & Hpiece)%list_elem_of_fmap].
  apply has_char_split_piece in Hpiece.
  assert (has_char "|" (PyStr.strip piece) = false) as Hbar by (by apply has_char_strip).
  assert (Forall (λ part, has_char "|" part = false ∧ has_char "!" part = false)
                 (PyStr.split "!" (PyStr.strip piece))) as Hparts.
  { apply Forall_forall. intros part Hpart. split.
    - by eapply has_char_split_other.
    - by eapply has_char_split_piece. }
  unfold image_of_segment, clean_field. simpl. split.
  - rewrite Forall_forall in Hparts.
    destruct (Hparts _ (hd_split_elem "!" (PyStr.strip piece))) as [? ?].
    split_and!; [apply strip_trimmed|by apply has_char_strip..].
  - assert (Forall (λ part, has_char "|" part = false ∧ has_char "!" part = false)
                   (tl (PyStr.split "!" (PyStr.strip piece)))) as Htl.
    { destruct (PyStr.split "!" (PyStr.strip piece)); [done|]. by apply Forall_cons in Hparts as [_ ?]. }
    split_and!.
    + apply (alt_text_of_clean "|"). eapply Forall_impl; [done|]. by intros ? [? _].
    + apply (alt_text_of_clean "|"). eapply Forall_impl; [done|]. by intros ? [? _].
    + apply (alt_text_of_clean "!"). eapply Forall_impl; [done|]. by intros ? [_ ?].
Qed.

Lemma parse_images_clean_witness :
  Forall (λ img, clean_field (url img) ∧ clean_field (alt img))
         [ {| url := "http://a.jpg"; alt := "Red" |};
           {| url := "http://b.jpg"; alt := "" |} ].
Proof.
  apply (parse_images_clean (Str " http://a.jpg ! alt : Red | http://b.jpg ")).
  vm_compute. reflexivity.
Defined.


(** ** The option value sets *)

Lemma contains_has_char c s : PyStr.contains (String c EmptyString) s = has_char c s.
Proof.
  induction s as [|a s IH]; [done|].
  rewrite contains_cons, prefix_char, IH. simpl.
  f_equal. apply bool_decide_ext. split; congruence.
Qed.

Lemma no_blank_trimmed s : no_blank s = true → trimmed s.
Proof.
  intros Hs. unfold trimmed, PyStr.strip.
  assert (PyStr.lstrip s = s) as ->.
  { destruct s as [|c s]; [done|]. simpl in *.
    apply andb_true_iff in Hs as [Hc _]. by destruct (PyStr.isspace c). }
  induction s as [|c s IH]; [done|]. simpl in *.
  apply andb_true_iff in Hs as [Hc Hs]. rewrite IH by done.
  destruct s; [|done]. by destruct (PyStr.isspace c).
Qed.

Lemma uint_string_plain d :
  no_blank (NilEmpty.string_of_uint d) = true ∧
  has_char "|" (NilEmpty.string_of_uint d) = false.
Proof. induction d as [|d [??]|d [??]|d [??]|d [??]|d [??]|d [??]|d [??]|d [??]|d [??]|d [??]]; simpl; auto. Qed.

Lemma of_Z_plain z :
  no_blank (PyStr.of_Z z) = true ∧ has_char "|" (PyStr.of_Z z) = false.
Proof.
  unfold PyStr.of_Z. destruct (Z.to_int z) as [d|d]; simpl.
  - destruct d; try done; apply (uint_string_plain (_ d)).
  - destruct d; try done; apply (uint_string_plain (_ d)).
Qed.

Lemma of_Z_inj z1 z2 : PyStr.of_Z z1 = PyStr.of_Z z2 → z1 = z2.
Proof.
  unfold PyStr.of_Z. intros Heq. apply DecimalZ.to_int_inj.
  assert (∀ z, NilZero.int_of_string (NilZero.string_of_int (Z.to_int z)) = Some (Z.to_int z))
    as Hisi.
  { intros z. apply NilZero.isi.
    - destruct z; simpl; [done| |done]. intros [= H]. by apply DecimalPos.Unsigned.to_uint_nonnil in H.
    - destruct z; simpl; [done|done|]. intros [= H]. by apply DecimalPos.Unsigned.to_uint_nonnil in H. }
  pose proof (Hisi z1) as H1. rewrite Heq, Hisi in H1. by injection H1.
Qed.

Lemma elem_of_pipe_pieces_iff v s :
  v ∈ pipe_pieces s ↔ v ≠ "" ∧ v ∈ PyStr.strip <$> PyStr.split "|" s.
Proof.
  unfold pipe_pieces. rewrite list_elem_of_filter. split.
  - intros [Hv ?]. split; [by destruct v|done].
  - intros [Hv ?]. split; [by destruct v|done].
Qed.

Lemma option_cell_values_clean cell v :
  v ∈ option_cell_values cell → v ≠ "" ∧ trimmed v ∧ has_char "|" v = false.
Proof.
  assert (∀ s, v ∈ pipe_pieces s → v ≠ "" ∧ trimmed v ∧ has_char "|" v = false) as Hpieces.
  { intros s [Hv (piece & -> & Hpiece)%list_elem_of_fmap]%elem_of_pipe_pieces_iff.
    split_and!; [done|apply strip_trimmed|].
    by apply has_char_strip, (has_char_split_piece "|" s). }
  destruct cell as [|s|z|]; simpl; [by intros ?%elem_of_nil|by apply Hpieces| |by apply Hpieces].
  intros ->%list_elem_of_singleton. destruct (of_Z_plain z) as [? ?].
  split_and!; [apply of_Z_nonempty|by apply no_blank_trimmed|done].
Qed.

Lemma get_option_values_step_elem col values r v :
  v ∈ get_option_values_step col values r ↔
  v ∈ values ∨ ∃ cell, cells r !! col = Some cell ∧ v ∈ option_cell_values cell.
Proof.
  unfold get_option_values_step. destruct (cells r !! col) as [cell|]; last first.
  { split; [by left|]. by intros [?|(cell & [=] & _)]. }
  destruct cell as [|s|z|]; cbn [isna option_cell_values str].
  - split; [by left|]. intros [?|(cell & [= <-] & Hv)]; [done|]. by apply elem_of_nil in Hv.
  - rewrite elem_of_union, elem_of_list_to_set. split.
    + intros [?|?]; [by left|right; eauto].
    + intros [?|(cell & [= <-] & ?)]; auto.
  - rewrite elem_of_union, elem_of_singleton. split.
    + intros [?| ->]; [by left|]. right. eexists. split; [done|]. apply elem_of_cons. by left.
    + intros [?|(cell & [= <-] & ->%list_elem_of_singleton)]; auto.
  - rewrite elem_of_union, elem_of_list_to_set. split.
    + intros [?|?]; [by left|right; eauto].
    + intros [?|(cell & [= <-] & ?)]; auto.
Qed.

Lemma option_value_set_elem children_df a v :
  v ∈ option_value_set children_df a ↔
  ∃ child cell,
    child ∈ iterrows children_df ∧
    cells child !! ("meta:attribute_pa_" +:+ a) = Some cell ∧
    v ∈ option_cell_values cell.
Proof.
  unfold option_value_set. generalize ("meta:attribute_pa_" +:+ a). intros col.
  assert (∀ rs (X : gset string),
    v ∈ fold_left (get_option_values_step col) rs X ↔
    v ∈ X ∨ ∃ child cell, child ∈ rs ∧ cells child !! col = Some cell ∧
                           v ∈ option_cell_values cell) as Hfold.
  { induction rs as [|r rs IH]; intros X; simpl.
    - split; [by left|]. intros [?|(? & ? & ?%elem_of_nil & _)]; done.
    - rewrite IH, get_option_values_step_elem. split.
      + intros [[?|(cell & ? & ?)]|(child & cell & ? & ? & ?)]; [by left|right..].
        * exists r, cell. split_and!; [apply elem_of_cons; by left|done..].
        * exists child, cell. split_and!; [apply elem_of_cons; by right|done..].
      + intros [?|(child & cell & [->|?]%elem_of_cons & ? & ?)].
        * left. by left.
        * left. right. eauto.
        * right. eauto. }
  rewrite Hfold. split; [intros [?%elem_of_empty|?]; done|by right].
Qed.

(** X3. [get_option_values] returns, in strictly ascending order, exactly the
    values that the cells of the attribute's column contribute over the
    children: the decimal of a number, the trimmed non-empty pieces of
    anything else; each value is non-empty, trimmed and free of bars. *)
Theorem get_option_values_spec children_df a :
  StronglySorted String.le (get_option_values children_df a) ∧
  NoDup (get_option_values children_df a) ∧
  (∀ v, v ∈ get_option_values children_df a ↔
        ∃ child cell,
          child ∈ iterrows children_df ∧
          cells child !! ("meta:attribute_pa_" +:+ a) = Some cell ∧
          v ∈ option_cell_values cell) ∧
  Forall (λ v, v ≠ "" ∧ trimmed v ∧ has_char "|" v = false)
         (get_option_values children_df a).
Proof.
  split_and!.
  - apply StronglySorted_merge_sort; apply _.
  - apply get_option_values_NoDup.
  - intros v. by rewrite elem_of_get_option_values, option_value_set_elem.
  - apply Forall_forall. intros v Hv.
    apply elem_of_get_option_values, option_value_set_elem in Hv as (? & cell & _ & _ & Hv).
    by eapply option_cell_values_clean.
Qed.

(** X4. The result of [get_option_values] depends on the set of child
    records only: reordering the children or repeating one changes
    nothing. *)
Theorem get_option_values_order children1 children2 a :
  (∀ child, child ∈ iterrows children1 ↔ child ∈ iterrows children2) →
  get_option_values children1 a = get_option_values children2 a.
Proof.
  intros Hsame. unfold get_option_values. f_equal. f_equal.
  apply set_eq. intros v. rewrite !option_value_set_elem.
  split; intros (child & cell & ? & ? & ?); exists child, cell; split_and!; try done;
    by apply Hsame.
Qed.

Lemma get_option_values_order_witness :
  get_option_values {| columns := Sample.tee_columns;
                       iterrows := [Sample.tee_blue; Sample.tee_red] |} "size"
  = get_option_values {| columns := Sample.tee_columns;
                         iterrows := [Sample.tee_red; Sample.tee_blue; Sample.tee_red] |}
                      "size".
Proof.
  apply (get_option_values_order
           {| columns := Sample.tee_columns;
              iterrows := [Sample.tee_blue; Sample.tee_red] |}
           {| columns := Sample.tee_columns;
              iterrows := [Sample.tee_red; Sample.tee_blue; Sample.tee_red] |} "size").
  intros child. cbn [iterrows].
  rewrite !elem_of_cons, !elem_of_nil. tauto.
Defined.


(** ** Matching on one attribute *)

Lemma pipe_pieces_without_bar s :
  has_char "|" s = false →
  pipe_pieces s = if PyStr.nonempty (PyStr.strip s) then [PyStr.strip s] else [].
Proof.
  intros Hs. unfold pipe_pieces.
  rewrite split_without_separator by (by rewrite contains_has_char).
  csimpl. destruct (PyStr.strip s) as [|c t] eqn:Ht.
  - by rewrite filter_cons_False by (by intros ?).
  - by rewrite filter_cons_True.
Qed.

Lemma cell_matches_option_cell_values child a v cell :
  cells child !! ("meta:attribute_pa_" +:+ a) = Some cell →
  (∀ s, cell = Str s → has_char "|" s = false → trimmed s) →
  v ≠ "" →
  cell_matches child a v = true ↔ isna cell = true ∨ v ∈ option_cell_values cell.
Proof.
  intros Hcell Htrim Hv. unfold cell_matches. rewrite Hcell.
  destruct cell as [|s|z|]; cbn [isna str option_cell_values].
  - split; [by left|done].
  - rewrite contains_has_char. destruct (has_char "|" s) eqn:Hbar.
    + rewrite bool_decide_eq_true, elem_of_pipe_pieces_iff. split; [by right|].
      by intros [?|[_ ?]].
    + rewrite pipe_pieces_without_bar by done. rewrite (Htrim s eq_refl Hbar).
      rewrite bool_decide_eq_true, list_elem_of_singleton. split.
      * intros ->. right. destruct s; [done|]. apply elem_of_cons. by left.
      * intros [?|Hin]; [done|]. destruct (PyStr.nonempty s); [|by apply elem_of_nil in Hin].
        by apply list_elem_of_singleton in Hin.
  - destruct (of_Z_plain z) as [_ Hbar]. rewrite contains_has_char, Hbar.
    rewrite bool_decide_eq_true. split; [by right|]. by intros [?|?].
  - change (PyStr.contains "|" "[]") with false. change (pipe_pieces "[]") with ["[]"].
    rewrite bool_decide_eq_true. split; [by right|]. by intros [?|?].
Qed.

Lemma find_is_Some {A} (f : A → bool) l x :
  x ∈ l → f x = true → ∃ y, List.find f l = Some y.
Proof.
  induction l as [|a l IH]; [by intros ?%elem_of_nil|].
  intros [->|Hin]%elem_of_cons Hx; simpl.
  - rewrite Hx. eauto.
  - destruct (f a); eauto.
Qed.

(** X5. For a single variant attribute whose column holds text and
    integer cells, every value of its value set finds a child, provided the
    bar-free text cells of the column are trimmed: the matched child is the
    first one whose cell is absent or holds the value.  (A floating-point
    cell is outside the embedding, and outside this statement: the value
    set takes [str(int(x))] of it, the matcher compares with [str(x)].) *)
Theorem single_attribute_match children_df a v :
  v ∈ get_option_values children_df a →
  (∀ child s, child ∈ iterrows children_df →
     cells child !! ("meta:attribute_pa_" +:+ a) = Some (Str s) →
     has_char "|" s = false → trimmed s) →
  ∃ child,
    find_matching_child children_df [a] [v] = Some child ∧
    child ∈ iterrows children_df ∧
    match cells child !! ("meta:attribute_pa_" +:+ a) with
    | Some cell => isna cell = true ∨ v ∈ option_cell_values cell
    | None => True
    end.
Proof.
  intros Hv Htrim.
  apply elem_of_get_option_values in Hv.
  pose proof (option_value_set_nonempty_strings _ _ _ Hv) as Hne.
  apply option_value_set_elem in Hv as (child0 & cell0 & Hin0 & Hcell0 & Hv0).
  assert (child_matches [a] [v] child0 = true) as Hmatch0.
  { unfold child_matches. simpl. rewrite andb_true_r.
    eapply cell_matches_option_cell_values; [done| |done|by right].
    intros s ->. by eapply Htrim. }
  destruct (find_is_Some _ _ _ Hin0 Hmatch0) as [child Hfind].
  exists child. split; [done|].
  apply find_some in Hfind as [Hin Hmatch]. apply list_elem_of_In in Hin.
  split; [done|].
  destruct (cells child !! ("meta:attribute_pa_" +:+ a)) as [cell|] eqn:Hcell; [|done].
  unfold child_matches in Hmatch. simpl in Hmatch. rewrite andb_true_r in Hmatch.
  eapply cell_matches_option_cell_values; [done| |done..].
  intros s ->. by eapply Htrim.
Qed.

Lemma single_attribute_match_witness :
  ∃ child,
    find_matching_child Sample.sound_image ["color"] ["Red"] = Some child ∧
    child ∈ iterrows Sample.sound_image.
Proof.
  destruct (single_attribute_match Sample.sound_image "color" "Red") as (child & ? & ? & _).
  - vm_compute. apply elem_of_cons. right. apply elem_of_cons. by left.
  - intros child s. cbn [iterrows Sample.sound_image].
    rewrite !elem_of_cons, elem_of_nil.
    intros [->|[->|[]]] Hcell; vm_compute in Hcell; injection Hcell as <-;
      intros _; vm_compute; reflexivity.
  - by exists child.
Defined.

(** ** The two value collectors *)

Lemma get_metafield_values_step_alt col values r :
  get_metafield_values_step col values r = get_option_values_step col values r.
Proof.
  unfold get_metafield_values_step, get_option_values_step, getitem.
  destruct (cells r !! col) as [cell|]; [|done].
  destruct cell as [|s|z|]; cbn [default from_option id isna str]; [done| | |].
  - rewrite contains_has_char. destruct (has_char "|" s) eqn:Hbar; [done|].
    rewrite pipe_pieces_without_bar by done.
    destruct (PyStr.nonempty (PyStr.strip s)); set_solver.
  - destruct (of_Z_plain z) as [Hblank _].
    rewrite (no_blank_trimmed _ Hblank).
    pose proof (of_Z_nonempty z). by destruct (PyStr.of_Z z).
  - change (PyStr.strip "[]") with "[]". change (pipe_pieces "[]") with ["[]"].
    cbn [PyStr.nonempty]. set_solver.
Qed.

(** X6. On a column of the frame the two collectors agree: the metafield
    values of the column [meta:attribute_pa_<name>] are the option values
    of the attribute [<name>]. *)
Theorem collectors_agree children_df a :
  "meta:attribute_pa_" +:+ a ∈ columns children_df →
  get_metafield_values children_df ("meta:attribute_pa_" +:+ a)
  = get_option_values children_df a.
Proof.
  intros Hcol. unfold get_metafield_values, get_option_values, option_value_set.
  rewrite bool_decide_eq_true_2 by done. rewrite andb_true_r.
  f_equal. f_equal. unfold empty_frame.
  destruct (iterrows children_df) as [|r rs] eqn:Hrows; [done|]. cbn [negb].
  generalize (r :: rs) (∅ : gset string). intros l.
  induction l as [|x l IH]; intros X; simpl; [done|].
  by rewrite IH, get_metafield_values_step_alt.
Qed.

Lemma collectors_agree_witness :
  get_metafield_values Sample.tee_children "meta:attribute_pa_size"
  = get_option_values Sample.tee_children "size".
Proof.
  apply (collectors_agree Sample.tee_children "size").
  apply elem_of_cons. right. apply elem_of_cons. right. apply elem_of_cons. by left.
Defined.

(** ** Routing of the attribute columns *)

Lemma get_metafield_attributes_fold cols acc :
  original <$> fold_left get_metafield_attributes_step cols acc
  = (original <$> acc) ++
    filter (λ col, PyStr.lower (PyStr.remove "meta:attribute_pa_" col) ∉ variant_attr_names)
           cols.
Proof.
  revert acc. induction cols as [|col cols IH]; intros acc; simpl.
  - by rewrite app_nil_r.
  - rewrite IH. unfold get_metafield_attributes_step. case_bool_decide.
    + by rewrite filter_cons_False by (by intros []).
    + rewrite filter_cons_True by done. rewrite fmap_app. by rewrite <-app_assoc.
Qed.

Lemma get_variant_attributes_fold df cols acc a :
  a ∈ fold_left (get_variant_attributes_step df) cols acc ↔
  a ∈ acc ∨
  ∃ col, col ∈ cols ∧ a = PyStr.remove "meta:attribute_pa_" col ∧
         PyStr.lower a ∈ variant_attr_names ∧
         ∃ r, r ∈ iterrows df ∧ isna (post_parent r) = false ∧ isna (getitem r col) = false.
Proof.
  revert acc. induction cols as [|col cols IH]; intros acc; simpl.
  - split; [by left|]. by intros [?|(? & ?%elem_of_nil & _)].
  - rewrite IH. unfold get_variant_attributes_step.
    assert (existsb (λ r, negb (isna (getitem r col)))
              (filter (λ r, negb (isna (post_parent r))) (iterrows df)) = true ↔
            ∃ r, r ∈ iterrows df ∧ isna (post_parent r) = false ∧ isna (getitem r col) = false)
      as Hany.
    { rewrite existsb_exists. split.
      - intros (r & Hr & Hv). apply list_elem_of_In, list_elem_of_filter in Hr as [Hp Hr].
        exists r. split_and!; [done|by destruct (isna (post_parent r))|
                               by destruct (isna (getitem r col))].
      - intros (r & Hr & Hp & Hv). exists r. split; [|by rewrite Hv].
        apply list_elem_of_In, list_elem_of_filter. split; [by rewrite Hp|done]. }
    split.
    + intros [Hacc|(col' & Hin & Hrest)].
      * case_bool_decide as Hvar; [|by left].
        destruct (existsb _ _) eqn:Hex; [|by left].
        apply elem_of_app in Hacc as [?| ->%list_elem_of_singleton]; [by left|].
        right. exists col. split_and!; [apply elem_of_cons; by left|done|done|by apply Hany].
      * right. exists col'. split; [apply elem_of_cons; by right|done].
    + intros [Hacc|(col' & [->|Hin]%elem_of_cons & Ha & Hvar & Hr)].
      * left. case_bool_decide; [|done]. destruct (existsb _ _); [|done].
        apply elem_of_app. by left.
      * left. subst a. rewrite bool_decide_eq_true_2 by done.
        apply Hany in Hr as ->. apply elem_of_app. right. by apply list_elem_of_singleton.
      * right. by exists col'.
Qed.

Lemma metafield_originals df :
  original <$> get_metafield_attributes df
  = filter (λ col, PyStr.lower (PyStr.remove "meta:attribute_pa_" col) ∉ variant_attr_names)
           (meta_cols df).
Proof. unfold get_metafield_attributes. by rewrite get_metafield_attributes_fold. Qed.

(** whatever holds of the descriptor built from each column holds of all
    descriptors *)
Lemma get_metafield_attributes_Forall df (P : metafield_attr → Prop) :
  (∀ col, P {| original := col;
               formatted := PyStr.title (PyStr.replace_char "_" " "
                              (PyStr.remove "meta:attribute_pa_" col));
               field_name := PyStr.title (PyStr.replace_char "_" " "
                              (PyStr.remove "meta:attribute_pa_" col))
                 +:+ " (product.metafields.custom."
                 +:+ PyStr.remove "meta:attribute_pa_" col +:+ ")" |}) →
  Forall P (get_metafield_attributes df).
Proof.
  intros HP. unfold get_metafield_attributes.
  cut (∀ cols acc, Forall P acc →
         Forall P (fold_left get_metafield_attributes_step cols acc)).
  { intros H. apply H. constructor. }
  induction cols as [|col cols IH]; intros acc Hacc; simpl; [done|].
  apply IH. unfold get_metafield_attributes_step. case_bool_decide; [done|].
  apply Forall_app. split; [done|]. by constructor.
Qed.

(** X7. The metafield descriptors are those of the attribute columns that
    are not named size, sizes or color, in column order, and each is
    determined by its column. *)
Theorem metafield_attributes_columns df :
  original <$> get_metafield_attributes df
  = filter (λ col, PyStr.lower (PyStr.remove "meta:attribute_pa_" col) ∉ variant_attr_names)
           (meta_cols df) ∧
  Forall (λ attr,
            let attr_name := PyStr.remove "meta:attribute_pa_" (original attr) in
            formatted attr = PyStr.title (PyStr.replace_char "_" " " attr_name) ∧
            field_name attr =
              formatted attr +:+ " (product.metafields.custom." +:+ attr_name +:+ ")")
         (get_metafield_attributes df).
Proof.
  split.
  - unfold get_metafield_attributes. by rewrite get_metafield_attributes_fold.
  - apply get_metafield_attributes_Forall. intros col. simpl. by split.
Qed.

(** X8. The variant attributes are sorted; an attribute is one of them
    exactly when some attribute column gives its name, the name is size,
    sizes or color up to case, and some row with a parent has a value in
    that column.  No column yields both a variant attribute and a metafield
    descriptor. *)
Theorem get_variant_attributes_spec df :
  StronglySorted String.le (get_variant_attributes df) ∧
  (∀ a, a ∈ get_variant_attributes df ↔
        ∃ col, col ∈ columns df ∧ PyStr.startswith "meta:attribute_pa_" col = true ∧
               a = PyStr.remove "meta:attribute_pa_" col ∧
               PyStr.lower a ∈ variant_attr_names ∧
               ∃ r, r ∈ iterrows df ∧ isna (post_parent r) = false ∧
                    isna (getitem r col) = false) ∧
  ∀ attr, attr ∈ get_metafield_attributes df →
          PyStr.remove "meta:attribute_pa_" (original attr) ∉ get_variant_attributes df.
Proof.
  assert (∀ a, a ∈ get_variant_attributes df ↔
        ∃ col, col ∈ columns df ∧ PyStr.startswith "meta:attribute_pa_" col = true ∧
               a = PyStr.remove "meta:attribute_pa_" col ∧
               PyStr.lower a ∈ variant_attr_names ∧
               ∃ r, r ∈ iterrows df ∧ isna (post_parent r) = false ∧
                    isna (getitem r col) = false) as Hspec.
  { intros a. unfold get_variant_attributes. rewrite sorted_Permutation.
    rewrite get_variant_attributes_fold. unfold meta_cols. split.
    - intros [?%elem_of_nil|(col & Hcol & Hrest)]; [done|].
      apply list_elem_of_filter in Hcol as [Hp Hcol]. exists col.
      split_and!; [done|by apply Is_true_true|apply Hrest..].
    - intros (col & Hcol & Hp & Hrest). right. exists col. split; [|done].
      apply list_elem_of_filter. split; [by apply Is_true_true|done]. }
  split_and!; [apply StronglySorted_merge_sort; apply _|done|].
  intros attr Hattr Hin. apply Hspec in Hin as (col & _ & _ & Hname & Hvar & _).
  assert (original attr ∈ original <$> get_metafield_attributes df) as Horig
    by (by apply list_elem_of_fmap_2).
  rewrite metafield_originals in Horig.
  apply list_elem_of_filter in Horig as [Hnot _]. apply Hnot. by rewrite Hname.
Qed.

(** ** Columns shared by the rows of a product *)

Lemma carried_key_plain k :
  not_option_key k →
  k ∉ ["Image Src"; "Image Alt Text"; "Image Position";
       "Variant Price"; "Variant Compare At Price"; "Variant Image"] →
  carried_key k.
Proof. intros Hk Hks. split; [done|]. intros idx. by apply not_option_key_ne. Qed.

Lemma carried_key_field attr : metafield_attr_wf attr → carried_key (field_name attr).
Proof.
  intros Hwf. pose proof (metafield_attr_wf_last attr Hwf) as Hlast. split.
  - rewrite !not_elem_of_cons.
    split_and!; [..|apply not_elem_of_nil]; intros Heq; by rewrite Heq in Hlast.
  - intros idx. split; intros Heq; rewrite <-Heq in Hlast.
    + by rewrite option_name_key_last in Hlast.
    + by rewrite option_value_key_last in Hlast.
Qed.

Lemma variant_row_options_carried idx pairs variant_row k :
  (∀ idx, option_name_key idx ≠ k ∧ option_value_key idx ≠ k) →
  variant_row_options idx pairs variant_row !! k = variant_row !! k.
Proof.
  intros Hk. revert idx variant_row.
  induction pairs as [|[name value] pairs IH]; intros idx variant_row; simpl; [done|].
  destruct (Hk idx). by rewrite IH, !lookup_insert_ne.
Qed.

Lemma first_row_options_carried idx items first_row first_row' k :
  first_row_options idx items first_row = Ok first_row' →
  (∀ idx, option_name_key idx ≠ k ∧ option_value_key idx ≠ k) →
  k ≠ "Image Alt Text" → first_row' !! k = first_row !! k.
Proof.
  intros H Hk Halt. revert idx first_row H.
  induction items as [|[a vs] items IH]; intros idx first_row; simpl.
  - by intros [= ->].
  - intros H. apply bind_Ok in H as (v0 & _ & H). apply IH in H as ->.
    destruct (Hk idx).
    rewrite !lookup_insert_ne by done. case_decide; [|done]. by rewrite lookup_insert_ne.
Qed.

Lemma variant_step_carried_key base_row children_df parent_images attr_names
    previous variant_values r previous' k :
  variant_step base_row children_df parent_images attr_names previous variant_values
    = Ok (r, previous') →
  carried_key k → r !! k = base_row !! k.
Proof.
  intros (variant_row & -> & _ & H)%variant_step_inv [Hks Hk].
  rewrite variant_row_options_carried by done.
  rewrite !not_elem_of_cons in Hks. destruct Hks as (_ & _ & _ & ? & ? & ? & _).
  destruct (find_matching_child _ _ _).
  - destruct H as (vi & _ & ->). simpl. case_match; by rewrite !lookup_insert_ne.
  - subst. by rewrite !lookup_insert_ne.
Qed.

Lemma make_first_row_carried_key base_row children_df parent_images attribute_values
    previous first_row previous' k :
  make_first_row base_row children_df parent_images attribute_values previous
    = Ok (first_row, previous') →
  carried_key k → first_row !! k = base_row !! k.
Proof.
  intros H%make_first_row_inv [Hks Hk]. cbv zeta in H.
  rewrite !not_elem_of_cons in Hks. destruct Hks as (? & ? & ? & ? & ? & ? & _).
  assert (∀ imaged : row,
            imaged = match parent_images with
                     | img :: _ =>
                         <["Image Position" := Int 1]>
                           (<["Image Alt Text" := Str (alt img)]>
                              (<["Image Src" := Str (url img)]> base_row))
                     | [] => base_row
                     end → imaged !! k = base_row !! k) as Himg.
  { intros imaged ->. destruct parent_images; [done|]. by rewrite !lookup_insert_ne. }
  destruct (iterrows children_df).
  - destruct H as [_ ->]. rewrite !lookup_insert_ne by done. by apply Himg.
  - destruct H as (vi & _ & _ & Hopt).
    rewrite (first_row_options_carried _ _ _ _ _ Hopt) by done.
    destruct (truthy vi); rewrite !lookup_insert_ne by done; by apply Himg.
Qed.

Lemma copy_metafields_copied base_row attrs img_row img_row' k :
  copy_metafields base_row attrs img_row = Ok img_row' →
  k ∈ field_name <$> attrs → img_row' !! k = base_row !! k.
Proof.
  revert img_row. induction attrs as [|attr attrs IH]; intros img_row; csimpl.
  - by intros _ ?%elem_of_nil.
  - intros H Hk. apply bind_Ok in H as (v & Hv & H).
    destruct (decide (k ∈ field_name <$> attrs)) as [Hin|Hnot]; [by eapply IH|].
    apply elem_of_cons in Hk as [->|?]; [|done].
    erewrite copy_metafields_lookup; [|done|].
    + rewrite lookup_insert_eq. unfold dict_getitem in Hv.
      destruct (base_row !! field_name attr); by simplify_eq.
    + apply Forall_forall. intros attr' Hattr' Heq. apply Hnot.
      rewrite <-Heq. by apply list_elem_of_fmap_2.
Qed.

Lemma image_row_shared parent_row base_row category_info metafield_attrs idx img r :
  image_row parent_row base_row category_info metafield_attrs idx img = Ok r →
  Forall metafield_attr_wf metafield_attrs →
  r !! "Handle" = Some (post_title parent_row) ∧
  r !! "Tags" = base_row !! "Tags" ∧
  r !! category_key = Some (Str (category category_info)) ∧
  r !! sub_category_key = Some (Str (subcategory category_info)) ∧
  ∀ attr, attr ∈ metafield_attrs →
    field_name attr ≠ category_key → field_name attr ≠ sub_category_key →
    r !! field_name attr = base_row !! field_name attr.
Proof.
  unfold image_row. intros H Hwf.
  apply bind_Ok in H as (tags & Htags & H). apply bind_Ok in H as (img_row & Hcopy & H).
  injection H as <-.
  assert (∀ k, plain_key k → Forall (λ attr, field_name attr ≠ k) metafield_attrs) as Hne.
  { intros k Hk. eapply Forall_impl; [done|]. intros attr ?. by apply plain_key_ne. }
  unfold dict_getitem in Htags. destruct (base_row !! "Tags") as [tags'|]; [|done].
  injection Htags as ->. split_and!.
  - rewrite !lookup_insert_ne by done.
    erewrite copy_metafields_lookup; [|done|by apply Hne]. by simplify_map_eq.
  - rewrite !lookup_insert_ne by done.
    erewrite copy_metafields_lookup; [|done|by apply Hne]. by simplify_map_eq.
  - rewrite lookup_insert_ne by done. by rewrite lookup_insert_eq.
  - by rewrite lookup_insert_eq.
  - intros attr Hattr Hcat Hsub. rewrite !lookup_insert_ne by done.
    eapply copy_metafields_copied; [done|]. by apply list_elem_of_fmap_2.
Qed.

Lemma make_base_row_shared parent_row children_df metafield_attrs category_info base_row :
  make_base_row parent_row children_df metafield_attrs category_info = Ok base_row →
  Forall metafield_attr_wf metafield_attrs →
  ∃ tags,
    extract_tags (series_get parent_row "tax:product_cat" (Str "")) false = Ok tags ∧
    base_row !! "Handle" = Some (post_title parent_row) ∧
    base_row !! "Tags" = Some tags ∧
    (Forall (λ attr, field_name attr ≠ category_key ∧ field_name attr ≠ sub_category_key)
            metafield_attrs →
     base_row !! category_key = Some (Str (category category_info)) ∧
     base_row !! sub_category_key = Some (Str (subcategory category_info))).
Proof.
  unfold make_base_row. intros H Hwf. apply bind_Ok in H as (tags & Htags & H).
  injection H as <-. exists tags.
  assert (∀ k, plain_key k → Forall (λ attr, field_name attr ≠ k) metafield_attrs) as Hne.
  { intros k Hk. eapply Forall_impl; [done|]. intros attr ?. by apply plain_key_ne. }
  split_and!; [done|..].
  - rewrite fold_add_metafield_lookup by (by apply Hne). by simplify_map_eq.
  - rewrite fold_add_metafield_lookup by (by apply Hne). by simplify_map_eq.
  - intros Hcat. split.
    + rewrite fold_add_metafield_lookup; [by simplify_map_eq|].
      eapply Forall_impl; [done|]. by intros attr [? ?].
    + rewrite fold_add_metafield_lookup; [by simplify_map_eq|].
      eapply Forall_impl; [done|]. by intros attr [? ?].
Qed.

(** Every row of a product is the first row, the row of a further image
    or the row of a combination. *)
Lemma create_variant_rows_kinds parent_row children_df variant_attrs metafield_attrs rows :
  create_variant_rows parent_row children_df variant_attrs metafield_attrs = Ok rows →
  ∃ category_info base_row parent_images,
    extract_category_info (series_get parent_row "tax:product_cat" (Str ""))
      = Ok category_info ∧
    make_base_row parent_row children_df metafield_attrs category_info = Ok base_row ∧
    parse_images (images parent_row) = Ok parent_images ∧
    ∀ r, r ∈ rows →
      (∃ previous',
         make_first_row base_row children_df parent_images
           (collect_attribute_values children_df variant_attrs)
           (initial_previous parent_row) = Ok (r, previous')) ∨
      (∃ idx img,
         image_row parent_row base_row category_info metafield_attrs idx img = Ok r) ∨
      (∃ previous variant_values previous',
         variant_step base_row children_df parent_images
           (collect_attribute_values children_df variant_attrs).*1
           previous variant_values = Ok (r, previous')).
Proof.
  unfold create_variant_rows. intros H.
  apply bind_Ok in H as (category_info & Hcat & H).
  apply bind_Ok in H as (base_row & Hbase & H).
  apply bind_Ok in H as (parent_images & Hparse & H).
  apply bind_Ok in H as ([first_row previous] & Hfirst & H).
  apply bind_Ok in H as (rows' & Hrows & H).
  apply image_rows_inv in Hrows as (image_part & -> & Hlen & Himg).
  exists category_info, base_row, parent_images. split_and!; [done..|].
  assert (∀ r, r ∈ [] ++ [first_row] ++ image_part →
            (∃ previous',
               make_first_row base_row children_df parent_images
                 (collect_attribute_values children_df variant_attrs)
                 (initial_previous parent_row) = Ok (r, previous')) ∨
            (∃ idx img,
               image_row parent_row base_row category_info metafield_attrs idx img = Ok r))
    as Hhead.
  { intros r. simpl. intros [->|Hr]%elem_of_cons; [left; by eexists|].
    right. apply list_elem_of_lookup in Hr as [i Hi].
    destruct (lookup_lt_is_Some_2 (tail parent_images) i) as [img Himg'].
    { rewrite <-Hlen. by eapply lookup_lt_Some. }
    destruct (Himg i img Himg') as (r' & Hr' & Hrow).
    rewrite Hi in Hr'. injection Hr' as <-. eauto. }
  simpl in H.
  destruct (collect_attribute_values children_df variant_attrs) as [|av avs] eqn:Hav.
  { injection H as <-. intros r Hr. destruct (Hhead r Hr) as [?|?]; auto. }
  destruct (iterrows children_df) as [|child children] eqn:Hch.
  { injection H as <-. intros r Hr. destruct (Hhead r Hr) as [?|?]; auto. }
  apply variant_loop_resolved in H as (variant_part & -> & Hr).
  - intros r [Hin|Hin]%elem_of_app.
    + destruct (Hhead r Hin) as [?|?]; auto.
    + right. right. apply list_elem_of_lookup in Hin as [j Hj].
      destruct (resolved_row _ _ _ _ _ _ _ _ _ Hr Hj) as (t & before & after & _ & Hstep).
      eauto.
  - rewrite <-Hav. apply attribute_values_nonempty.
Qed.

(** X9. All rows of a product carry the parent's title as Handle and the
    same Tags, and every metafield column that is not named like one of the
    two category columns is present with the same value on all of them. *)
Theorem product_rows_agree df parent_row children_df variant_attrs rows :
  create_variant_rows parent_row children_df variant_attrs
                      (get_metafield_attributes df) = Ok rows →
  ∃ tags,
    extract_tags (series_get parent_row "tax:product_cat" (Str "")) false = Ok tags ∧
    ∀ r, r ∈ rows →
      r !! "Handle" = Some (post_title parent_row) ∧
      r !! "Tags" = Some tags ∧
      ∀ attr, attr ∈ get_metafield_attributes df →
        field_name attr ≠ category_key → field_name attr ≠ sub_category_key →
        is_Some (r !! field_name attr) ∧
        ∀ r', r' ∈ rows → r' !! field_name attr = r !! field_name attr.
Proof.
  intros (ci & base_row & imgs & Hci & Hbase & Hparse & Hkinds)%create_variant_rows_kinds.
  pose proof (get_metafield_attributes_wf df) as Hwf.
  destruct (make_base_row_shared _ _ _ _ _ Hbase Hwf) as (tags & Htags & Hh & Ht & _).
  exists tags. split; [done|].
  assert (∀ r k, r ∈ rows → carried_key k →
            (∀ attr, attr ∈ get_metafield_attributes df → k = field_name attr →
                     field_name attr ≠ category_key ∧ field_name attr ≠ sub_category_key) →
            k = "Handle" ∨ k = "Tags" ∨ k ∈ field_name <$> get_metafield_attributes df →
            r !! k = base_row !! k) as Hsame.
  { intros r k Hr Hk Hfield Hkind. destruct (Hkinds r Hr) as [[p Hf]|[(idx & img & Hi)|Hv]].
    - by eapply make_first_row_carried_key.
    - destruct (image_row_shared _ _ _ _ _ _ _ Hi Hwf) as (Hh' & Ht' & _ & _ & Hm).
      destruct Hkind as [->|[->|Hin]]; [by rewrite Hh'|done|].
      apply list_elem_of_fmap in Hin as (attr & -> & Hattr).
      destruct (Hfield attr Hattr eq_refl). by apply Hm.
    - destruct Hv as (p & t & p' & Hv). by eapply variant_step_carried_key. }
  intros r Hr. split_and!.
  - rewrite (Hsame r "Handle" Hr); [done|by apply carried_key_plain; [|set_solver]| |by left].
    intros attr Hattr Heq. exfalso. rewrite Forall_forall in Hwf.
    by apply (plain_key_ne attr "Handle" (Hwf attr Hattr)).
  - rewrite (Hsame r "Tags" Hr); [done|by apply carried_key_plain; [|set_solver]| |by right; left].
    intros attr Hattr Heq. exfalso. rewrite Forall_forall in Hwf.
    by apply (plain_key_ne attr "Tags" (Hwf attr Hattr)).
  - intros attr Hattr Hcat Hsub.
    assert (∀ r', r' ∈ rows → r' !! field_name attr = base_row !! field_name attr) as Hall.
    { intros r' Hr'. apply Hsame; [done| | |].
      - apply carried_key_field. rewrite Forall_forall in Hwf. by apply Hwf.
      - intros attr' _ Heq. by rewrite <-Heq.
      - right. right. by apply list_elem_of_fmap_2. }
    split.
    + rewrite (Hall r Hr). eapply make_base_row_is_Some; [done|].
      right. by apply list_elem_of_fmap_2.
    + intros r' Hr'. by rewrite (Hall r Hr), (Hall r' Hr').
Qed.

Lemma product_rows_agree_witness :
  ∃ rows,
    create_variant_rows Sample.tee Sample.tee_children ["color"; "size"]
      (get_metafield_attributes Sample.tee_frame) = Ok rows ∧
    ∀ r, r ∈ rows → r !! "Handle" = Some (Str "Tee").
Proof.
  destruct (create_variant_rows_total Sample.tee Sample.tee_children ["color"; "size"]
              (get_metafield_attributes Sample.tee_frame)) as [rows Hrows].
  { exact I. }
  { exact I. }
  { repeat constructor. }
  exists rows. split; [exact Hrows|]. intros r Hr.
  destruct (product_rows_agree _ _ _ _ _ Hrows) as (tags & _ & Hall).
  exact (proj1 (Hall r Hr)).
Defined.

(** ** The category columns *)

Lemma length_append s t : String.length (s +:+ t) = String.length s + String.length t.
Proof. induction s as [|c s IH]; [done|]. simpl. by rewrite <-IH. Qed.

Lemma length_map_chars f s : String.length (PyStr.map_chars f s) = String.length s.
Proof. induction s as [|c s IH]; simpl; congruence. Qed.

Lemma length_title_from b s : String.length (PyStr.title_from b s) = String.length s.
Proof. revert b. induction s as [|c s IH]; intros b; simpl; [done|]. by rewrite IH. Qed.

Lemma append_inj_length s s' t t' :
  String.length s = String.length s' → s +:+ t = s' +:+ t' → s = s' ∧ t = t'.
Proof.
  revert s'. induction s as [|c s IH]; intros [|c' s'] Hlen Heq; try done.
  simpl in Hlen. injection Hlen as Hlen.
  change (String c (s +:+ t) = String c' (s' +:+ t')) in Heq. injection Heq as -> Heq.
  destruct (IH s' Hlen Heq) as [-> ->]. done.
Qed.

(** a metafield column is named like a category column only for the
    attribute of that name *)
Lemma field_name_category_key attr_name key_title key_name :
  String.length key_title = String.length key_name →
  PyStr.title (PyStr.replace_char "_" " " attr_name)
    +:+ " (product.metafields.custom." +:+ attr_name +:+ ")"
  = key_title +:+ " (product.metafields.custom." +:+ key_name +:+ ")" →
  attr_name = key_name.
Proof.
  intros Hkey Heq.
  assert (String.length attr_name = String.length key_name) as Hlen.
  { apply (f_equal String.length) in Heq. rewrite !length_append in Heq.
    unfold PyStr.title, PyStr.replace_char in Heq.
    rewrite length_title_from, length_map_chars in Heq. lia. }
  apply append_inj_length in Heq as [_ Heq].
  - apply append_inj_length in Heq as [_ Heq]; [|done].
    by apply append_inj_length in Heq as [? _].
  - unfold PyStr.title, PyStr.replace_char.
    rewrite length_title_from, length_map_chars. congruence.
Qed.

Lemma metafield_columns df attr :
  attr ∈ get_metafield_attributes df →
  original attr ∈ columns df ∧
  PyStr.startswith "meta:attribute_pa_" (original attr) = true ∧
  field_name attr =
    PyStr.title (PyStr.replace_char "_" " " (PyStr.remove "meta:attribute_pa_" (original attr)))
    +:+ " (product.metafields.custom."
    +:+ PyStr.remove "meta:attribute_pa_" (original attr) +:+ ")".
Proof.
  intros Hattr.
  assert (original attr ∈ original <$> get_metafield_attributes df) as Horig
    by (by apply list_elem_of_fmap_2).
  rewrite metafield_originals in Horig.
  apply list_elem_of_filter in Horig as [_ Horig]. unfold meta_cols in Horig.
  apply list_elem_of_filter in Horig as [Hp Hcol].
  split_and!; [done|by apply Is_true_true|].
  pose proof (get_metafield_attributes_Forall df
    (λ attr, field_name attr =
       PyStr.title (PyStr.replace_char "_" " "
         (PyStr.remove "meta:attribute_pa_" (original attr)))
       +:+ " (product.metafields.custom."
       +:+ PyStr.remove "meta:attribute_pa_" (original attr) +:+ ")")) as Hall.
  rewrite Forall_forall in Hall. apply Hall; [|done]. by intros col.
Qed.

Lemma no_category_attribute df :
  (∀ col, col ∈ columns df → PyStr.startswith "meta:attribute_pa_" col = true →
          PyStr.remove "meta:attribute_pa_" col ≠ "category" ∧
          PyStr.remove "meta:attribute_pa_" col ≠ "sub_category") →
  Forall (λ attr, field_name attr ≠ category_key ∧ field_name attr ≠ sub_category_key)
         (get_metafield_attributes df).
Proof.
  intros Hcols. apply Forall_forall. intros attr Hattr.
  destruct (metafield_columns df attr Hattr) as (Hcol & Hp & Hname).
  destruct (Hcols _ Hcol Hp) as [Hcat Hsub]. rewrite Hname.
  split; intros Heq.
  - apply Hcat. by apply (field_name_category_key _ "Category" "category").
  - apply Hsub. by apply (field_name_category_key _ "Sub Category" "sub_category").
Qed.

(** The rows are the first row, the rows of the further images and the
    rows of the non-primary combinations, built from one base row and one
    pair of categories. *)
Lemma create_variant_rows_parts parent_row children_df variant_attrs metafield_attrs rows :
  create_variant_rows parent_row children_df variant_attrs metafield_attrs = Ok rows →
  ∃ category_info base_row parent_images first_row previous image_part variant_part,
    extract_category_info (series_get parent_row "tax:product_cat" (Str ""))
      = Ok category_info ∧
    make_base_row parent_row children_df metafield_attrs category_info = Ok base_row ∧
    parse_images (images parent_row) = Ok parent_images ∧
    make_first_row base_row children_df parent_images
      (collect_attribute_values children_df variant_attrs)
      (initial_previous parent_row) = Ok (first_row, previous) ∧
    length image_part = length parent_images - 1 ∧
    (∀ i r, image_part !! i = Some r →
       ∃ img, parent_images !! S i = Some img ∧
              image_row parent_row base_row category_info metafield_attrs (2 + i) img
                = Ok r) ∧
    resolved (variant_step base_row children_df parent_images
                (collect_attribute_values children_df variant_attrs).*1)
             previous (variant_combinations children_df variant_attrs) variant_part ∧
    rows = first_row :: image_part ++ variant_part.
Proof.
  unfold create_variant_rows. intros H.
  apply bind_Ok in H as (category_info & Hcat & H).
  apply bind_Ok in H as (base_row & Hbase & H).
  apply bind_Ok in H as (parent_images & Hparse & H).
  apply bind_Ok in H as ([first_row previous] & Hfirst & H).
  apply bind_Ok in H as (rows' & Hrows & H).
  apply image_rows_inv in Hrows as (image_part & -> & Hlen & Himg).
  exists category_info, base_row, parent_images, first_row, previous, image_part.
  assert (length image_part = length parent_images - 1) as Hlen'.
  { rewrite Hlen. destruct parent_images; simpl; lia. }
  assert (∀ i r, image_part !! i = Some r →
            ∃ img, parent_images !! S i = Some img ∧
                   image_row parent_row base_row category_info metafield_attrs (2 + i) img
                     = Ok r) as Himg'.
  { intros i r Hi.
    destruct (lookup_lt_is_Some_2 (tail parent_images) i) as [img Himg'].
    { rewrite <-Hlen. by eapply lookup_lt_Some. }
    destruct (Himg i img Himg') as (r' & Hr' & Hrow).
    rewrite Hi in Hr'. injection Hr' as <-. exists img. split; [|done].
    by destruct parent_images. }
  unfold variant_combinations. simpl in H.
  destruct (collect_attribute_values children_df variant_attrs) as [|av avs] eqn:Hav.
  { injection H as <-. exists []. rewrite app_nil_r. split_and!; try done. constructor. }
  destruct (iterrows children_df) as [|child children] eqn:Hch.
  { injection H as <-. exists []. rewrite app_nil_r. split_and!; try done. constructor. }
  apply variant_loop_resolved in H as (variant_part & -> & Hr).
  - exists variant_part. split_and!; try done.
  - rewrite <-Hav. apply attribute_values_nonempty.
Qed.

(** X10. When no attribute column is named category or sub_category, every
    row of a product carries the category and the subcategory of the
    parent's taxonomy cell. *)
Theorem category_columns df parent_row children_df variant_attrs rows :
  create_variant_rows parent_row children_df variant_attrs
                      (get_metafield_attributes df) = Ok rows →
  (∀ col, col ∈ columns df → PyStr.startswith "meta:attribute_pa_" col = true →
          PyStr.remove "meta:attribute_pa_" col ≠ "category" ∧
          PyStr.remove "meta:attribute_pa_" col ≠ "sub_category") →
  ∃ category_info,
    extract_category_info (series_get parent_row "tax:product_cat" (Str ""))
      = Ok category_info ∧
    ∀ r, r ∈ rows →
      r !! category_key = Some (Str (category category_info)) ∧
      r !! sub_category_key = Some (Str (subcategory category_info)).
Proof.
  intros (ci & base_row & imgs & Hci & Hbase & Hparse & Hkinds)%create_variant_rows_kinds
    Hcols%no_category_attribute.
  pose proof (get_metafield_attributes_wf df) as Hwf.
  destruct (make_base_row_shared _ _ _ _ _ Hbase Hwf) as (tags & _ & _ & _ & Hcats).
  destruct (Hcats Hcols) as [Hcat Hsub].
  exists ci. split; [done|]. intros r Hr.
  assert (carried_key category_key) as Hk1 by (by apply carried_key_plain; [|set_solver]).
  assert (carried_key sub_category_key) as Hk2 by (by apply carried_key_plain; [|set_solver]).
  destruct (Hkinds r Hr) as [[p Hf]|[(idx & img & Hi)|(p & t & p' & Hv)]].
  - by rewrite !(make_first_row_carried_key _ _ _ _ _ _ _ _ Hf).
  - by destruct (image_row_shared _ _ _ _ _ _ _ Hi Hwf) as (_ & _ & ? & ? & _).
  - by rewrite !(variant_step_carried_key _ _ _ _ _ _ _ _ _ Hv).
Qed.

Lemma category_columns_witness :
  ∃ rows,
    create_variant_rows Sample.tee Sample.tee_children ["color"; "size"]
      (get_metafield_attributes Sample.tee_frame) = Ok rows ∧
    ∀ r, r ∈ rows → r !! category_key = Some (Str "Shoes").
Proof.
  destruct (create_variant_rows_total Sample.tee Sample.tee_children ["color"; "size"]
              (get_metafield_attributes Sample.tee_frame)) as [rows Hrows].
  { exact I. }
  { exact I. }
  { repeat constructor. }
  exists rows. split; [exact Hrows|]. intros r Hr.
  destruct (category_columns _ _ _ _ _ Hrows) as (ci & Hci & Hall).
  - intros col. cbn [columns Sample.tee_frame]. unfold Sample.tee_columns.
    rewrite !elem_of_cons, elem_of_nil.
    intros [->|[->|[->|[->|[]]]]] Hp; split; intros Heq; vm_compute in Heq;
      discriminate Heq.
  - vm_compute in Hci. injection Hci as <-. exact (proj1 (Hall r Hr)).
Defined.

Lemma add_metafield_self parent_row children_df base_row attr :
  add_metafield parent_row children_df base_row attr !! field_name attr
  = add_metafield parent_row children_df ∅ attr !! field_name attr.
Proof. unfold add_metafield. repeat case_match; by rewrite !lookup_insert_eq. Qed.

(** the last descriptor of a name decides the value of its column *)
Lemma fold_add_metafield_last parent_row children_df attrs base_row k :
  k ∈ field_name <$> attrs →
  ∃ attr, attr ∈ attrs ∧ field_name attr = k ∧
    fold_left (add_metafield parent_row children_df) attrs base_row !! k
    = add_metafield parent_row children_df ∅ attr !! k.
Proof.
  induction attrs as [|a attrs IH] using rev_ind; [by intros ?%elem_of_nil|].
  rewrite fmap_app, fold_left_app. simpl. intros Hk.
  destruct (decide (field_name a = k)) as [<-|Hne].
  - exists a. split_and!; [apply elem_of_app; right; by apply list_elem_of_singleton|done|].
    apply add_metafield_self.
  - apply elem_of_app in Hk as [Hk|Hk%list_elem_of_singleton]; [|done].
    destruct (IH Hk) as (attr & Hattr & Hname & Hval).
    exists attr. split_and!; [apply elem_of_app; by left|done|].
    by rewrite add_metafield_lookup.
Qed.

(** X11. An attribute column named category collides with the Category
    column: the first row and the variant rows then carry the attribute's
    metafield text in that column, while the rows of the further images
    carry the category of the taxonomy cell. *)
Theorem category_attribute_collision df parent_row children_df variant_attrs rows col :
  create_variant_rows parent_row children_df variant_attrs
                      (get_metafield_attributes df) = Ok rows →
  col ∈ columns df → PyStr.startswith "meta:attribute_pa_" col = true →
  PyStr.remove "meta:attribute_pa_" col = "category" →
  ∃ category_info parent_images attr,
    extract_category_info (series_get parent_row "tax:product_cat" (Str ""))
      = Ok category_info ∧
    parse_images (images parent_row) = Ok parent_images ∧
    attr ∈ get_metafield_attributes df ∧ field_name attr = category_key ∧
    ∀ i r, rows !! i = Some r →
      r !! category_key =
        if bool_decide (1 ≤ i < length parent_images)
        then Some (Str (category category_info))
        else add_metafield parent_row children_df ∅ attr !! category_key.
Proof.
  intros (ci & base_row & imgs & first_row & prev & irs & vrs & Hci & Hbase & Hparse
          & Hfirst & Hlen & Himg & Hr & ->)%create_variant_rows_parts Hcol Hp Hname.
  pose proof (get_metafield_attributes_wf df) as Hwf.
  assert (category_key ∈ field_name <$> get_metafield_attributes df) as Hkey.
  { assert (col ∈ original <$> get_metafield_attributes df) as Horig.
    { rewrite metafield_originals. apply list_elem_of_filter. split.
      - rewrite Hname. unfold variant_attr_names. rewrite !not_elem_of_cons.
        split_and!; [by vm_compute..|apply not_elem_of_nil].
      - unfold meta_cols. apply list_elem_of_filter. split; [by apply Is_true_true|done]. }
    apply list_elem_of_fmap in Horig as (attr & -> & Hattr).
    destruct (metafield_columns df attr Hattr) as (_ & _ & Hfield).
    rewrite Hname in Hfield. apply list_elem_of_fmap. exists attr. split; [|done].
    by rewrite Hfield. }
  assert (∃ attr, attr ∈ get_metafield_attributes df ∧ field_name attr = category_key ∧
            base_row !! category_key
            = add_metafield parent_row children_df ∅ attr !! category_key)
    as (attr & Hattr & Hfield & Hval).
  { unfold make_base_row in Hbase. apply bind_Ok in Hbase as (tags & _ & Hbase).
    injection Hbase as <-. by apply fold_add_metafield_last. }
  exists ci, imgs, attr. split_and!; [done..|].
  assert (carried_key category_key) as Hk by (by apply carried_key_plain; [|set_solver]).
  intros i r Hrow. destruct i as [|i].
  - rewrite bool_decide_eq_false_2 by lia. injection Hrow as <-.
    by rewrite (make_first_row_carried_key _ _ _ _ _ _ _ _ Hfirst).
  - simpl in Hrow. destruct (decide (i < length irs)) as [Hi|Hi].
    + rewrite bool_decide_eq_true_2 by lia. rewrite lookup_app_l in Hrow by done.
      destruct (Himg i r Hrow) as (img & _ & Hrow').
      by destruct (image_row_shared _ _ _ _ _ _ _ Hrow' Hwf) as (_ & _ & ? & _).
    + rewrite bool_decide_eq_false_2 by lia. rewrite lookup_app_r in Hrow by lia.
      destruct (resolved_row _ _ _ _ _ _ _ _ _ Hr Hrow) as (t & before & after & _ & Hstep).
      by rewrite (variant_step_carried_key _ _ _ _ _ _ _ _ _ Hstep).
Qed.

Lemma mug_rows :
  match create_variant_rows Shelf.mug (children_of Shelf.mug_frame Shelf.mug) []
          (get_metafield_attributes Shelf.mug_frame) with
  | Ok rows => (λ r : row, r !! category_key) <$> rows
  | Raise _ => []
  end = [Some (Str "Gift"); Some (Str "Kitchen")].
Proof. vm_compute. reflexivity. Qed.

Lemma category_attribute_collision_witness :
  ∃ rows first_row img_row,
    create_variant_rows Shelf.mug (children_of Shelf.mug_frame Shelf.mug) []
      (get_metafield_attributes Shelf.mug_frame) = Ok rows ∧
    rows !! 0 = Some first_row ∧ rows !! 1 = Some img_row ∧
    first_row !! category_key = Some (Str "Gift") ∧
    img_row !! category_key = Some (Str "Kitchen").
Proof.
  destruct (create_variant_rows_total Shelf.mug (children_of Shelf.mug_frame Shelf.mug) []
              (get_metafield_attributes Shelf.mug_frame)) as [rows Hrows].
  { exact I. }
  { exact I. }
  { constructor. }
  destruct (category_attribute_collision Shelf.mug_frame _ _ _ _ "meta:attribute_pa_category"
              Hrows) as (ci & imgs & attr & Hci & Hparse & Hattr & _ & Hall).
  { apply elem_of_cons. right. apply elem_of_cons. by left. }
  { reflexivity. }
  { reflexivity. }
  pose proof mug_rows as Hmug. rewrite Hrows in Hmug.
  destruct rows as [|first_row [|img_row rows]]; [discriminate Hmug..|].
  exists (first_row :: img_row :: rows), first_row, img_row.
  injection Hmug as H0 H1 _.
  exact (conj Hrows (conj eq_refl (conj eq_refl (conj H0 H1)))).
Defined.

(** ** The Variant Image of the first row *)

Lemma find_url_mentions_nil parent_images :
  List.find (url_mentions []) parent_images = None.
Proof. induction parent_images; simpl; done. Qed.

Lemma get_variant_image_first first_variant parent_images variant_image :
  get_variant_image first_variant parent_images [] (Str "") = Ok variant_image →
  ∃ own_images,
    parse_images (images first_variant) = Ok own_images ∧
    variant_image = Str match own_images with img :: _ => url img | [] => "" end.
Proof.
  unfold get_variant_image. rewrite find_url_mentions_nil.
  destruct (images first_variant) as [|s|z|]; simpl; [| |done..].
  - intros [= <-]. by exists [].
  - intros H. eexists. split; [done|].
    destruct (fold_left parse_images_step (PyStr.split "|" s) []); simpl in H;
      by injection H as <-.
Qed.

(** X12. The Variant Image of the first row is the URL of the first child's
    own first image when that URL is not empty, and is absent otherwise:
    the parent's images are never used for it. *)
Theorem first_row_variant_image df parent_row children_df variant_attrs rows :
  create_variant_rows parent_row children_df variant_attrs
                      (get_metafield_attributes df) = Ok rows →
  ∃ first_row,
    rows !! 0 = Some first_row ∧
    match head (iterrows children_df) with
    | Some first_variant =>
        ∃ own_images,
          parse_images (images first_variant) = Ok own_images ∧
          first_row !! "Variant Image" =
            match own_images with
            | img :: _ => if PyStr.nonempty (url img) then Some (Str (url img)) else None
            | [] => None
            end
    | None => first_row !! "Variant Image" = None
    end.
Proof.
  intros (ci & base_row & imgs & first_row & prev & irs & vrs & Hci & Hbase & Hparse
          & Hfirst & _ & _ & _ & ->)%create_variant_rows_parts.
  pose proof (get_metafield_attributes_wf df) as Hwf.
  exists first_row. split; [done|].
  assert (base_row !! "Variant Image" = None) as Hnone.
  { by eapply make_base_row_lookup; [done..|set_solver]. }
  assert (∀ imaged : row,
            imaged = match imgs with
                     | img :: _ =>
                         <["Image Position" := Int 1]>
                           (<["Image Alt Text" := Str (alt img)]>
                              (<["Image Src" := Str (url img)]> base_row))
                     | [] => base_row
                     end → imaged !! "Variant Image" = None) as Himg.
  { intros imaged ->. destruct imgs; [done|]. by rewrite !lookup_insert_ne. }
  apply make_first_row_inv in Hfirst. cbv zeta in Hfirst.
  destruct (iterrows children_df) as [|first_variant rest]; simpl.
  - destruct Hfirst as [_ ->]. rewrite !lookup_insert_ne by done. by apply Himg.
  - destruct Hfirst as (vi & Hvi & _ & Hopt).
    apply get_variant_image_first in Hvi as (own & Hown & ->).
    exists own. split; [done|].
    rewrite (first_row_options_lookup _ _ _ _ _ Hopt) by done.
    destruct own as [|img own]; simpl.
    + rewrite !lookup_insert_ne by done. by apply Himg.
    + destruct (url img) as [|c u]; simpl.
      * rewrite !lookup_insert_ne by done. by apply Himg.
      * by rewrite lookup_insert_eq.
Qed.

Lemma first_row_variant_image_witness :
  ∃ rows first_row,
    create_variant_rows Sample.framed Sample.sound_image ["color"]
      (get_metafield_attributes Sample.sound_image) = Ok rows ∧
    rows !! 0 = Some first_row ∧
    first_row !! "Variant Image" = Some (Str "http://x/blue.jpg").
Proof.
  destruct (create_variant_rows_total Sample.framed Sample.sound_image ["color"]
              (get_metafield_attributes Sample.sound_image)) as [rows Hrows].
  { exact I. }
  { exact I. }
  { repeat constructor. }
  destruct (first_row_variant_image _ _ _ _ _ Hrows) as (first_row & Hfirst & Himg).
  cbn [head iterrows Sample.sound_image] in Himg.
  destruct Himg as (own & Hown & Himg).
  vm_compute in Hown. injection Hown as <-.
  exists rows, first_row. exact (conj Hrows (conj Hfirst Himg)).
Defined.

(** ** The price columns *)

Lemma resolve_prices_priced child previous :
  priced previous →
  isna (resolve_price child previous) = false ∧
  isna (resolve_compare_price child previous) = false.
Proof.
  intros [Hp Hc]. unfold resolve_price, resolve_compare_price.
  destruct (isna (sale_price child)) eqn:Hs, (isna (regular_price child)) eqn:Hr; done.
Qed.

Lemma initial_previous_priced parent_row : priced (initial_previous parent_row).
Proof.
  unfold priced, initial_previous. simpl.
  destruct (isna (regular_price parent_row)) eqn:Hr, (isna (sale_price parent_row)) eqn:Hs;
    done.
Qed.

Lemma carried_from_priced (r : row) price compare :
  r !! "Variant Price" = Some price → r !! "Variant Compare At Price" = Some compare →
  isna price = false → isna compare = false →
  row_priced r ∧ priced (carried_from r).
Proof.
  intros Hp Hc Hprice Hcompare. split.
  - intros v [Hv|Hv]; congruence.
  - unfold priced, carried_from, dict_get. simpl. by rewrite Hp, Hc.
Qed.

Lemma variant_step_priced base_row children_df parent_images attr_names
    previous variant_values r previous' :
  variant_step base_row children_df parent_images attr_names previous variant_values
    = Ok (r, previous') →
  priced previous → row_priced r ∧ priced previous'.
Proof.
  intros Hstep Hprev. rewrite (variant_step_carried _ _ _ _ _ _ _ _ Hstep).
  apply variant_step_inv in Hstep as (variant_row & -> & _ & H).
  destruct (find_matching_child _ _ _) as [child|].
  - destruct H as (vi & _ & ->). cbv zeta.
    destruct (resolve_prices_priced child previous Hprev) as [Hp Hc].
    eapply carried_from_priced; [| |exact Hp|exact Hc];
      rewrite variant_row_options_lookup by done;
      destruct (truthy vi); by simplify_map_eq.
  - destruct Hprev as [Hp Hc]. subst variant_row.
    eapply carried_from_priced; [| |exact Hp|exact Hc];
      rewrite variant_row_options_lookup by done; by simplify_map_eq.
Qed.

Lemma resolved_priced base_row children_df parent_images attr_names
    previous combinations rows :
  resolved (variant_step base_row children_df parent_images attr_names)
           previous combinations rows →
  priced previous → Forall row_priced rows.
Proof.
  induction 1 as [|p t r p' ts rs Hs Hr IH]; intros Hp; [constructor|].
  destruct (variant_step_priced _ _ _ _ _ _ _ _ Hs Hp) as [? ?].
  constructor; [done|]. by apply IH.
Qed.

Lemma make_first_row_priced base_row children_df parent_images attribute_values
    previous first_row previous' :
  make_first_row base_row children_df parent_images attribute_values previous
    = Ok (first_row, previous') →
  priced previous → row_priced first_row ∧ priced previous'.
Proof.
  intros H%make_first_row_inv Hprev. cbv zeta in H.
  destruct (iterrows children_df) as [|first_variant rest].
  - destruct H as [-> ->]. split; [|done]. destruct Hprev as [Hp Hc].
    intros v [Hv|Hv]; simplify_map_eq; done.
  - destruct H as (vi & _ & -> & Hopt).
    destruct (resolve_prices_priced first_variant previous Hprev) as [Hp Hc].
    match goal with
    | |- _ ∧ priced (carried_from ?pictured) =>
        assert (pictured !! "Variant Price" = Some (resolve_price first_variant previous) ∧
                pictured !! "Variant Compare At Price"
                = Some (resolve_compare_price first_variant previous)) as [Hp' Hc']
    end.
    { destruct (truthy vi); by simplify_map_eq. }
    split.
    + intros v.
      rewrite !(first_row_options_lookup _ _ _ _ _ Hopt) by done.
      rewrite Hp', Hc'. intros [Hv|Hv]; congruence.
    + by eapply carried_from_priced.
Qed.

(** X13. No row of a product holds NaN in Variant Price or in Variant
    Compare At Price: where a child has no price the carried one is used,
    and the carried prices start from the parent's or the empty string. *)
Theorem prices_never_nan df parent_row children_df variant_attrs rows :
  create_variant_rows parent_row children_df variant_attrs
                      (get_metafield_attributes df) = Ok rows →
  ∀ r v, r ∈ rows →
    r !! "Variant Price" = Some v ∨ r !! "Variant Compare At Price" = Some v →
    isna v = false.
Proof.
  intros (ci & base_row & imgs & first_row & prev & irs & vrs & Hci & Hbase & Hparse
          & Hfirst & _ & Himg & Hr & ->)%create_variant_rows_parts.
  pose proof (get_metafield_attributes_wf df) as Hwf.
  destruct (make_first_row_priced _ _ _ _ _ _ _ Hfirst (initial_previous_priced parent_row))
    as [Hrow Hprev].
  pose proof (resolved_priced _ _ _ _ _ _ _ Hr Hprev) as Hvrs.
  intros r v [->|[Hin|Hin]%elem_of_app]%elem_of_cons Hv.
  - by apply Hrow.
  - apply list_elem_of_lookup in Hin as [i Hi].
    destruct (Himg i r Hi) as (img & _ & Hrow').
    destruct (image_row_lookup _ _ _ _ _ _ _ Hrow' Hwf) as (_ & _ & _ & Hother).
    destruct Hv as [Hv|Hv]; rewrite Hother in Hv; [done|done|set_solver|done|done|set_solver].
  - rewrite Forall_forall in Hvrs. by apply (Hvrs r Hin).
Qed.

Lemma prices_never_nan_witness :
  ∃ rows,
    create_variant_rows Sample.tee Sample.tee_children ["color"; "size"]
      (get_metafield_attributes Sample.tee_frame) = Ok rows ∧
    ∀ r v, r ∈ rows → r !! "Variant Price" = Some v → isna v = false.
Proof.
  destruct (create_variant_rows_total Sample.tee Sample.tee_children ["color"; "size"]
              (get_metafield_attributes Sample.tee_frame)) as [rows Hrows].
  { exact I. }
  { exact I. }
  { repeat constructor. }
  exists rows. split; [exact Hrows|]. intros r v Hr Hv.
  exact (prices_never_nan _ _ _ _ _ Hrows r v Hr (or_introl Hv)).
Defined.

(** ** The option columns *)

Lemma blank_split a b t t' :
  no_blank a = true → no_blank b = true →
  a +:+ String " " t = b +:+ String " " t' → a = b ∧ t = t'.
Proof.
  revert b. induction a as [|c a IH]; intros [|c' b] Ha Hb Heq.
  - by injection Heq as ->.
  - change (String " " t = String c' (b +:+ String " " t')) in Heq.
    injection Heq as <- _. done.
  - change (String c (a +:+ String " " t) = String " " t') in Heq.
    injection Heq as -> _. done.
  - change (String c (a +:+ String " " t) = String c' (b +:+ String " " t')) in Heq.
    injection Heq as -> Heq. simpl in Ha, Hb.
    apply andb_true_iff in Ha as [_ Ha]. apply andb_true_iff in Hb as [_ Hb].
    by destruct (IH b Ha Hb Heq) as [-> ->].
Qed.

Lemma option_key_inj i j t t' :
  "Option" +:+ PyStr.of_nat i +:+ String " " t
  = "Option" +:+ PyStr.of_nat j +:+ String " " t' → i = j ∧ t = t'.
Proof.
  intros Heq. apply append_inj_length in Heq as [_ Heq]; [|done].
  unfold PyStr.of_nat in Heq.
  apply blank_split in Heq as [Heq ->]; [|apply of_Z_plain..].
  split; [|done]. by apply Nat2Z.inj, of_Z_inj.
Qed.

Lemma option_value_key_inj i j : option_value_key i = option_value_key j → i = j.
Proof. intros Heq. by apply option_key_inj in Heq as [? _]. Qed.

Lemma option_name_key_inj i j : option_name_key i = option_name_key j → i = j.
Proof. intros Heq. by apply option_key_inj in Heq as [? _]. Qed.

Lemma option_name_value_ne i j : option_name_key i ≠ option_value_key j.
Proof. intros Heq. by apply option_key_inj in Heq as [_ ?]. Qed.

(** the options from [idx] on leave the columns before [idx] alone *)
Lemma variant_row_options_before idx pairs variant_row j :
  j < idx →
  variant_row_options idx pairs variant_row !! option_value_key j
    = variant_row !! option_value_key j ∧
  variant_row_options idx pairs variant_row !! option_name_key j
    = variant_row !! option_name_key j.
Proof.
  revert idx variant_row.
  induction pairs as [|[name value] pairs IH]; intros idx variant_row Hj; simpl; [done|].
  destruct (IH (S idx) (<[option_value_key idx := Str value]>
                          (<[option_name_key idx := Str (PyStr.capitalize (display_name name))]>
                             variant_row))) as [-> ->]; [lia|].
  split.
  - rewrite lookup_insert_ne by (intros ?%option_value_key_inj; lia).
    by rewrite lookup_insert_ne by apply option_name_value_ne.
  - rewrite lookup_insert_ne by (intros Heq; by apply (option_name_value_ne j idx)).
    by rewrite lookup_insert_ne by (intros ?%option_name_key_inj; lia).
Qed.

Lemma variant_row_options_columns idx pairs variant_row :
  (λ j, variant_row_options idx pairs variant_row !! option_value_key j)
    <$> seq idx (length pairs) = (λ p, Some (Str p.2)) <$> pairs ∧
  (λ j, variant_row_options idx pairs variant_row !! option_name_key j)
    <$> seq idx (length pairs)
  = (λ p, Some (Str (PyStr.capitalize (display_name p.1)))) <$> pairs.
Proof.
  revert idx variant_row.
  induction pairs as [|[name value] pairs IH]; intros idx variant_row; csimpl; [done|].
  destruct (IH (S idx) (<[option_value_key idx := Str value]>
                          (<[option_name_key idx := Str (PyStr.capitalize (display_name name))]>
                             variant_row))) as [-> ->].
  destruct (variant_row_options_before (S idx) pairs
              (<[option_value_key idx := Str value]>
                 (<[option_name_key idx := Str (PyStr.capitalize (display_name name))]>
                    variant_row)) idx) as [-> ->]; [lia|].
  split; f_equal.
  - by rewrite lookup_insert_eq.
  - rewrite lookup_insert_ne by (intros Heq; by apply (option_name_value_ne idx idx)).
    by rewrite lookup_insert_eq.
Qed.

Lemma variant_combinations_lengths children_df variant_attrs :
  Forall (λ variant_values,
            length variant_values = length (variant_attributes children_df variant_attrs))
         (variant_combinations children_df variant_attrs).
Proof.
  unfold variant_combinations, variant_attributes.
  destruct (collect_attribute_values children_df variant_attrs) as [|av avs]; [constructor|].
  destruct (iterrows children_df); [constructor|].
  apply Forall_forall. intros t [_ Ht]%list_elem_of_filter.
  apply elem_of_product, Forall2_length in Ht. by rewrite Ht, !length_fmap.
Qed.

Lemma resolved_options base_row children_df parent_images attr_names
    previous combinations rows :
  resolved (variant_step base_row children_df parent_images attr_names)
           previous combinations rows →
  Forall (λ variant_values, length variant_values = length attr_names) combinations →
  option_values (length attr_names) <$> rows
    = (fmap (λ v, Some (Str v))) <$> combinations ∧
  Forall (λ r, option_names (length attr_names) r
               = (λ a, Some (Str (PyStr.capitalize (display_name a)))) <$> attr_names)
         rows.
Proof.
  induction 1 as [|p t r p' ts rs Hs Hr IH]; intros Hlen; [by split|].
  apply Forall_cons in Hlen as [Ht Hts]. destruct (IH Hts) as [IHv IHn].
  apply variant_step_inv in Hs as (variant_row & -> & _ & _).
  destruct (variant_row_options_columns 1 (zip attr_names t) variant_row) as [Hv Hn].
  rewrite length_zip, Ht, Nat.min_id in Hv, Hn.
  split.
  - csimpl. f_equal; [|done]. unfold option_values. rewrite Hv.
    rewrite <-(snd_zip attr_names t) at 2 by lia. by rewrite <-list_fmap_compose.
  - constructor; [|done]. unfold option_names. rewrite Hn.
    rewrite <-(fst_zip attr_names t) at 2 by lia. by rewrite <-list_fmap_compose.
Qed.

(** X14. The option columns of the variant rows spell out the non-primary
    combinations: read in row order, the columns Option1 Value .. Option<n>
    Value give the combinations in order, and the columns Option<i> Name
    give the capitalised attribute names, sizes being shown as Size. *)
Theorem option_columns parent_row children_df variant_attrs metafield_attrs rows :
  create_variant_rows parent_row children_df variant_attrs metafield_attrs = Ok rows →
  ∃ parent_images,
    parse_images (images parent_row) = Ok parent_images ∧
    let names := variant_attributes children_df variant_attrs in
    let variant_rows := drop (Nat.max 1 (length parent_images)) rows in
    option_values (length names) <$> variant_rows
      = (fmap (λ v, Some (Str v))) <$> variant_combinations children_df variant_attrs ∧
    Forall (λ r, option_names (length names) r
                 = (λ a, Some (Str (PyStr.capitalize (display_name a)))) <$> names)
           variant_rows.
Proof.
  intros (cat & base & imgs & first & prev & _ & Hparse & _ & _ & Hr)
    %create_variant_rows_variant_part.
  exists imgs. split; [done|]. cbv zeta.
  apply (resolved_options _ _ _ _ _ _ _ Hr), variant_combinations_lengths.
Qed.

Lemma tee_option_names :
  variant_attributes Sample.tee_children ["color"; "size"] = ["color"; "size"] ∧
  variant_combinations Sample.tee_children ["color"; "size"]
    = [["Blue"; "S"]; ["Red"; "M"]; ["Red"; "S"]].
Proof. split; vm_compute; reflexivity. Qed.

Lemma option_columns_witness :
  ∃ rows,
    create_variant_rows Sample.tee Sample.tee_children ["color"; "size"]
      (get_metafield_attributes Sample.tee_frame) = Ok rows ∧
    option_values 2 <$> drop 2 rows
      = [ [Some (Str "Blue"); Some (Str "S")];
          [Some (Str "Red"); Some (Str "M")];
          [Some (Str "Red"); Some (Str "S")] ].
Proof.
  destruct (create_variant_rows_total Sample.tee Sample.tee_children ["color"; "size"]
              (get_metafield_attributes Sample.tee_frame)) as [rows Hrows].
  { exact I. }
  { exact I. }
  { repeat constructor. }
  destruct (option_columns _ _ _ _ _ Hrows) as (imgs & Hparse & Hvalues & _).
  vm_compute in Hparse. injection Hparse as <-.
  destruct tee_option_names as [Hnames Hcombos]. rewrite Hnames, Hcombos in Hvalues.
  exists rows. exact (conj Hrows Hvalues).
Defined.

(** ** Tags and categories *)

Lemma strip_idemp s : PyStr.strip (PyStr.strip s) = PyStr.strip s.
Proof. apply strip_trimmed. Qed.

Lemma last_fmap {A B} (f : A → B) l d : l ≠ [] → List.last (f <$> l) (f d) = f (List.last l d).
Proof.
  induction l as [|x l IH]; [done|]. intros _. destruct l as [|y l]; [done|].
  change (List.last (f <$> x :: y :: l) (f d)) with (List.last (f <$> y :: l) (f d)).
  by rewrite IH.
Qed.

Lemma nth_fmap {A B} (f : A → B) l d i : nth i (f <$> l) (f d) = f (nth i l d).
Proof. revert i. induction l as [|x l IH]; intros [|i]; csimpl; auto. Qed.

Lemma nth_strip l i : nth i (PyStr.strip <$> l) "" = PyStr.strip (nth i l "").
Proof. exact (nth_fmap PyStr.strip l "" i). Qed.

Lemma last_strip l : l ≠ [] → List.last (PyStr.strip <$> l) "" = PyStr.strip (List.last l "").
Proof. exact (last_fmap PyStr.strip l ""). Qed.

Lemma extract_tags_step_spec single_tag_mode tags path :
  extract_tags_step single_tag_mode tags path =
    tags ++ (if PyStr.nonempty (path_tag single_tag_mode path)
             then [path_tag single_tag_mode path] else []).
Proof.
  unfold extract_tags_step, path_tag. pose proof (split_not_nil ">" path) as Hne.
  destruct single_tag_mode.
  - rewrite nth_strip, strip_idemp, length_fmap.
    destruct (PyStr.split ">" path) as [|l1 [|l2 ls]]. 
    + done.
    + simpl. by rewrite app_nil_r.
    + cbn [length Nat.leb nth]. destruct (PyStr.strip l2); simpl; by rewrite ?app_nil_r.
  - rewrite last_strip, strip_idemp by done.
    destruct (PyStr.split ">" path) as [|l1 ls]; [done|]. rewrite fmap_cons. cbv iota.
    destruct (PyStr.strip (List.last (l1 :: ls) "")); simpl; by rewrite ?app_nil_r.
Qed.

Lemma extract_tags_fold single_tag_mode paths tags :
  fold_left (extract_tags_step single_tag_mode) paths tags =
    tags ++ filter (λ tag, tag ≠ "") (path_tag single_tag_mode <$> paths).
Proof.
  revert tags. induction paths as [|path paths IH]; intros tags; csimpl.
  - by rewrite app_nil_r.
  - rewrite IH, extract_tags_step_spec.
    destruct (path_tag single_tag_mode path) as [|c t] eqn:Htag; simpl.
    + rewrite filter_cons_False by (by intros ?). by rewrite app_nil_r.
    + rewrite filter_cons_True by done. by rewrite <-app_assoc.
Qed.

(** X15. The tags of a taxonomy string: the result is the sorted,
    duplicate-free list of the non-empty tags of its paths, joined by a
    comma and a blank; a path stands for its last level (for its second
    level in single tag mode), trimmed. *)
Theorem extract_tags_spec s single_tag_mode :
  ∃ tags,
    extract_tags (Str s) single_tag_mode = Ok (Str (PyStr.join ", " tags)) ∧
    StronglySorted String.le tags ∧ NoDup tags ∧
    ∀ tag, tag ∈ tags ↔
           tag ≠ "" ∧ ∃ path, path ∈ PyStr.split "|" s ∧ tag = path_tag single_tag_mode path.
Proof.
  eexists. split; [done|]. split_and!.
  - apply StronglySorted_merge_sort; apply _.
  - unfold PyStr.sorted. rewrite merge_sort_Permutation. apply NoDup_elements.
  - intros tag. unfold PyStr.sorted. rewrite merge_sort_Permutation.
    rewrite elem_of_elements, elem_of_list_to_set, extract_tags_fold. simpl.
    rewrite list_elem_of_filter, list_elem_of_fmap. naive_solver.
Qed.

(** X16. The tags depend on the set of paths only: neither the order of
    the paths nor a repeated path changes them. *)
Theorem extract_tags_order s1 s2 single_tag_mode :
  extract_tags (Str (s1 +:+ "|" +:+ s2)) single_tag_mode
    = extract_tags (Str (s2 +:+ "|" +:+ s1)) single_tag_mode ∧
  extract_tags (Str (s1 +:+ "|" +:+ s1)) single_tag_mode
    = extract_tags (Str s1) single_tag_mode.
Proof.
  unfold extract_tags.
  change ("|" +:+ s1) with (String "|" s1). change ("|" +:+ s2) with (String "|" s2).
  rewrite !split_app, !extract_tags_fold. simpl.
  rewrite !fmap_app, !filter_app.
  assert (∀ l1 l2 : list string,
            list_to_set (C:=gset string) (l1 ++ l2) = list_to_set (l2 ++ l1)) as Hcomm
    by (intros l1 l2; apply leibniz_equiv; set_solver).
  assert (∀ l : list string, list_to_set (C:=gset string) (l ++ l) = list_to_set l) as Hidem
    by (intros l; apply leibniz_equiv; set_solver).
  split.
  - by rewrite Hcomm.
  - by rewrite Hidem.
Qed.

Lemma extract_category_info_fold paths categories :
  fold_left extract_category_info_step paths categories =
    categories ++ fold_left extract_category_info_step paths [].
Proof.
  revert categories. induction paths as [|path paths IH]; intros categories; simpl.
  - by rewrite app_nil_r.
  - rewrite IH, (IH (extract_category_info_step [] path)).
    unfold extract_category_info_step. case_match; [|done].
    by rewrite <-app_assoc.
Qed.

(** X17. The first path with at least three levels decides the category
    and the subcategory: they are its second and its third level, trimmed;
    a path with fewer levels is passed over. *)
Theorem extract_category_info_first path rest :
  has_char "|" path = false →
  extract_category_info (Str path) =
    Ok (if (3 <=? length (PyStr.split ">" path))%nat
        then {| category := PyStr.strip (nth 1 (PyStr.split ">" path) "");
                subcategory := PyStr.strip (nth 2 (PyStr.split ">" path) "") |}
        else {| category := ""; subcategory := "" |}) ∧
  extract_category_info (Str (path +:+ "|" +:+ rest)) =
    if (3 <=? length (PyStr.split ">" path))%nat
    then extract_category_info (Str path)
    else extract_category_info (Str rest).
Proof.
  intros Hbar.
  assert (PyStr.split "|" path = [path]) as Hpath.
  { apply split_without_separator. by rewrite contains_has_char. }
  assert (extract_category_info_step [] path =
            if (3 <=? length (PyStr.split ">" path))%nat
            then [ {| category := PyStr.strip (nth 1 (PyStr.split ">" path) "");
                      subcategory := PyStr.strip (nth 2 (PyStr.split ">" path) "") |} ]
            else []) as Hstep.
  { unfold extract_category_info_step. rewrite length_fmap.
    by rewrite !nth_strip, !strip_idemp. }
  assert (extract_category_info (Str path) =
            Ok (if (3 <=? length (PyStr.split ">" path))%nat
                then {| category := PyStr.strip (nth 1 (PyStr.split ">" path) "");
                        subcategory := PyStr.strip (nth 2 (PyStr.split ">" path) "") |}
                else {| category := ""; subcategory := "" |})) as Hone.
  { unfold extract_category_info. rewrite Hpath. cbn [fold_left]. rewrite Hstep.
    by destruct (3 <=? length (PyStr.split ">" path))%nat. }
  split; [done|]. rewrite Hone. unfold extract_category_info.
  change ("|" +:+ rest) with (String "|" rest). rewrite split_app, Hpath.
  cbn [app fold_left]. rewrite extract_category_info_fold, Hstep.
  by destruct (3 <=? length (PyStr.split ">" path))%nat.
Qed.

Lemma extract_category_info_first_witness :
  extract_category_info (Str "Sale|All > Shoes > Running") =
    Ok {| category := "Shoes"; subcategory := "Running" |}.
Proof.
  destruct (extract_category_info_first "Sale" "All > Shoes > Running") as [_ Hfirst].
  { reflexivity. }
  exact Hfirst.
Defined.

(** ** The rows of a conversion *)

Lemma make_base_row_title parent_row children_df metafield_attrs category_info base_row :
  make_base_row parent_row children_df metafield_attrs category_info = Ok base_row →
  Forall metafield_attr_wf metafield_attrs →
  base_row !! "Title" = Some (post_title parent_row).
Proof.
  unfold make_base_row. intros H Hwf. apply bind_Ok in H as (tags & _ & H).
  injection H as <-. rewrite fold_add_metafield_lookup; [by simplify_map_eq|].
  eapply Forall_impl; [done|]. intros attr ?. by apply plain_key_ne.
Qed.

(** what the statistics read of the rows of one product *)
Lemma create_variant_rows_frame df parent_row children_df variant_attrs rows :
  create_variant_rows parent_row children_df variant_attrs
                      (get_metafield_attributes df) = Ok rows →
  ∃ parent_images first_row rest,
    parse_images (images parent_row) = Ok parent_images ∧
    rows = first_row :: rest ∧
    (∀ r, r ∈ rows → r !! "Handle" = Some (post_title parent_row)) ∧
    first_row !! "Title" = Some (post_title parent_row) ∧
    is_Some (first_row !! "Variant Price") ∧
    (parent_images ≠ [] → is_Some (first_row !! "Image Position")) ∧
    (parent_images = [] → ∀ r, r ∈ rows → r !! "Image Position" = None).
Proof.
  intros Hrows.
  pose proof Hrows as
    (ci & base_row & imgs & Hci & Hbase & Hparse & Hkinds)%create_variant_rows_kinds.
  pose proof (get_metafield_attributes_wf df) as Hwf.
  destruct (make_base_row_shared _ _ _ _ _ Hbase Hwf) as (tags & _ & Hhandle & _ & _).
  pose proof (make_base_row_title _ _ _ _ _ Hbase Hwf) as Htitle.
  apply create_variant_rows_parts in Hrows
    as (ci' & base_row' & imgs' & first_row & prev & irs & vrs & Hci' & Hbase' & Hparse'
        & Hfirst & Hlen & Himg & Hr & ->).
  assert (ci' = ci) as -> by congruence. assert (base_row' = base_row) as -> by congruence.
  assert (imgs' = imgs) as -> by congruence.
  exists imgs, first_row, (irs ++ vrs). split_and!; [done..| | | | |].
  - intros r Hr'. destruct (Hkinds r Hr') as [[p Hf]|[(idx & img & Hi)|(p & t & p' & Hv)]].
    + rewrite (make_first_row_carried_key _ _ _ _ _ _ _ _ Hf); [done|].
      by apply carried_key_plain; [|set_solver].
    + by destruct (image_row_shared _ _ _ _ _ _ _ Hi Hwf) as (? & _).
    + rewrite (variant_step_carried_key _ _ _ _ _ _ _ _ _ Hv); [done|].
      by apply carried_key_plain; [|set_solver].
  - rewrite (make_first_row_carried_key _ _ _ _ _ _ _ _ Hfirst); [done|].
    by apply carried_key_plain; [|set_solver].
  - apply make_first_row_inv in Hfirst. cbv zeta in Hfirst.
    destruct (iterrows children_df).
    + destruct Hfirst as [_ ->]. rewrite lookup_insert_ne by done.
      rewrite lookup_insert_eq. eauto.
    + destruct Hfirst as (vi & _ & _ & Hopt).
      rewrite (first_row_options_lookup _ _ _ _ _ Hopt) by done.
      destruct (truthy vi); simplify_map_eq; eauto.
  - intros Hne. apply make_first_row_inv in Hfirst. cbv zeta in Hfirst.
    destruct imgs as [|img imgs]; [done|].
    destruct (iterrows children_df).
    + destruct Hfirst as [_ ->]. rewrite !lookup_insert_ne by done.
      rewrite lookup_insert_eq. eauto.
    + destruct Hfirst as (vi & _ & _ & Hopt).
      rewrite (first_row_options_lookup _ _ _ _ _ Hopt) by done.
      destruct (truthy vi); simplify_map_eq; eauto.
  - intros ->. simpl in Hlen. destruct irs; [|done]. simpl.
    assert (base_row !! "Image Position" = None) as Hnone.
    { by eapply make_base_row_lookup; [done..|set_solver]. }
    intros r [->|Hin]%elem_of_cons.
    + apply make_first_row_inv in Hfirst. cbv zeta in Hfirst.
      destruct (iterrows children_df).
      * destruct Hfirst as [_ ->]. by rewrite !lookup_insert_ne.
      * destruct Hfirst as (vi & _ & _ & Hopt).
        rewrite (first_row_options_lookup _ _ _ _ _ Hopt) by done.
        destruct (truthy vi); by rewrite !lookup_insert_ne.
    + apply list_elem_of_lookup in Hin as [j Hj].
      destruct (resolved_row _ _ _ _ _ _ _ _ _ Hr Hj) as (t & before & after & _ & Hstep).
      rewrite (variant_step_lookup _ _ _ _ _ _ _ _ _ Hstep); [done|done|set_solver].
Qed.

(** X18. The converted rows come in one block per parent product, in
    parent order; no block is empty and every row of a block carries its
    parent's title as Handle, so there are at least as many rows as
    parents. *)
Theorem output_grouped df output :
  convert_wordpress_to_shopify df = Ok output →
  ∃ groups,
    output = concat groups ∧
    Forall2 (λ parent_row rows,
               rows ≠ [] ∧ ∀ r, r ∈ rows → r !! "Handle" = Some (post_title parent_row))
            (parent_products df) groups ∧
    length (parent_products df) ≤ length output.
Proof.
  unfold convert_wordpress_to_shopify. intros (groups & Hg & ->)%convert_loop_Ok.
  exists groups. simpl.
  assert (Forall2 (λ parent_row rows,
               rows ≠ [] ∧ ∀ r, r ∈ rows → r !! "Handle" = Some (post_title parent_row))
            (parent_products df) groups) as Hgroups.
  { eapply Forall2_impl; [done|]. intros parent_row rows Hrows. simpl in Hrows.
    apply create_variant_rows_frame in Hrows as (imgs & first & rest & _ & -> & Hh & _).
    split; [done|]. exact Hh. }
  split_and!; [done..|].
  clear Hg. induction Hgroups as [|p rows ps gs [Hne _] _ IH]; simpl; [lia|].
  rewrite length_app. destruct rows; [done|]. simpl. lia.
Qed.

Lemma tee_frame_converts :
  match convert_wordpress_to_shopify Sample.tee_frame with
  | Ok _ => true
  | Raise _ => false
  end = true.
Proof. vm_compute. reflexivity. Qed.

Lemma output_grouped_witness :
  ∃ output,
    convert_wordpress_to_shopify Sample.tee_frame = Ok output ∧
    1 ≤ length output.
Proof.
  pose proof tee_frame_converts as Hfact.
  destruct (convert_wordpress_to_shopify Sample.tee_frame) as [output|e] eqn:Hout;
    [|discriminate Hfact].
  exists output. split; [reflexivity|].
  destruct (output_grouped _ _ Hout) as (groups & _ & _ & Hlen). exact Hlen.
Defined.

(** ** The statistics *)

Lemma mapM_cons {A B} (f : A → result B) x l :
  mapM f (x :: l) = y ← f x; k ← mapM f l; Ok (y :: k).
Proof. done. Qed.

Lemma mapM_Ok {A B} (f : A → result B) l k :
  mapM f l = Ok k ↔ Forall2 (λ x y, f x = Ok y) l k.
Proof.
  revert k. induction l as [|x l IH]; intros k.
  - split; [intros [= <-]; constructor|]. by inversion 1.
  - rewrite mapM_cons. split.
    + intros H. apply bind_Ok in H as (y & Hy & H). apply bind_Ok in H as (k' & Hk & H).
      injection H as <-. constructor; [done|]. by apply IH.
    + inversion 1 as [|? y ? k' Hy Hk]; subst. rewrite Hy.
      apply IH in Hk. by rewrite Hk.
Qed.

Lemma mapM_Raise {A B} (f : A → result B) l1 x l2 e :
  Forall (λ y, ∃ b, f y = Ok b) l1 → f x = Raise e → mapM f (l1 ++ x :: l2) = Raise e.
Proof.
  intros Hl1 Hx. induction Hl1 as [|y l1 [b Hb] _ IH].
  - simpl app. by rewrite mapM_cons, Hx.
  - change ((y :: l1) ++ x :: l2) with (y :: (l1 ++ x :: l2)).
    by rewrite mapM_cons, Hb, IH.
Qed.

Lemma elem_of_unique l v : v ∈ unique l ↔ v ∈ l.
Proof.
  induction l as [|w l IH]; simpl; [done|].
  rewrite !elem_of_cons, list_elem_of_filter, IH.
  destruct (decide (v = w)); naive_solver.
Qed.

Lemma NoDup_unique l : NoDup (unique l).
Proof.
  induction l as [|w l IH]; simpl; [constructor|].
  constructor; [|by apply NoDup_filter].
  rewrite list_elem_of_filter. by intros [? _].
Qed.

Lemma frame_has_true output_df col :
  frame_has output_df col = true ↔ ∃ r, r ∈ output_df ∧ is_Some (r !! col).
Proof.
  unfold frame_has. rewrite existsb_exists. split.
  - intros (r & Hr & His). exists r. split; [by apply list_elem_of_In|].
    by apply bool_decide_eq_true in His.
  - intros (r & Hr & His). exists r. split; [by apply list_elem_of_In|].
    by apply bool_decide_eq_true.
Qed.

Lemma frame_has_false output_df col :
  (∀ r, r ∈ output_df → r !! col = None) → frame_has output_df col = false.
Proof.
  intros Hnone. destruct (frame_has output_df col) eqn:Hhas; [|done].
  apply frame_has_true in Hhas as (r & Hr & [v Hv]). rewrite (Hnone r Hr) in Hv. done.
Qed.

Lemma py_eq_NaN v : py_eq v NaN = false.
Proof. by destruct v. Qed.

Lemma rows_of_handle_NaN output_df : rows_of_handle output_df NaN = [].
Proof.
  unfold rows_of_handle. induction output_df as [|r rows IH]; [done|].
  rewrite filter_cons_False; [done|]. rewrite py_eq_NaN. by intros [].
Qed.

Lemma py_eq_refl v : isna v = false → py_eq v v = true.
Proof. intros H. destruct v; try done; unfold py_eq; by rewrite bool_decide_eq_true_2. Qed.

Lemma rows_of_handle_nonempty output_df r :
  r ∈ output_df → isna (frame_cell r "Handle") = false →
  rows_of_handle output_df (frame_cell r "Handle") ≠ [].
Proof.
  intros Hr Hna Hnil.
  assert (r ∈ rows_of_handle output_df (frame_cell r "Handle")) as Hin.
  { apply list_elem_of_filter. split; [|done]. by rewrite py_eq_refl. }
  rewrite Hnil in Hin. by apply elem_of_nil in Hin.
Qed.

(** the entry of a handle that some row carries *)
Lemma product_breakdown_Ok output_df handle :
  frame_has output_df "Variant Price" = true →
  frame_has output_df "Image Position" = true →
  rows_of_handle output_df handle ≠ [] →
  ∃ entry, product_breakdown output_df handle = Ok entry.
Proof.
  intros Hvp Hip Hne. unfold product_breakdown, count_notna, first_cell.
  rewrite Hvp, Hip. csimpl.
  destruct (rows_of_handle output_df handle) as [|r rows]; [done|].
  repeat (case_match; csimpl); eauto.
Qed.

Lemma product_breakdown_NaN output_df :
  frame_has output_df "Variant Price" = true →
  frame_has output_df "Image Position" = true →
  frame_has output_df "Title" = true →
  product_breakdown output_df NaN = Raise IndexError.
Proof.
  intros Hvp Hip Ht. unfold product_breakdown, count_notna, first_cell.
  by rewrite rows_of_handle_NaN, Hvp, Hip, Ht.
Qed.

Lemma product_breakdown_inv output_df handle entry :
  product_breakdown output_df handle = Ok entry →
  Handle entry = handle ∧
  Total_Rows entry = length (rows_of_handle output_df handle) ∧
  Variants entry ≤ Total_Rows entry ∧ Images entry ≤ Total_Rows entry.
Proof.
  unfold product_breakdown, count_notna. intros H.
  apply bind_Ok in H as (variant_rows & Hv & H). apply bind_Ok in H as (image_rows & Hi & H).
  apply bind_Ok in H as (title & _ & H). apply bind_Ok in H as (tags & _ & H).
  apply bind_Ok in H as (cat & _ & H). apply bind_Ok in H as (sub & _ & H).
  injection H as <-. simpl.
  destruct (frame_has output_df "Variant Price"); [|done].
  destruct (frame_has output_df "Image Position"); [|done].
  injection Hv as <-. injection Hi as <-.
  split_and!; [done..|apply length_filter|apply length_filter].
Qed.

Lemma product_breakdown_KeyError output_df handle :
  frame_has output_df "Image Position" = false →
  product_breakdown output_df handle = Raise KeyError.
Proof.
  intros Hip. unfold product_breakdown, count_notna. rewrite Hip.
  by destruct (frame_has output_df "Variant Price").
Qed.

Lemma show_statistics_KeyError output_df :
  (∀ r, r ∈ output_df → r !! "Image Position" = None) →
  show_statistics output_df = Raise KeyError.
Proof.
  intros Hnone%frame_has_false. unfold show_statistics, frame_column.
  destruct (frame_has output_df "Handle") eqn:Hh; [|done]. csimpl.
  destruct output_df as [|r rows]; [done|].
  rewrite fmap_cons. cbn [unique]. rewrite mapM_cons.
  by rewrite product_breakdown_KeyError.
Qed.

Lemma concat_Forall {A} (Q : A → Prop) (groups : list (list A)) :
  Forall (Forall Q) groups → Forall Q (concat groups).
Proof. induction 1; simpl; [constructor|]. by apply Forall_app. Qed.

(** X19. A catalogue in which no product has an image converts, but the
    statistics that [main] shows right after the conversion fail with
    KeyError: no converted row has an Image Position, so the frame has no
    such column. *)
Theorem statistics_without_images df output :
  convert_wordpress_to_shopify df = Ok output →
  (∀ parent_row, parent_row ∈ parent_products df →
                 parse_images (images parent_row) = Ok []) →
  show_statistics output = Raise KeyError.
Proof.
  unfold convert_wordpress_to_shopify. intros (groups & Hg & ->)%convert_loop_Ok.
  generalize dependent (parent_products df). intros parents Hg Himg.
  apply show_statistics_KeyError. simpl. apply Forall_forall, concat_Forall.
  induction Hg as [|p rows ps gs Hrows _ IH]; [constructor|].
  constructor.
  - apply Forall_forall. simpl in Hrows.
    apply create_variant_rows_frame in Hrows as (imgs & first & rest & Hparse & _ & _ & _ & _
                                                 & _ & Hnone).
    apply Hnone. rewrite Himg in Hparse; [by injection Hparse|]. apply elem_of_cons. by left.
  - apply IH. intros q Hq. apply Himg, elem_of_cons. by right.
Qed.

Lemma plain_frame_converts :
  match convert_wordpress_to_shopify Counter.plain_frame with
  | Ok _ => true
  | Raise _ => false
  end = true.
Proof. vm_compute. reflexivity. Qed.

Lemma statistics_without_images_witness :
  ∃ output,
    convert_wordpress_to_shopify Counter.plain_frame = Ok output ∧
    show_statistics output = Raise KeyError.
Proof.
  pose proof plain_frame_converts as Hfact.
  destruct (convert_wordpress_to_shopify Counter.plain_frame) as [output|e] eqn:Hout;
    [|discriminate Hfact].
  exists output. split; [reflexivity|].
  apply (statistics_without_images Counter.plain_frame output Hout).
  intros parent_row Hin. cbn in Hin.
  apply list_elem_of_singleton in Hin as ->. reflexivity.
Defined.

(** ** What the statistics count *)

Lemma sum_list_with_zero {A} (l : list A) : sum_list_with (λ _, 0) l = 0.
Proof. induction l; simpl; auto. Qed.

Lemma sum_list_with_add {A} (f g : A → nat) l :
  sum_list_with (λ x, f x + g x) l = sum_list_with f l + sum_list_with g l.
Proof. induction l as [|x l IH]; simpl; [done|]. rewrite IH. lia. Qed.

Lemma sum_list_with_eq {A} (f g : A → nat) l :
  (∀ x, f x = g x) → sum_list_with f l = sum_list_with g l.
Proof. intros Hfg. induction l as [|x l IH]; simpl; [done|]. by rewrite Hfg, IH. Qed.

Lemma py_eq_decide v w : isna v = false → py_eq v w = bool_decide (v = w).
Proof.
  intros Hv. destruct v; try done; destruct w; try done;
    symmetry; by apply bool_decide_eq_false_2.
Qed.

(** a value that is no NaN equals exactly one of a duplicate-free list
    that holds it *)
Lemma py_eq_count v u :
  NoDup u → v ∈ u →
  sum_list_with (λ h, if py_eq v h then 1 else 0) u = if isna v then 0 else 1.
Proof.
  intros Hnd Hin. destruct (isna v) eqn:Hv.
  - destruct v; try done. apply sum_list_with_zero.
  - induction Hnd as [|h u Hh Hnd IH]; [by apply elem_of_nil in Hin|]. simpl.
    rewrite py_eq_decide by done. apply elem_of_cons in Hin as [<-|Hin].
    + rewrite bool_decide_eq_true_2 by done.
      assert (sum_list_with (λ h, if py_eq v h then 1 else 0) u = 0) as ->; [|done].
      clear IH Hnd. induction u as [|w u IH]; [done|]. simpl.
      apply not_elem_of_cons in Hh as [Hw Hu]. rewrite py_eq_decide by done.
      rewrite bool_decide_eq_false_2 by done. by rewrite IH.
    + rewrite bool_decide_eq_false_2 by (by intros <-). by rewrite IH.
Qed.

Lemma handle_counts output_df u :
  NoDup u → (∀ r, r ∈ output_df → frame_cell r "Handle" ∈ u) →
  sum_list_with (λ h, length (rows_of_handle output_df h)) u
  = length (filter (λ r, negb (isna (frame_cell r "Handle"))) output_df).
Proof.
  intros Hnd. unfold rows_of_handle.
  induction output_df as [|r rows IH]; intros Hin; [apply sum_list_with_zero|].
  assert (∀ h, length (filter (λ r, py_eq (frame_cell r "Handle") h) (r :: rows))
               = (if py_eq (frame_cell r "Handle") h then 1 else 0)
                 + length (filter (λ r, py_eq (frame_cell r "Handle") h) rows)) as Hstep.
  { intros h. destruct (py_eq (frame_cell r "Handle") h) eqn:Hh.
    - rewrite filter_cons_True; [done|]. by rewrite Hh.
    - rewrite filter_cons_False; [done|]. rewrite Hh. by intros []. }
  rewrite (sum_list_with_eq _ _ u Hstep).
  rewrite sum_list_with_add, IH, py_eq_count; [|done|..].
  - destruct (isna (frame_cell r "Handle")) eqn:Hna.
    + rewrite filter_cons_False; [done|]. rewrite Hna. by intros [].
    + rewrite filter_cons_True; [done|]. by rewrite Hna.
  - apply Hin, elem_of_cons. by left.
  - intros r' Hr'. apply Hin, elem_of_cons. by right.
Qed.

Lemma breakdown_entries output_df handles entries :
  mapM (product_breakdown output_df) handles = Ok entries →
  Handle <$> entries = handles ∧
  Forall (λ entry,
            Total_Rows entry = length (rows_of_handle output_df (Handle entry)) ∧
            Variants entry ≤ Total_Rows entry ∧ Images entry ≤ Total_Rows entry) entries ∧
  sum_list_with Total_Rows entries
  = sum_list_with (λ h, length (rows_of_handle output_df h)) handles.
Proof.
  intros H%mapM_Ok. induction H as [|h entry hs es Hentry _ (IHh & IHf & IHs)]; [done|].
  apply product_breakdown_inv in Hentry as (Hhandle & Htotal & Hv & Hi).
  split_and!.
  - csimpl. by rewrite Hhandle, IHh.
  - constructor; [|done]. by rewrite Hhandle.
  - simpl. by rewrite IHs, Htotal.
Qed.

(** X20. What the statistics report when they succeed: one entry per
    distinct value of the Handle column, in the order of first occurrence;
    an entry counts the rows whose Handle equals its own, its variants and
    images being among them; and the totals of all entries add up to the
    number of rows whose Handle is no NaN. *)
Theorem show_statistics_accounts output_df unique_products entries :
  show_statistics output_df = Ok (unique_products, entries) →
  unique_products = length entries ∧
  Handle <$> entries = unique ((λ r, frame_cell r "Handle") <$> output_df) ∧
  NoDup (Handle <$> entries) ∧
  Forall (λ entry,
            Total_Rows entry = length (rows_of_handle output_df (Handle entry)) ∧
            Variants entry ≤ Total_Rows entry ∧ Images entry ≤ Total_Rows entry) entries ∧
  sum_list_with Total_Rows entries
  = length (filter (λ r, negb (isna (frame_cell r "Handle"))) output_df).
Proof.
  unfold show_statistics, frame_column. intros H.
  apply bind_Ok in H as (handles & Hhandles & H).
  apply bind_Ok in H as (entries' & Hentries & H). injection H as <- <-.
  destruct (frame_has output_df "Handle"); [|done]. injection Hhandles as <-.
  apply breakdown_entries in Hentries as (Hh & Hf & Hs).
  split_and!; [|done| |done|].
  - by rewrite <-Hh, length_fmap.
  - rewrite Hh. apply NoDup_unique.
  - rewrite Hs. apply handle_counts; [apply NoDup_unique|].
    intros r Hr. apply elem_of_unique. by apply (list_elem_of_fmap_2 (λ r, frame_cell r "Handle")).
Qed.

Lemma converted_statistics :
  match show_statistics Counter.converted with
  | Ok (unique_products, entries) => (unique_products, Total_Rows <$> entries)
  | Raise _ => (0, [])
  end = (2, [2; 1]).
Proof. vm_compute. reflexivity. Qed.

Lemma show_statistics_accounts_witness :
  ∃ entries,
    show_statistics Counter.converted = Ok (2, entries) ∧
    sum_list_with Total_Rows entries = 3.
Proof.
  pose proof converted_statistics as Hfact.
  destruct (show_statistics Counter.converted) as [[n entries]|e] eqn:Hstat;
    [|discriminate Hfact].
  injection Hfact as -> _. exists entries. split; [reflexivity|].
  destruct (show_statistics_accounts _ _ _ Hstat) as (_ & _ & _ & _ & Hsum).
  exact Hsum.
Defined.

(** ** The statistics of a conversion *)

(** what the statistics read of the blocks of a conversion *)
Lemma conversion_groups df output :
  convert_wordpress_to_shopify df = Ok output →
  ∃ groups,
    output = concat groups ∧
    Forall2 (λ parent_row rows,
               ∃ parent_images first_row rest,
                 parse_images (images parent_row) = Ok parent_images ∧
                 rows = first_row :: rest ∧
                 (∀ r, r ∈ rows → frame_cell r "Handle" = post_title parent_row) ∧
                 is_Some (first_row !! "Handle") ∧
                 is_Some (first_row !! "Title") ∧
                 is_Some (first_row !! "Variant Price") ∧
                 (parent_images ≠ [] → is_Some (first_row !! "Image Position")))
            (parent_products df) groups.
Proof.
  unfold convert_wordpress_to_shopify. intros (groups & Hg & ->)%convert_loop_Ok.
  exists groups. split; [done|].
  eapply Forall2_impl; [done|]. intros parent_row rows Hrows. simpl in Hrows.
  apply create_variant_rows_frame in Hrows
    as (imgs & first & rest & Hparse & -> & Hh & Ht & Hvp & Hip & _).
  exists imgs, first, rest. split_and!; [done..| | | |done|done].
  - intros r Hr. unfold frame_cell. by rewrite (Hh r Hr).
  - rewrite (Hh first); [eauto|]. apply elem_of_cons. by left.
  - rewrite Ht. eauto.
Qed.

Lemma elem_of_concat {A} (x : A) (l : list A) (groups : list (list A)) :
  l ∈ groups → x ∈ l → x ∈ concat groups.
Proof.
  intros Hl Hx. apply list_elem_of_In, in_concat. exists l.
  split; by apply list_elem_of_In.
Qed.

Lemma elem_of_concat_inv {A} (x : A) (groups : list (list A)) :
  x ∈ concat groups → ∃ l, l ∈ groups ∧ x ∈ l.
Proof.
  intros (l & Hl & Hx)%list_elem_of_In%in_concat. exists l.
  split; by apply list_elem_of_In.
Qed.

Lemma Forall2_elem_of_l {A B} (P : A → B → Prop) l k x :
  Forall2 P l k → x ∈ l → ∃ y, y ∈ k ∧ P x y.
Proof.
  intros HF [i Hi]%list_elem_of_lookup.
  destruct (Forall2_lookup_l _ _ _ _ _ HF Hi) as (y & Hy & HP).
  exists y. split; [|done]. apply list_elem_of_lookup. eauto.
Qed.

Lemma Forall2_elem_of_r {A B} (P : A → B → Prop) l k y :
  Forall2 P l k → y ∈ k → ∃ x, x ∈ l ∧ P x y.
Proof.
  intros HF [i Hi]%list_elem_of_lookup.
  destruct (Forall2_lookup_r _ _ _ _ _ HF Hi) as (x & Hx & HP).
  exists x. split; [|done]. apply list_elem_of_lookup. eauto.
Qed.

(** the columns and cells of a conversion that the statistics rely on *)
Lemma conversion_frame df output :
  convert_wordpress_to_shopify df = Ok output →
  (∀ r, r ∈ output →
        ∃ parent_row, parent_row ∈ parent_products df ∧
                      frame_cell r "Handle" = post_title parent_row) ∧
  (∀ parent_row, parent_row ∈ parent_products df →
     (∃ r, r ∈ output ∧ frame_cell r "Handle" = post_title parent_row) ∧
     frame_has output "Handle" = true ∧
     frame_has output "Title" = true ∧
     frame_has output "Variant Price" = true ∧
     ∀ img imgs, parse_images (images parent_row) = Ok (img :: imgs) →
                 frame_has output "Image Position" = true).
Proof.
  intros (groups & -> & Hg)%conversion_groups. split.
  - intros r (rows & Hrows & Hr)%elem_of_concat_inv.
    destruct (Forall2_elem_of_r _ _ _ _ Hg Hrows)
      as (parent_row & Hp & imgs & first & rest & _ & _ & Hh & _).
    exists parent_row. split; [done|]. by apply Hh.
  - intros parent_row Hp.
    destruct (Forall2_elem_of_l _ _ _ _ Hg Hp)
      as (rows & Hrows & imgs & first & rest & Hparse & -> & Hh & Hhandle & Ht & Hvp & Hip).
    assert (first ∈ concat groups) as Hfirst.
    { eapply elem_of_concat; [done|]. apply elem_of_cons. by left. }
    split_and!.
    + exists first. split; [done|]. apply Hh, elem_of_cons. by left.
    + apply frame_has_true. eauto.
    + apply frame_has_true. eauto.
    + apply frame_has_true. eauto.
    + intros img imgs' Hparse'. apply frame_has_true. exists first. split; [done|].
      apply Hip. rewrite Hparse in Hparse'. by injection Hparse' as ->.
Qed.

(** X21. A parent product without a title makes the statistics fail with
    IndexError once some product has an image: its handle NaN is one of the
    unique handles, no row compares equal to it, and the first cell of the
    Title column is read from an empty selection. *)
Theorem statistics_nan_title df output :
  convert_wordpress_to_shopify df = Ok output →
  (∃ parent_row img imgs,
     parent_row ∈ parent_products df ∧
     parse_images (images parent_row) = Ok (img :: imgs)) →
  (∃ parent_row, parent_row ∈ parent_products df ∧ post_title parent_row = NaN) →
  show_statistics output = Raise IndexError.
Proof.
  intros [Hrows Hparents]%conversion_frame (pi & img & imgs & Hpi & Hparse) (pn & Hpn & Hnan).
  destruct (Hparents pi Hpi) as (_ & Hh & Ht & Hvp & Hip).
  specialize (Hip img imgs Hparse).
  destruct (Hparents pn Hpn) as ((rn & Hrn & Hcell) & _).
  unfold show_statistics, frame_column. rewrite Hh.
  assert (NaN ∈ unique ((λ r, frame_cell r "Handle") <$> output)) as Hin.
  { apply elem_of_unique. rewrite <-Hnan, <-Hcell.
    by apply (list_elem_of_fmap_2 (λ r, frame_cell r "Handle")). }
  apply list_elem_of_split_l in Hin as (l1 & l2 & Hsplit & Hl1).
  assert (mapM (product_breakdown output)
            (unique ((λ r, frame_cell r "Handle") <$> output)) = Raise IndexError) as Hmap.
  { rewrite Hsplit. apply mapM_Raise; [|by apply product_breakdown_NaN].
    apply Forall_forall. intros h Hh1.
    assert (h ∈ (λ r, frame_cell r "Handle") <$> output) as Hh2.
    { apply elem_of_unique. rewrite Hsplit. apply elem_of_app. by left. }
    apply list_elem_of_fmap in Hh2 as (r & -> & Hr).
    apply product_breakdown_Ok; [done..|].
    apply rows_of_handle_nonempty; [done|].
    destruct (frame_cell r "Handle"); try done. }
  change (handles ← Ok ((λ r, frame_cell r "Handle") <$> output);
          entries ← mapM (product_breakdown output) (unique handles);
          Ok (length (unique handles), entries))
    with (entries ← mapM (product_breakdown output)
                          (unique ((λ r, frame_cell r "Handle") <$> output));
          Ok (length (unique ((λ r, frame_cell r "Handle") <$> output)), entries)).
  by rewrite Hmap.
Qed.

Lemma untitled_converts :
  match convert_wordpress_to_shopify Untitled.frame with
  | Ok _ => true
  | Raise _ => false
  end = true.
Proof. vm_compute. reflexivity. Qed.

Lemma statistics_nan_title_witness :
  ∃ output,
    convert_wordpress_to_shopify Untitled.frame = Ok output ∧
    show_statistics output = Raise IndexError.
Proof.
  pose proof untitled_converts as Hfact.
  destruct (convert_wordpress_to_shopify Untitled.frame) as [output|e] eqn:Hout;
    [|discriminate Hfact].
  exists output. split; [reflexivity|].
  apply (statistics_nan_title Untitled.frame output Hout).
  - exists Untitled.titled, {| url := "http://x/p1.jpg"; alt := "" |},
           [ {| url := "http://x/p2.jpg"; alt := "" |} ].
    split; [|reflexivity]. apply elem_of_cons. by left.
  - exists Untitled.untitled. split; [|reflexivity].
    apply elem_of_cons. right. apply elem_of_cons. by left.
Defined.

Lemma mapM_total {A B} (f : A → result B) l :
  Forall (λ x, ∃ y, f x = Ok y) l → ∃ k, mapM f l = Ok k.
Proof.
  induction 1 as [|x l [y Hy] _ [k IH]]; [by exists []|].
  exists (y :: k). by rewrite mapM_cons, Hy, IH.
Qed.

Lemma filter_unique_block (t : value) block rest :
  Forall (λ v, v = t) block →
  filter (λ w, w ≠ t) (unique (block ++ rest)) = filter (λ w, w ≠ t) (unique rest).
Proof.
  induction 1 as [|v block -> _ IH]; [done|]. simpl.
  rewrite filter_cons_False by (by intros ?).
  rewrite list_filter_filter, <-IH. apply list_filter_iff. naive_solver.
Qed.

(** the distinct handles of the blocks are the distinct titles *)
Lemma unique_blocks {A} (title : A → value) (parents : list A) (groups : list (list row)) :
  Forall2 (λ parent_row rows,
             rows ≠ [] ∧ ∀ r, r ∈ rows → frame_cell r "Handle" = title parent_row)
          parents groups →
  unique ((λ r, frame_cell r "Handle") <$> concat groups) = unique (title <$> parents).
Proof.
  induction 1 as [|p rows ps gs [Hne Hrows] _ IH]; [done|].
  destruct rows as [|r rows]; [done|]. csimpl. rewrite fmap_app.
  rewrite (Hrows r) by (apply elem_of_cons; by left).
  f_equal. rewrite filter_unique_block; [by rewrite IH|].
  apply Forall_fmap, Forall_forall. intros r' Hr'. simpl. apply Hrows, elem_of_cons. by right.
Qed.

Lemma filter_all {A} (P : A → Prop) `{∀ x, Decision (P x)} l :
  Forall P l → filter P l = l.
Proof. induction 1; [done|]. rewrite filter_cons_True by done. by f_equal. Qed.

(** X22. When some product has an image and every parent product has a
    title, the statistics of a conversion succeed: they list one entry per
    distinct title, in the order in which the titles first occur, products
    of the same title being counted as one, and the row totals of the
    entries add up to the number of converted rows. *)
Theorem statistics_of_conversion df output :
  convert_wordpress_to_shopify df = Ok output →
  (∃ parent_row img imgs,
     parent_row ∈ parent_products df ∧
     parse_images (images parent_row) = Ok (img :: imgs)) →
  (∀ parent_row, parent_row ∈ parent_products df → isna (post_title parent_row) = false) →
  ∃ entries,
    show_statistics output = Ok (length entries, entries) ∧
    Handle <$> entries = unique (post_title <$> parent_products df) ∧
    sum_list_with Total_Rows entries = length output.
Proof.
  intros Hout (pi & img & imgs & Hpi & Hparse) Htitles.
  pose proof Hout as [Hrows Hparents]%conversion_frame.
  destruct (Hparents pi Hpi) as (_ & Hh & Ht & Hvp & Hip).
  specialize (Hip img imgs Hparse).
  assert (∀ r, r ∈ output → isna (frame_cell r "Handle") = false) as Hna.
  { intros r (p & Hp & ->)%Hrows. by apply Htitles. }
  destruct (mapM_total (product_breakdown output)
              (unique ((λ r, frame_cell r "Handle") <$> output))) as [entries Hentries].
  { apply Forall_forall. intros h Hh1. apply (proj1 (elem_of_unique _ _)) in Hh1.
    apply list_elem_of_fmap in Hh1 as (r & -> & Hr).
    apply product_breakdown_Ok; [done..|]. apply rows_of_handle_nonempty; auto. }
  pose proof Hentries as (Hhandles & _ & Hsum)%breakdown_entries.
  exists entries. split_and!.
  - unfold show_statistics, frame_column. rewrite Hh.
    change (handles ← Ok ((λ r, frame_cell r "Handle") <$> output);
            entries ← mapM (product_breakdown output) (unique handles);
            Ok (length (unique handles), entries))
      with (entries ← mapM (product_breakdown output)
                            (unique ((λ r, frame_cell r "Handle") <$> output));
            Ok (length (unique ((λ r, frame_cell r "Handle") <$> output)), entries)).
    rewrite Hentries. simpl. by rewrite <-Hhandles, length_fmap.
  - rewrite Hhandles. apply conversion_groups in Hout as (groups & -> & Hg).
    apply unique_blocks. eapply Forall2_impl; [done|].
    intros p rows (imgs' & first & rest & _ & -> & Hcells & _). by split.
  - rewrite Hsum, handle_counts.
    + f_equal. apply filter_all, Forall_forall. intros r Hr. by rewrite Hna.
    + apply NoDup_unique.
    + intros r Hr. apply elem_of_unique.
      by apply (list_elem_of_fmap_2 (λ r, frame_cell r "Handle")).
Qed.

Lemma poster_converts :
  match convert_wordpress_to_shopify Untitled.poster_frame with
  | Ok output => length output
  | Raise _ => 0
  end = 2.
Proof. vm_compute. reflexivity. Qed.

Lemma statistics_of_conversion_witness :
  ∃ output entries,
    convert_wordpress_to_shopify Untitled.poster_frame = Ok output ∧
    show_statistics output = Ok (length entries, entries) ∧
    Handle <$> entries = [Str "Tee"] ∧
    sum_list_with Total_Rows entries = 2.
Proof.
  pose proof poster_converts as Hfact.
  destruct (convert_wordpress_to_shopify Untitled.poster_frame) as [output|e] eqn:Hout;
    [|discriminate Hfact].
  destruct (statistics_of_conversion Untitled.poster_frame output Hout)
    as (entries & Hstat & Hhandles & Hsum).
  - exists Untitled.titled, {| url := "http://x/p1.jpg"; alt := "" |},
           [ {| url := "http://x/p2.jpg"; alt := "" |} ].
    split; [|reflexivity]. apply elem_of_cons. by left.
  - intros parent_row Hin. cbn in Hin. apply list_elem_of_singleton in Hin as ->.
    reflexivity.
  - exists output, entries. rewrite Hfact in Hsum.
    exact (conj eq_refl (conj Hstat (conj Hhandles Hsum))).
Defined.
